(** * Hand tracker of the detection service

    Shallow embedding of [src/detection_service/detector.py]: the geometry
    helpers ([box_iou], [box_center], [is_in_roi], [is_near_pizza],
    [is_scooper_at_pizza]) and the class [HandTracker] with its per-frame
    [update].

    Conventions.
    - Python [int] is [Z] for coordinates and frame numbers; identifiers and
      counters, which start at 0 and only ever grow by one, are [nat].
    - Python floats appear only as the quotient returned by [box_iou] and as
      the margins 0.5 and 0.4 and the threshold 0.2.  They are modelled by
      exact rationals [Q]: the rounding of a double is not part of the model.
      The comparisons involved have integer operands up to these three
      constants, so for pixel coordinates an exact comparison and the rounded
      one agree.
    - A Python [dict] is an association list in insertion order with the
      operations [dict_get], [dict_set] (in place when the key exists, at
      the end otherwise) and [dict_del]. *)

From Stdlib Require Import ZArith QArith List Sorted String Bool Arith Lia.
From Stdlib Require Import Permutation Lqa.
Import ListNotations.

Local Open Scope Z_scope.

(** ** Configuration *)

Definition IOU_THRESHOLD : Q := 2 # 10.
Definition HAND_TIMEOUT_FRAMES : nat := 60.
Definition SCOOPER_MEMORY_FRAMES : nat := 15.
Definition VIOLATION_DELAY_FRAMES : nat := 10.

(** ** Geometry *)

Definition Box : Type := (Z * Z * Z * Z)%type.

Record Roi : Type := mkRoi
  { roi_name : string; roi_x : Z; roi_y : Z; roi_w : Z; roi_h : Z }.

Definition inter_area (box1 box2 : Box) : Z :=
  let '(x1, y1, x2, y2) := box1 in
  let '(x1_, y1_, x2_, y2_) := box2 in
  let xi1 := Z.max x1 x1_ in
  let yi1 := Z.max y1 y1_ in
  let xi2 := Z.min x2 x2_ in
  let yi2 := Z.min y2 y2_ in
  Z.max 0 (xi2 - xi1) * Z.max 0 (yi2 - yi1).

Definition box_area (b : Box) : Z :=
  let '(x1, y1, x2, y2) := b in (x2 - x1) * (y2 - y1).

Definition union_area (box1 box2 : Box) : Z :=
  box_area box1 + box_area box2 - inter_area box1 box2.

Definition box_iou (box1 box2 : Box) : Q :=
  if 0 <? union_area box1 box2
  then (inject_Z (inter_area box1 box2) / inject_Z (union_area box1 box2))%Q
  else 0%Q.

Definition box_center (b : Box) : Z * Z :=
  let '(x1, y1, x2, y2) := b in ((x1 + x2) / 2, (y1 + y2) / 2).

Definition is_in_roi (b : Box) (roi : Roi) : bool :=
  let '(cx, cy) := box_center b in
  (roi_x roi <=? cx) && (cx <=? roi_x roi + roi_w roi)
  && (roi_y roi <=? cy) && (cy <=? roi_y roi + roi_h roi).

(** [center_in_expanded c pizza_box margin] is the test shared by
    [is_near_pizza] and by the loop body of [is_scooper_at_pizza]. *)
Definition center_in_expanded (c : Z * Z) (pizza_box : Box) (margin : Q) : bool :=
  let '(hx, hy) := c in
  let '(px1, py1, px2, py2) := pizza_box in
  let pw := inject_Z (px2 - px1) in
  let ph := inject_Z (py2 - py1) in
  let exp_x1 := (inject_Z px1 - pw * margin)%Q in
  let exp_y1 := (inject_Z py1 - ph * margin)%Q in
  let exp_x2 := (inject_Z px2 + pw * margin)%Q in
  let exp_y2 := (inject_Z py2 + ph * margin)%Q in
  Qle_bool exp_x1 (inject_Z hx) && Qle_bool (inject_Z hx) exp_x2
  && Qle_bool exp_y1 (inject_Z hy) && Qle_bool (inject_Z hy) exp_y2.

Definition is_near_pizza_margin (hand_box pizza_box : Box) (margin : Q) : bool :=
  center_in_expanded (box_center hand_box) pizza_box margin.

Definition is_near_pizza (hand_box pizza_box : Box) : bool :=
  is_near_pizza_margin hand_box pizza_box (5 # 10).

Fixpoint is_scooper_at_pizza_margin
  (scooper_boxes : list Box) (pizza_box : Box) (margin : Q) : bool :=
  match scooper_boxes with
  | [] => false
  | s_box :: rest =>
      if center_in_expanded (box_center s_box) pizza_box margin then true
      else is_scooper_at_pizza_margin rest pizza_box margin
  end.

Definition is_scooper_at_pizza (scooper_boxes : list Box) (pizza_box : Box) : bool :=
  is_scooper_at_pizza_margin scooper_boxes pizza_box (4 # 10).

(** ** Python dictionaries

    Keys are hand identifiers.  The list keeps insertion order, which is the
    order in which Python iterates over [items()] and [keys()].  Every [del]
    of the source is applied to a key that is present (it is either guarded
    by [in] or iterates over keys collected from the dictionary itself), so
    [KeyError] never arises and [dict_del] needs no error case. *)

Section Dict.
Context {V : Type}.

Definition dict : Type := list (nat * V).


Fixpoint dict_get (k : nat) (d : dict) : option V :=
  match d with
  | [] => None
  | (k', v) :: rest => if Nat.eqb k k' then Some v else dict_get k rest
  end.

Definition dict_mem (k : nat) (d : dict) : bool :=
  match dict_get k d with Some _ => true | None => false end.

Fixpoint dict_set (k : nat) (v : V) (d : dict) : dict :=
  match d with
  | [] => [(k, v)]
  | (k', v') :: rest =>
      if Nat.eqb k k' then (k, v) :: rest else (k', v') :: dict_set k v rest
  end.

Fixpoint dict_del (k : nat) (d : dict) : dict :=
  match d with
  | [] => []
  | (k', v') :: rest =>
      if Nat.eqb k k' then dict_del k rest else (k', v') :: dict_del k rest
  end.

Fixpoint dict_update (k : nat) (f : V -> V) (d : dict) : dict :=
  match d with
  | [] => []
  | (k', v') :: rest =>
      if Nat.eqb k k' then (k', f v') :: rest else (k', v') :: dict_update k f rest
  end.

Definition dict_del_all (ks : list nat) (d : dict) : dict :=
  fold_left (fun acc k => dict_del k acc) ks d.
End Dict.

Arguments dict V : clear implicits.

(** [d.keys()], in insertion order. *)
Abbreviation dict_keys := (map fst) (only parsing).

(** Membership in [matched_hands], a Python [set] of identifiers. *)
Definition set_mem (k : nat) (s : list nat) : bool := existsb (Nat.eqb k) s.

(** ** Tracker data *)

Inductive HandState : Type :=
| in_roi
| tracking_to_pizza
| waiting_at_pizza
| done.

Record HandData : Type := mkHand
  { box : Box;
    state : HandState;
    frames_since_update : nat;
    h_roi_name : string }.

Record Pending : Type := mkPending
  { p_frame : Z;
    pizza_box : Box;
    p_roi_name : string;
    delay_counter : nat }.

Record Violation : Type := mkViolation
  { v_frame : Z;
    v_hand_id : nat;
    v_roi_name : string }.

Record HandTracker : Type := mkTracker
  { next_id : nat;
    hands : dict HandData;
    violations : list Violation;
    rois : list Roi;
    scooper_history : list (list Box);
    pending_violations : dict Pending }.

(** [HandTracker.__init__] *)
Definition init (rs : list Roi) : HandTracker :=
  mkTracker 0 [] [] rs [] [].

Definition get_violation_count (t : HandTracker) : nat :=
  List.length (violations t).

(** ** [HandTracker.update], phase by phase *)

(** Lines 106-112: the scooper history and its flattening. *)
Definition push_scoopers (history : list (list Box)) (scooper_boxes : list Box)
  : list (list Box) :=
  let h := history ++ [scooper_boxes] in
  if (SCOOPER_MEMORY_FRAMES <? List.length h)%nat then tl h else h.

Definition all_recent_scoopers (history : list (list Box)) : list Box :=
  List.concat history.

(** Lines 129-133 and 177-183: the first region containing the box centre. *)
Definition find_roi (rs : list Roi) (hand_box : Box) : option Roi :=
  find (is_in_roi hand_box) rs.

(** Lines 124-166: the body run for the hand that matches [hand_box]. *)
Definition transition (rs : list Roi) (pizza_boxes : list Box) (frame_num : Z)
  (hand_id : nat) (hand_box : Box) (hand_data : HandData)
  (pend : dict Pending) : HandData * dict Pending :=
  let old_state := state hand_data in
  let name := h_roi_name hand_data in
  match find_roi rs hand_box with
  | Some current_roi => (mkHand hand_box in_roi 0 (roi_name current_roi), pend)
  | None =>
      match old_state with
      | in_roi => (mkHand hand_box tracking_to_pizza 0 name, pend)
      | tracking_to_pizza =>
          match find (is_near_pizza hand_box) pizza_boxes with
          | Some pizza_box =>
              (mkHand hand_box waiting_at_pizza 0 name,
               dict_set hand_id (mkPending frame_num pizza_box name 0) pend)
          | None => (mkHand hand_box tracking_to_pizza 0 name, pend)
          end
      | waiting_at_pizza => (mkHand hand_box waiting_at_pizza 0 name, pend)
      | done => (mkHand hand_box done 0 name, pend)
      end
  end.

Definition iou_matches (hand_box : Box) (hand_data : HandData) : bool :=
  negb (Qle_bool (box_iou hand_box (box hand_data)) IOU_THRESHOLD).

(** Lines 120-170: the inner loop over [self.hands.items()], which stops at
    the first hand not yet matched whose box overlaps [hand_box] enough.
    [None] is the source's [matched = False]. *)
Fixpoint match_hand (rs : list Roi) (pizza_boxes : list Box) (frame_num : Z)
  (hand_box : Box) (items : dict HandData) (matched_hands : list nat)
  (pend : dict Pending)
  : option (dict HandData * list nat * dict Pending) :=
  match items with
  | [] => None
  | (hand_id, hand_data) :: rest =>
      if set_mem hand_id matched_hands || negb (iou_matches hand_box hand_data)
      then
        match match_hand rs pizza_boxes frame_num hand_box rest matched_hands pend with
        | Some (rest', m, p) => Some ((hand_id, hand_data) :: rest', m, p)
        | None => None
        end
      else
        let '(hand_data', pend') :=
          transition rs pizza_boxes frame_num hand_id hand_box hand_data pend in
        Some ((hand_id, hand_data') :: rest, hand_id :: matched_hands, pend')
  end.

(** Lines 118-173: the outer loop over the frame's hand boxes.  The result
    is the hands, [matched_hands], the pending checks and [new_hands]. *)
Fixpoint match_all (rs : list Roi) (pizza_boxes : list Box) (frame_num : Z)
  (hand_boxes : list Box) (hs : dict HandData) (matched_hands : list nat)
  (pend : dict Pending)
  : dict HandData * list nat * dict Pending * list Box :=
  match hand_boxes with
  | [] => (hs, matched_hands, pend, [])
  | hand_box :: more =>
      match match_hand rs pizza_boxes frame_num hand_box hs matched_hands pend with
      | Some (hs', m', p') =>
          match_all rs pizza_boxes frame_num more hs' m' p'
      | None =>
          let '(hs', m', p', new_hands) :=
            match_all rs pizza_boxes frame_num more hs matched_hands pend in
          (hs', m', p', hand_box :: new_hands)
      end
  end.

(** Lines 176-192: hands are created only for boxes inside a region.  The
    third component lists the identifiers given out, in order: these are
    the [New Hand] lines the source logs. *)
Fixpoint add_new_hands (rs : list Roi) (new_hands : list Box)
  (hs : dict HandData) (nid : nat) : dict HandData * nat * list nat :=
  match new_hands with
  | [] => (hs, nid, [])
  | hand_box :: more =>
      match find_roi rs hand_box with
      | Some roi =>
          let '(hs', nid', created) :=
            add_new_hands rs more
              (dict_set nid (mkHand hand_box in_roi 0 (roi_name roi)) hs) (S nid) in
          (hs', nid', nid :: created)
      | None => add_new_hands rs more hs nid
      end
  end.

(** Lines 205-206 and 220-221: [if hand_id in self.hands: ... = "done"]. *)
Definition mark_done (hand_id : nat) (hs : dict HandData) : dict HandData :=
  if dict_mem hand_id hs then
    dict_update hand_id
      (fun h => mkHand (box h) done (frames_since_update h) (h_roi_name h)) hs
  else hs.

Definition tick (p : Pending) : Pending :=
  mkPending (p_frame p) (pizza_box p) (p_roi_name p) (S (delay_counter p)).

(** Lines 199-221: the loop over [self.pending_violations.items()].  It
    returns the pending checks with their counters advanced, the hands, the
    violations committed in this frame and [resolved_pending]. *)
Fixpoint check_pending (frame_num : Z) (scoopers : list Box)
  (items : dict Pending) (hs : dict HandData)
  : dict Pending * dict HandData * list Violation * list nat :=
  match items with
  | [] => ([], hs, [], [])
  | (hand_id, pending0) :: rest =>
      let pending := tick pending0 in
      if is_scooper_at_pizza scoopers (pizza_box pending) then
        let '(items', hs', new_violations, resolved) :=
          check_pending frame_num scoopers rest (mark_done hand_id hs) in
        ((hand_id, pending) :: items', hs', new_violations, hand_id :: resolved)
      else if (VIOLATION_DELAY_FRAMES <=? delay_counter pending)%nat then
        let violation := mkViolation frame_num hand_id (p_roi_name pending) in
        let '(items', hs', new_violations, resolved) :=
          check_pending frame_num scoopers rest (mark_done hand_id hs) in
        ((hand_id, pending) :: items', hs', violation :: new_violations,
         hand_id :: resolved)
      else
        let '(items', hs', new_violations, resolved) :=
          check_pending frame_num scoopers rest hs in
        ((hand_id, pending) :: items', hs', new_violations, resolved)
  end.

Definition timeout_of (s : HandState) : nat :=
  match s with
  | tracking_to_pizza | waiting_at_pizza => (HAND_TIMEOUT_FRAMES * 2)%nat
  | in_roi | done => HAND_TIMEOUT_FRAMES
  end.

Definition age (h : HandData) : HandData :=
  mkHand (box h) (state h) (S (frames_since_update h)) (h_roi_name h).

(** Lines 227-240: the loop over [list(self.hands.keys())].  It returns the
    hands with their counters advanced, [lost_hands] and the pending checks
    left. *)
Fixpoint age_hands (matched_hands : list nat) (items : dict HandData)
  (pend : dict Pending) : dict HandData * list nat * dict Pending :=
  match items with
  | [] => ([], [], pend)
  | (hand_id, hand_data) :: rest =>
      if set_mem hand_id matched_hands then
        let '(hs, lost, p) := age_hands matched_hands rest pend in
        ((hand_id, hand_data) :: hs, lost, p)
      else
        let hand_data' := age hand_data in
        if (timeout_of (state hand_data') <? frames_since_update hand_data')%nat
        then
          let pend' := if dict_mem hand_id pend then dict_del hand_id pend
                       else pend in
          let '(hs, lost, p) := age_hands matched_hands rest pend' in
          ((hand_id, hand_data') :: hs, hand_id :: lost, p)
        else
          let '(hs, lost, p) := age_hands matched_hands rest pend in
          ((hand_id, hand_data') :: hs, lost, p)
  end.

(** The matching phase on a tracker, and what it exposes. *)
Definition match_phase (t : HandTracker) (hand_boxes pizza_boxes : list Box)
  (frame_num : Z) : dict HandData * list nat * dict Pending * list Box :=
  match_all (rois t) pizza_boxes frame_num hand_boxes (hands t) []
    (pending_violations t).

Definition matched_hands_of (t : HandTracker) (hand_boxes pizza_boxes : list Box)
  (frame_num : Z) : list nat :=
  let '(_, m, _, _) := match_phase t hand_boxes pizza_boxes frame_num in m.

(** The whole of [update]; the last component is the list of identifiers
    created in this call. *)
Definition update_full (t : HandTracker)
  (hand_boxes scooper_boxes pizza_boxes : list Box) (frame_num : Z)
  : HandTracker * list Violation * list nat :=
  let history := push_scoopers (scooper_history t) scooper_boxes in
  let scoopers := all_recent_scoopers history in
  let '(hs1, matched_hands, pend1, new_hands) :=
    match_phase t hand_boxes pizza_boxes frame_num in
  let '(hs2, nid, created) := add_new_hands (rois t) new_hands hs1 (next_id t) in
  let '(pend2, hs3, new_violations, resolved_pending) :=
    check_pending frame_num scoopers pend1 hs2 in
  let pend3 := dict_del_all resolved_pending pend2 in
  let '(hs4, lost_hands, pend4) := age_hands matched_hands hs3 pend3 in
  let hs5 := dict_del_all lost_hands hs4 in
  (mkTracker nid hs5 (violations t ++ new_violations) (rois t) history pend4,
   new_violations, created).

Definition update (t : HandTracker)
  (hand_boxes scooper_boxes pizza_boxes : list Box) (frame_num : Z)
  : HandTracker * list Violation :=
  fst (update_full t hand_boxes scooper_boxes pizza_boxes frame_num).

Definition created_ids (t : HandTracker)
  (hand_boxes scooper_boxes pizza_boxes : list Box) (frame_num : Z) : list nat :=
  snd (update_full t hand_boxes scooper_boxes pizza_boxes frame_num).

(** ** Runs: one [update] per frame, in order *)

Record Frame : Type := mkFrame
  { f_hands : list Box;
    f_scoopers : list Box;
    f_pizzas : list Box;
    f_num : Z }.

Definition step (t : HandTracker) (f : Frame) : HandTracker :=
  fst (update t (f_hands f) (f_scoopers f) (f_pizzas f) (f_num f)).

Definition emitted (t : HandTracker) (f : Frame) : list Violation :=
  snd (update t (f_hands f) (f_scoopers f) (f_pizzas f) (f_num f)).

Definition run (t : HandTracker) (frames : list Frame) : HandTracker :=
  fold_left step frames t.

(** The violation lists returned by the successive calls of a run. *)
Fixpoint outputs (t : HandTracker) (frames : list Frame) : list (list Violation) :=
  match frames with
  | [] => []
  | f :: more => emitted t f :: outputs (step t f) more
  end.

(** The identifiers created by the successive calls of a run. *)
Fixpoint creations (t : HandTracker) (frames : list Frame) : list nat :=
  match frames with
  | [] => []
  | f :: more =>
      created_ids t (f_hands f) (f_scoopers f) (f_pizzas f) (f_num f)
      ++ creations (step t f) more
  end.

Definition reachable (rs : list Roi) (t : HandTracker) : Prop :=
  exists frames, t = run (init rs) frames.

(** ** Predicates used to state the properties *)

(** The detector contract on boxes: [x1 < x2] and [y1 < y2]. *)
Definition box_valid (b : Box) : Prop :=
  let '(x1, y1, x2, y2) := b in x1 < x2 /\ y1 < y2.

(** The two boxes share a region of positive width and height. *)
Definition boxes_intersect (box1 box2 : Box) : Prop :=
  let '(x1, y1, x2, y2) := box1 in
  let '(x1_, y1_, x2_, y2_) := box2 in
  Z.max x1 x1_ < Z.min x2 x2_ /\ Z.max y1 y1_ < Z.min y2 y2_.

(** What [transition] makes of the matched hand, and the pizza box for which
    it opens a pending check, if it opens one.  Lemma [transition_eq] below
    shows that [transition] is exactly this pair of effects. *)
Definition hand_after (rs : list Roi) (pizza_boxes : list Box)
  (hand_box : Box) (hand_data : HandData) : HandData :=
  fst (transition rs pizza_boxes 0 0 hand_box hand_data []).

Definition opened_for (rs : list Roi) (pizza_boxes : list Box)
  (hand_box : Box) (hand_data : HandData) : option Box :=
  match find_roi rs hand_box, state hand_data with
  | None, tracking_to_pizza => find (is_near_pizza hand_box) pizza_boxes
  | _, _ => None
  end.

Definition fresh_pending (frame_num : Z) (pizza_box : Box) (hand_data : HandData)
  : Pending :=
  mkPending frame_num pizza_box (h_roi_name hand_data) 0.

Definition pending_after_match (rs : list Roi) (pizza_boxes : list Box)
  (frame_num : Z) (hand_id : nat) (hand_box : Box) (hand_data : HandData)
  (pend : dict Pending) : dict Pending :=
  match opened_for rs pizza_boxes hand_box hand_data with
  | Some pizza_box =>
      dict_set hand_id (fresh_pending frame_num pizza_box hand_data) pend
  | None => pend
  end.

(** The three outcomes of the arbitration loop for one pending check, read
    off the conditions of lines 202 and 208.  The counter tested is the one
    already advanced by line 200. *)
Definition evidence (scoopers : list Box) (p : Pending) : bool :=
  is_scooper_at_pizza scoopers (pizza_box p).

Definition commits (scoopers : list Box) (p : Pending) : bool :=
  negb (evidence scoopers p)
  && (VIOLATION_DELAY_FRAMES <=? S (delay_counter p))%nat.

Definition resolves (scoopers : list Box) (p : Pending) : bool :=
  evidence scoopers p || (VIOLATION_DELAY_FRAMES <=? S (delay_counter p))%nat.

Definition set_done (h : HandData) : HandData :=
  mkHand (box h) done (frames_since_update h) (h_roi_name h).

(** The condition of line 237 for a hand left unmatched in this frame. *)
Definition expired (matched_hands : list nat) (kh : nat * HandData) : bool :=
  negb (set_mem (fst kh) matched_hands)
  && (timeout_of (state (snd kh)) <? S (frames_since_update (snd kh)))%nat.

(** The pending checks as the arbitration loop finds them: those open
    before the call, with the entries written by the matching loop of this
    call. *)
Definition pending_at_arbitration (t : HandTracker) (f : Frame) : dict Pending :=
  let '(_, _, pend, _) := match_phase t (f_hands f) (f_pizzas f) (f_num f) in pend.

(** The scoopers the arbitration loop of frame [f] consults. *)
Definition scoopers_seen (t : HandTracker) (f : Frame) : list Box :=
  all_recent_scoopers (push_scoopers (scooper_history t) (f_scoopers f)).

Definition matched_in (t : HandTracker) (f : Frame) : list nat :=
  matched_hands_of t (f_hands f) (f_pizzas f) (f_num f).

(** Arbitration as seen from one hand: its data and its pending check
    before and after lines 199-224. *)
Definition arbitrate (scoopers : list Box) (h : HandData) (p : option Pending)
  : HandData * option Pending :=
  match p with
  | Some p0 => if resolves scoopers p0 then (set_done h, None)
               else (h, Some (tick p0))
  | None => (h, None)
  end.

(** Well-formedness of the two dictionaries, and the invariant of the
    reachable tracker states. *)
Definition pending_rel (hs : dict HandData) (pend : dict Pending) : Prop :=
  forall k p, dict_get k pend = Some p ->
    exists hd, dict_get k hs = Some hd
      /\ (frames_since_update hd <= delay_counter p)%nat
      /\ (delay_counter p < VIOLATION_DELAY_FRAMES)%nat
      /\ state hd <> done.

Definition waiting_has_pending (hs : dict HandData) (pend : dict Pending) : Prop :=
  forall k hd, dict_get k hs = Some hd -> state hd = waiting_at_pizza ->
    exists p, dict_get k pend = Some p.

Record inv (t : HandTracker) : Prop := mk_inv
  { inv_hands_nodup : NoDup (dict_keys (hands t));
    inv_pending_nodup : NoDup (dict_keys (pending_violations t));
    inv_fresh : forall k, In k (dict_keys (hands t)) -> (k < next_id t)%nat;
    inv_pending : pending_rel (hands t) (pending_violations t);
    inv_waiting : waiting_has_pending (hands t) (pending_violations t) }.

(** The hands as the arbitration loop finds them: matched hands updated,
    new hands added. *)
Definition hands_at_arbitration (t : HandTracker) (f : Frame) : dict HandData :=
  let '(hs1, _, _, new_hands) :=
    match_phase t (f_hands f) (f_pizzas f) (f_num f) in
  let '(hs2, _, _) := add_new_hands (rois t) new_hands hs1 (next_id t) in hs2.

Definition created_in (t : HandTracker) (f : Frame) : list nat :=
  created_ids t (f_hands f) (f_scoopers f) (f_pizzas f) (f_num f).

(** The last [n] elements of a list. *)
Definition lastn {A : Type} (n : nat) (l : list A) : list A :=
  skipn (List.length l - n) l.

(** A hand with its counter forgotten, and two trackers that differ at most
    in the counters of their hands. *)
Definition forget_counter (kh : nat * HandData) : nat * HandData :=
  (fst kh, mkHand (box (snd kh)) (state (snd kh)) 0 (h_roi_name (snd kh))).

Definition same_up_to_counters (t t' : HandTracker) : Prop :=
  next_id t' = next_id t
  /\ map forget_counter (hands t') = map forget_counter (hands t)
  /\ violations t' = violations t
  /\ rois t' = rois t
  /\ scooper_history t' = scooper_history t
  /\ pending_violations t' = pending_violations t.

(** The identifiers of the live hands with their states. *)
Definition hand_states (t : HandTracker) : list (nat * HandState) :=
  map (fun kh => (fst kh, state (snd kh))) (hands t).

(** Hand [k] is matched by no box in any frame of [frames], fed from [t]. *)
Fixpoint unmatched_run (k : nat) (t : HandTracker) (frames : list Frame) : Prop :=
  match frames with
  | [] => True
  | f :: more => ~ In k (matched_in t f) /\ unmatched_run k (step t f) more
  end.

(** Frames in which the matching loop leaves the pending check of hand [k]
    as it was stored and no scooper in the window is near [pb]. *)
Fixpoint quiet_run (k : nat) (pb : Box) (t : HandTracker) (frames : list Frame)
  : Prop :=
  match frames with
  | [] => True
  | f :: more =>
      dict_get k (pending_at_arbitration t f) = dict_get k (pending_violations t)
      /\ is_scooper_at_pizza (scoopers_seen t f) pb = false
      /\ quiet_run k pb (step t f) more
  end.

(** ** Concrete sessions

    One region, the fallback region of [load_rois]; a pizza above it; a hand
    that enters the region, leaves it and reaches the pizza. *)
Module Scenario.

Definition cheese : Roi := mkRoi "Cheese"%string 454 350 64 37.

Definition pizza : Box := (400, 60, 560, 220).
Definition far_scooper : Box := (0, 0, 10, 10).
Definition near_scooper : Box := (470, 130, 490, 150).

Definition hand_in_region : Box := (440, 330, 520, 400).
Definition hand_leaving : Box := (440, 300, 520, 370).
Definition hand_at_pizza : Box := (440, 260, 520, 330).

(** The hand box of frame [n]: in the region up to frame 10, on its way
    in frames 11 to 14, at the pizza from frame 15 on. *)
Definition hand_at (n : Z) : Box :=
  if n <=? 10 then hand_in_region
  else if n <=? 14 then hand_leaving
  else hand_at_pizza.

Definition frame (n : Z) : Frame :=
  mkFrame [hand_at n] [far_scooper] [pizza] n.

(** Frames [a], [a+1], ..., [a+k-1]. *)
Definition frames_from (a : Z) (k : nat) : list Frame :=
  map (fun i => frame (a + Z.of_nat i)) (seq 0 k).

(** A hand that shows up once and is then lost for 61 frames, and a frame
    in which a hand box shows up at the same place afterwards. *)
Definition empty_frames (a : Z) (k : nat) : list Frame :=
  map (fun i => mkFrame [] [] [] (a + Z.of_nat i)) (seq 0 k).

Definition lost_hand_session : list Frame :=
  mkFrame [hand_in_region] [] [] 1 :: empty_frames 2 61.

Definition hand_again : list Frame :=
  [mkFrame [hand_in_region] [] [] 63].

(** Frame [n] of the scenario with a scooper over the pizza. *)
Definition frame_with_scooper (n : Z) : Frame :=
  mkFrame [hand_at n] [near_scooper] [pizza] n.

(** The same session where, after reaching the pizza at frame 15, the hand
    goes back into the region (frame 17), leaves it (frame 18) and reaches
    a pizza detected at a slightly different place (frame 19). *)
Definition pizza_moved : Box := (410, 60, 570, 220).

Definition back_and_forth : list Frame :=
  frames_from 10 6
  ++ [mkFrame [hand_leaving] [far_scooper] [pizza] 16;
      mkFrame [hand_in_region] [far_scooper] [pizza] 17;
      mkFrame [hand_leaving] [far_scooper] [pizza] 18].

Definition reaching_again : Frame :=
  mkFrame [hand_at_pizza] [far_scooper] [pizza_moved] 19.

(** A second round of the same hand: after frame 25 it goes back into the
    region (frame 27), leaves it (frame 28) and reaches the pizza again
    (frame 29). *)
Definition second_round_hand (n : Z) : Box :=
  if n <=? 25 then hand_at n
  else if n <=? 26 then hand_leaving
  else if n <=? 27 then hand_in_region
  else if n <=? 28 then hand_leaving
  else hand_at_pizza.
Definition second_round : list Frame :=
  map (fun i => let n := 10 + Z.of_nat i in
                mkFrame [second_round_hand n] [far_scooper] [pizza] n)
      (seq 0 29).

End Scenario.

(** ** Further predicates on tracker states *)

(** The hand boxes of the frame that the matching loop leaves for the
    creation loop ([new_hands], lines 115 and 172-173). *)
Definition unmatched_boxes (t : HandTracker) (f : Frame) : list Box :=
  let '(_, _, _, new_hands) :=
    match_phase t (f_hands f) (f_pizzas f) (f_num f) in new_hands.

Definition region_names (t : HandTracker) : list string :=
  map roi_name (rois t).

(** Region names and counters in a reachable state. *)
Record inv_more (t : HandTracker) : Prop := mk_inv_more
  { more_hand_names :
      forall k hd, dict_get k (hands t) = Some hd ->
                   In (h_roi_name hd) (region_names t);
    more_pending_names :
      forall k p, dict_get k (pending_violations t) = Some p ->
                  In (p_roi_name p) (region_names t);
    more_pending_started :
      forall k p, dict_get k (pending_violations t) = Some p ->
                  (1 <= delay_counter p)%nat;
    more_hand_counter :
      forall k hd, dict_get k (hands t) = Some hd ->
                   (frames_since_update hd <= timeout_of (state hd))%nat;
    more_violations :
      forall v, In v (violations t) ->
                In (v_roi_name v) (region_names t)
                /\ (v_hand_id v < next_id t)%nat }.

(** The scooper boxes that count as evidence for a pizza box. *)
Definition scooper_near (pizza_box : Box) (s_box : Box) : bool :=
  center_in_expanded (box_center s_box) pizza_box (4 # 10).

(** ** The services around the tracker *)

(** *** [FrameReader.read_and_stream] ([src/frame_reader/frame_reader.py])

    The loop reads frames until the video ends and numbers the ones it
    publishes.  The video is the list of frames read; what the loop does
    with a frame depends only on whether [publish_frame] returned [True]
    for it, which is the boolean given here for each frame.  The result is
    the list of frame numbers carried by the published messages and the
    value of [frame_number] when the loop ends. *)
Fixpoint read_and_stream_from (published : list bool) (frame_number : nat)
  : list nat * nat :=
  match published with
  | [] => ([], frame_number)
  | ok :: more =>
      if ok then
        let '(sent, n) := read_and_stream_from more (S frame_number) in
        (frame_number :: sent, n)
      else read_and_stream_from more frame_number
  end.

Definition read_and_stream (published : list bool) : list nat * nat :=
  read_and_stream_from published 0.

(** *** The connection loops

    [FrameReader.connect_rabbitmq] (10 attempts), and
    [ViolationDetector.connect_rabbitmq] and [connect_postgres] (15
    attempts) share one loop: try, return [True] on success, otherwise
    sleep 5 seconds unless this was the last attempt.  [try a] tells whether
    attempt number [a] succeeds.  The result is the returned boolean and the
    number of calls of [time.sleep]. *)
Fixpoint retry_loop (try : nat -> bool) (max_retries attempt todo : nat)
  : bool * nat :=
  match todo with
  | O => (false, O)
  | S todo' =>
      if try attempt then (true, O)
      else
        let '(r, sleeps) := retry_loop try max_retries (S attempt) todo' in
        (r, ((if (S attempt <? max_retries)%nat then 1 else 0) + sleeps)%nat)
  end.

Definition connect_with_retry (try : nat -> bool) (max_retries : nat)
  : bool * nat :=
  retry_loop try max_retries 0 max_retries.

(** *** [ViolationDetector.load_rois]

    What the function finds at a path: nothing, a file it cannot turn into
    a region list ([open], [json.load] or [config["rois"]] raises; nothing
    catches it), or a file with a region list.  [None] is the exception
    leaving [load_rois].  The function returns [config["rois"]] unchecked; a
    file whose entries are not of the shape [{name, x, y, w, h}] is outside
    this model. *)
Inductive PathState : Type :=
| Missing
| Unreadable
| Config (rs : list Roi).

Definition possible_paths : list string :=
  ["/app/shared/config.json"%string; "/app/config.json"%string;
   "/app/config/config.json"%string].

Definition default_rois : list Roi := [mkRoi "Cheese"%string 454 350 64 37].

Fixpoint load_rois_from (fs : string -> PathState) (paths : list string)
  : option (list Roi) :=
  match paths with
  | [] => Some default_rois
  | path :: more =>
      match fs path with
      | Missing => load_rois_from fs more
      | Unreadable => None
      | Config rs => Some rs
      end
  end.

Definition load_rois (fs : string -> PathState) : option (list Roi) :=
  load_rois_from fs possible_paths.

(** *** [ViolationDetector.process_frame], lines 560-589

    A detection is the class name the model gives and the box after
    [map(int, ...)].  Labels are compared after [lower()]; on the characters
    of the four labels tested this is the lower-casing of ASCII letters. *)
Definition lower_ascii (c : Ascii.ascii) : Ascii.ascii :=
  let n := Ascii.nat_of_ascii c in
  if ((65 <=? n) && (n <=? 90))%nat then Ascii.ascii_of_nat (n + 32) else c.

Fixpoint lower (s : string) : string :=
  match s with
  | EmptyString => EmptyString
  | String c s' => String (lower_ascii c) (lower s')
  end.

Record Detection : Type := mkDetection { d_label : string; d_box : Box }.

Record Parsed : Type := mkParsed
  { det_hand_boxes : list Box;
    det_scooper_boxes : list Box;
    det_pizza_boxes : list Box;
    det_person_boxes : list Box }.

Fixpoint parse_detections (boxes : list Detection) (acc : Parsed) : Parsed :=
  match boxes with
  | [] => acc
  | d :: more =>
      let label := lower (d_label d) in
      let bbox := d_box d in
      parse_detections more
        (if String.eqb label "hand" then
           mkParsed (det_hand_boxes acc ++ [bbox]) (det_scooper_boxes acc)
             (det_pizza_boxes acc) (det_person_boxes acc)
         else if String.eqb label "scooper" then
           mkParsed (det_hand_boxes acc) (det_scooper_boxes acc ++ [bbox])
             (det_pizza_boxes acc) (det_person_boxes acc)
         else if String.eqb label "pizza" then
           mkParsed (det_hand_boxes acc) (det_scooper_boxes acc)
             (det_pizza_boxes acc ++ [bbox]) (det_person_boxes acc)
         else if String.eqb label "person" then
           mkParsed (det_hand_boxes acc) (det_scooper_boxes acc)
             (det_pizza_boxes acc) (det_person_boxes acc ++ [bbox])
         else acc)
  end.

(** What one frame does to the tracker and what it reports: the new
    tracker, the violations handed to [save_violation], and the fields
    [violation_detected] and [violation_count] of the result message. *)
Definition process_detections (t : HandTracker) (boxes : list Detection)
  (frame_number : Z) : HandTracker * list Violation * bool * nat :=
  let p := parse_detections boxes (mkParsed [] [] [] []) in
  let '(t', new_violations) :=
    update t (det_hand_boxes p) (det_scooper_boxes p) (det_pizza_boxes p) frame_number in
  let has_violation := (0 <? List.length new_violations)%nat in
  (t', (if has_violation then new_violations else []), has_violation,
   get_violation_count t').

(** Detections with one of the three labels the tracker is given. *)
Definition has_label (l : string) (d : Detection) : bool :=
  String.eqb (lower (d_label d)) l.

Definition tracked_label (d : Detection) : bool :=
  has_label "hand" d || has_label "scooper" d || has_label "pizza" d.

(** The test of lines 177-184, as a boolean. *)
Definition in_some_region (rs : list Roi) (hand_box : Box) : bool :=
  match find_roi rs hand_box with Some _ => true | None => false end.

(** * Properties *)

(** ** Geometry *)

Section Geometry.

Lemma overlap_bounds (lo1 hi1 lo2 hi2 : Z) :
  0 <= Z.max 0 (Z.min hi1 hi2 - Z.max lo1 lo2)
  /\ (lo1 <= hi1 -> Z.max 0 (Z.min hi1 hi2 - Z.max lo1 lo2) <= hi1 - lo1)
  /\ (lo2 <= hi2 -> Z.max 0 (Z.min hi1 hi2 - Z.max lo1 lo2) <= hi2 - lo2)
  /\ (hi1 <= lo1 \/ hi2 <= lo2 -> Z.max 0 (Z.min hi1 hi2 - Z.max lo1 lo2) = 0).
Proof. lia. Qed.

Lemma inter_area_nonneg (a b : Box) : 0 <= inter_area a b.
Proof.
  destruct a as [[[x1 y1] x2] y2], b as [[[u1 v1] u2] v2]; cbn.
  apply Z.mul_nonneg_nonneg; lia.
Qed.

Lemma inter_area_le_l (a b : Box) :
  box_valid a -> inter_area a b <= box_area a.
Proof.
  destruct a as [[[x1 y1] x2] y2], b as [[[u1 v1] u2] v2]; cbn.
  intros [Hx Hy]. apply Z.mul_le_mono_nonneg; lia.
Qed.

Lemma inter_area_le_r (a b : Box) :
  box_valid b -> inter_area a b <= box_area b.
Proof.
  destruct a as [[[x1 y1] x2] y2], b as [[[u1 v1] u2] v2]; cbn.
  intros [Hx Hy]. apply Z.mul_le_mono_nonneg; lia.
Qed.

Lemma box_area_pos (a : Box) : box_valid a -> 0 < box_area a.
Proof.
  destruct a as [[[x1 y1] x2] y2]; cbn. intros [Hx Hy].
  apply Z.mul_pos_pos; lia.
Qed.

Lemma nonpositive_area_no_overlap (a b : Box) :
  box_area a <= 0 \/ box_area b <= 0 -> inter_area a b = 0.
Proof.
  destruct a as [[[x1 y1] x2] y2], b as [[[u1 v1] u2] v2]; cbn.
  intros H.
  assert (Hs : x2 <= x1 \/ y2 <= y1 \/ u2 <= u1 \/ v2 <= v1).
  { destruct H as [H | H].
    - destruct (Z_lt_le_dec x1 x2), (Z_lt_le_dec y1 y2); try lia.
      assert (0 < (x2 - x1) * (y2 - y1)) by (apply Z.mul_pos_pos; lia). lia.
    - destruct (Z_lt_le_dec u1 u2), (Z_lt_le_dec v1 v2); try lia.
      assert (0 < (u2 - u1) * (v2 - v1)) by (apply Z.mul_pos_pos; lia). lia. }
  destruct Hs as [Hs | [Hs | [Hs | Hs]]].
  - replace (Z.max 0 (Z.min x2 u2 - Z.max x1 u1)) with 0 by lia. lia.
  - replace (Z.max 0 (Z.min y2 v2 - Z.max y1 v1)) with 0 by lia. lia.
  - replace (Z.max 0 (Z.min x2 u2 - Z.max x1 u1)) with 0 by lia. lia.
  - replace (Z.max 0 (Z.min y2 v2 - Z.max y1 v1)) with 0 by lia. lia.
Qed.

Lemma disjoint_no_overlap (a b : Box) :
  ~ boxes_intersect a b -> inter_area a b = 0.
Proof.
  destruct a as [[[x1 y1] x2] y2], b as [[[u1 v1] u2] v2]; cbn.
  intros H.
  destruct (Z_lt_le_dec (Z.max x1 u1) (Z.min x2 u2)) as [Hx | Hx];
    [ destruct (Z_lt_le_dec (Z.max y1 v1) (Z.min y2 v2)) as [Hy | Hy] | ].
  - exfalso. apply H. split; assumption.
  - replace (Z.max 0 (Z.min y2 v2 - Z.max y1 v1)) with 0 by lia. lia.
  - replace (Z.max 0 (Z.min x2 u2 - Z.max x1 u1)) with 0 by lia. lia.
Qed.

Lemma quotient_in_unit_interval (i u : Z) :
  0 <= i <= u -> 0 < u -> (0 <= inject_Z i / inject_Z u <= 1)%Q.
Proof.
  intros Hi Hu. destruct u as [| p | p]; try lia.
  unfold Qdiv, Qinv, Qmult, Qle, inject_Z; cbn. split; lia.
Qed.

Lemma box_iou_zero_of_no_overlap (a b : Box) :
  inter_area a b = 0 -> (box_iou a b == 0)%Q.
Proof.
  intros H. unfold box_iou. rewrite H.
  destruct (0 <? union_area a b); [| reflexivity].
  unfold Qdiv. apply Qmult_0_l.
Qed.

Lemma box_iou_range (a b : Box) :
  box_valid a -> box_valid b -> (0 <= box_iou a b <= 1)%Q.
Proof.
  intros Ha Hb. unfold box_iou.
  pose proof (inter_area_nonneg a b).
  pose proof (inter_area_le_l a b Ha).
  pose proof (inter_area_le_r a b Hb).
  pose proof (box_area_pos b Hb).
  assert (Hu : 0 < union_area a b) by (unfold union_area; lia).
  destruct (0 <? union_area a b) eqn:E; [| apply Z.ltb_ge in E; lia].
  apply quotient_in_unit_interval; [unfold union_area; lia | exact Hu].
Qed.

End Geometry.

(** C8.  [box_iou] lies in [0,1] for boxes with [x1<x2] and [y1<y2]; it
    is 0 when the boxes do not intersect and when either box has
    non-positive area; and a union area that is not positive yields the
    literal 0 without any division being evaluated. *)
Theorem box_iou_unit_interval_and_guard (a b : Box) :
  (box_valid a -> box_valid b -> (0 <= box_iou a b <= 1)%Q)
  /\ (~ boxes_intersect a b -> (box_iou a b == 0)%Q)
  /\ (box_area a <= 0 \/ box_area b <= 0 -> (box_iou a b == 0)%Q)
  /\ (union_area a b <= 0 -> box_iou a b = 0%Q).
Proof.
  repeat split.
  - apply (box_iou_range a b H H0).
  - apply (box_iou_range a b H H0).
  - intros H. apply box_iou_zero_of_no_overlap, disjoint_no_overlap, H.
  - intros H. apply box_iou_zero_of_no_overlap, nonpositive_area_no_overlap, H.
  - intros H. unfold box_iou.
    destruct (0 <? union_area a b) eqn:E; [apply Z.ltb_lt in E; lia | reflexivity].
Qed.

Lemma box_iou_unit_interval_and_guard_witness :
  (0 <= box_iou ((0, 0, 4, 4)%Z) ((2, 2, 6, 6)%Z) <= 1)%Q
  /\ (box_iou ((0, 0, 4, 4)%Z) ((4, 0, 8, 4)%Z) == 0)%Q
  /\ (box_iou ((3, 0, 3, 9)%Z) ((0, 0, 6, 6)%Z) == 0)%Q
  /\ box_iou ((5, 5, 2, 7)%Z) ((0, 0, 0, 0)%Z) = 0%Q.
Proof.
  destruct (box_iou_unit_interval_and_guard (0, 0, 4, 4) (2, 2, 6, 6)) as (H1 & _).
  destruct (box_iou_unit_interval_and_guard (0, 0, 4, 4) (4, 0, 8, 4)) as (_ & H2 & _).
  destruct (box_iou_unit_interval_and_guard (3, 0, 3, 9) (0, 0, 6, 6)) as (_ & _ & H3 & _).
  destruct (box_iou_unit_interval_and_guard (5, 5, 2, 7) (0, 0, 0, 0)) as (_ & _ & _ & H4).
  split; [| split; [| split]].
  - apply H1; unfold box_valid; cbn; lia.
  - apply H2. unfold boxes_intersect; cbn; lia.
  - apply H3. left; cbn; lia.
  - apply H4. cbn; lia.
Defined.

(** ** Dictionaries *)

Section DictFacts.
Context {V : Type}.
Implicit Types (d : dict V) (k : nat) (v : V).

Lemma set_mem_In k (s : list nat) : set_mem k s = true <-> In k s.
Proof.
  unfold set_mem. rewrite existsb_exists. split.
  - intros (x & Hx & E). apply Nat.eqb_eq in E. now subst.
  - intros H. exists k. split; [assumption | apply Nat.eqb_refl].
Qed.

Lemma set_mem_not_In k (s : list nat) : set_mem k s = false <-> ~ In k s.
Proof.
  rewrite <- set_mem_In. destruct (set_mem k s); split; congruence.
Qed.

Lemma dict_get_In k v d : dict_get k d = Some v -> In (k, v) d.
Proof.
  induction d as [| [k' v'] d IH]; cbn; [discriminate |].
  destruct (Nat.eqb_spec k k') as [-> | Hne].
  - intros [= ->]. now left.
  - intros H. right. now apply IH.
Qed.

Lemma dict_get_None k d : dict_get k d = None <-> ~ In k (dict_keys d).
Proof.
  induction d as [| [k' v'] d IH]; cbn.
  - split; [intros _ [] | reflexivity].
  - destruct (Nat.eqb_spec k k') as [-> | Hne].
    + split; [discriminate | intros H; exfalso; apply H; now left].
    + rewrite IH. split; [intros H [E | H']; [congruence | tauto] | tauto].
Qed.

Lemma dict_get_Some_key k v d : dict_get k d = Some v -> In k (dict_keys d).
Proof.
  intros H. apply dict_get_In in H.
  change k with (fst (k, v)). now apply in_map.
Qed.

Lemma In_keys_get k d : In k (dict_keys d) -> exists v, dict_get k d = Some v.
Proof.
  intros H. destruct (dict_get k d) as [v |] eqn:E; [now exists v |].
  apply dict_get_None in E. contradiction.
Qed.

Lemma In_dict_get k v d :
  NoDup (dict_keys d) -> In (k, v) d -> dict_get k d = Some v.
Proof.
  induction d as [| [k' v'] d IH]; cbn; [intros _ [] |].
  intros Hnd [E | H]; inversion Hnd as [| ? ? Hnot Hnd']; subst.
  - inversion E; subst. now rewrite Nat.eqb_refl.
  - destruct (Nat.eqb_spec k k') as [-> | Hne].
    + exfalso. apply Hnot. change k' with (fst (k', v)). now apply in_map.
    + now apply IH.
Qed.

Lemma dict_keys_update k (f : V -> V) d :
  dict_keys (dict_update k f d) = dict_keys d.
Proof.
  induction d as [| [k' v'] d IH]; cbn; [reflexivity |].
  destruct (Nat.eqb k k'); cbn; [reflexivity | now rewrite IH].
Qed.

Lemma dict_get_update k k' (f : V -> V) d :
  dict_get k (dict_update k' f d)
  = if Nat.eqb k k' then option_map f (dict_get k d) else dict_get k d.
Proof.
  induction d as [| [k0 v0] d IH]; cbn; [now destruct (Nat.eqb k k') |].
  destruct (Nat.eqb_spec k' k0) as [-> | Hne]; cbn.
  - destruct (Nat.eqb_spec k k0); reflexivity.
  - destruct (Nat.eqb_spec k k0) as [-> | Hne'].
    + destruct (Nat.eqb_spec k0 k'); [congruence | reflexivity].
    + exact IH.
Qed.

Lemma dict_get_set k k' v d :
  dict_get k (dict_set k' v d)
  = if Nat.eqb k k' then Some v else dict_get k d.
Proof.
  induction d as [| [k0 v0] d IH]; cbn; [now destruct (Nat.eqb k k') |].
  destruct (Nat.eqb_spec k' k0) as [-> | Hne]; cbn.
  - destruct (Nat.eqb_spec k k0); reflexivity.
  - destruct (Nat.eqb_spec k k0) as [-> | Hne'].
    + destruct (Nat.eqb_spec k0 k'); [congruence | reflexivity].
    + exact IH.
Qed.

Lemma dict_keys_set_present k v d :
  In k (dict_keys d) -> dict_keys (dict_set k v d) = dict_keys d.
Proof.
  induction d as [| [k0 v0] d IH]; cbn; [intros [] |].
  destruct (Nat.eqb_spec k k0) as [-> | Hne]; cbn; [reflexivity |].
  intros [E | H]; [congruence | now rewrite IH].
Qed.

Lemma dict_keys_set_absent k v d :
  ~ In k (dict_keys d) -> dict_keys (dict_set k v d) = dict_keys d ++ [k].
Proof.
  induction d as [| [k0 v0] d IH]; cbn; [reflexivity |].
  intros H. destruct (Nat.eqb_spec k k0) as [-> | Hne]; [tauto |].
  cbn. rewrite IH; [reflexivity | tauto].
Qed.

Lemma dict_set_absent k v d :
  ~ In k (dict_keys d) -> dict_set k v d = d ++ [(k, v)].
Proof.
  induction d as [| [k0 v0] d IH]; cbn; [reflexivity |].
  intros H. destruct (Nat.eqb_spec k k0) as [-> | Hne]; [tauto |].
  rewrite IH; [reflexivity | tauto].
Qed.

Lemma NoDup_keys_set k v d :
  NoDup (dict_keys d) -> NoDup (dict_keys (dict_set k v d)).
Proof.
  intros Hnd. destruct (in_dec Nat.eq_dec k (dict_keys d)) as [Hin | Hout].
  - now rewrite dict_keys_set_present.
  - rewrite dict_keys_set_absent by assumption.
    apply NoDup_app; [assumption | repeat constructor; intros [] |].
    intros x Hx [<- | []]. contradiction.
Qed.

Lemma dict_get_del k k' d :
  dict_get k (dict_del k' d)
  = if Nat.eqb k k' then None else dict_get k d.
Proof.
  induction d as [| [k0 v0] d IH]; cbn; [now destruct (Nat.eqb k k') |].
  destruct (Nat.eqb_spec k' k0) as [-> | Hne]; cbn.
  - rewrite IH. destruct (Nat.eqb_spec k k0); reflexivity.
  - destruct (Nat.eqb_spec k k0) as [-> | Hne'].
    + destruct (Nat.eqb_spec k0 k'); [congruence | reflexivity].
    + exact IH.
Qed.

Lemma In_keys_del k k' d :
  In k (dict_keys (dict_del k' d)) <-> k <> k' /\ In k (dict_keys d).
Proof.
  induction d as [| [k0 v0] d IH]; cbn; [tauto |].
  destruct (Nat.eqb_spec k' k0) as [-> | Hne]; cbn.
  - rewrite IH. split; [tauto | intros (Hk & [E | H]); [congruence | tauto]].
  - rewrite IH. split.
    + intros [E | H]; [subst; split; [congruence | now left] | tauto].
    + tauto.
Qed.

Lemma NoDup_keys_del k d :
  NoDup (dict_keys d) -> NoDup (dict_keys (dict_del k d)).
Proof.
  induction d as [| [k0 v0] d IH]; cbn; [trivial |].
  intros Hnd. inversion Hnd as [| ? ? Hnot Hnd']; subst.
  destruct (Nat.eqb k k0); cbn; [now apply IH |].
  constructor; [| now apply IH].
  rewrite In_keys_del. tauto.
Qed.

Lemma dict_del_absent k d : ~ In k (dict_keys d) -> dict_del k d = d.
Proof.
  induction d as [| [k0 v0] d IH]; cbn; [reflexivity |].
  intros H. destruct (Nat.eqb_spec k k0) as [-> | Hne]; [tauto |].
  rewrite IH; [reflexivity | tauto].
Qed.

Lemma dict_get_del_all k ks d :
  dict_get k (dict_del_all ks d)
  = if set_mem k ks then None else dict_get k d.
Proof.
  unfold dict_del_all. revert d.
  induction ks as [| k0 ks IH]; intros d; cbn; [reflexivity |].
  rewrite IH, dict_get_del.
  destruct (Nat.eqb k k0); cbn; [now destruct (set_mem k ks) | reflexivity].
Qed.

Lemma In_keys_del_all k ks d :
  In k (dict_keys (dict_del_all ks d)) <-> ~ In k ks /\ In k (dict_keys d).
Proof.
  unfold dict_del_all. revert d.
  induction ks as [| k0 ks IH]; intros d; cbn; [tauto |].
  rewrite IH, In_keys_del. split; [intros (H1 & H2 & H3) | intros (H1 & H2)].
  - split; [intros [E | H]; [congruence | tauto] | assumption].
  - repeat split; [tauto | intros ->; tauto | assumption].
Qed.

Lemma NoDup_keys_del_all ks d :
  NoDup (dict_keys d) -> NoDup (dict_keys (dict_del_all ks d)).
Proof.
  unfold dict_del_all. revert d.
  induction ks as [| k0 ks IH]; intros d Hnd; cbn; [assumption |].
  apply IH. now apply NoDup_keys_del.
Qed.

Lemma dict_update_absent k (f : V -> V) d :
  dict_get k d = None -> dict_update k f d = d.
Proof.
  induction d as [| [k0 v0] d IH]; cbn; [reflexivity |].
  destruct (Nat.eqb k k0); [discriminate |].
  intros H. now rewrite IH.
Qed.

Lemma guarded_del k d :
  (if dict_mem k d then dict_del k d else d) = dict_del k d.
Proof.
  unfold dict_mem. destruct (dict_get k d) eqn:E; [reflexivity |].
  symmetry. apply dict_del_absent. now apply dict_get_None.
Qed.

Lemma guarded_update k (f : V -> V) d :
  (if dict_mem k d then dict_update k f d else d) = dict_update k f d.
Proof.
  unfold dict_mem. destruct (dict_get k d) eqn:E; [reflexivity |].
  symmetry. now apply dict_update_absent.
Qed.


End DictFacts.

(** ** The matching phase *)

Section Matching.
Variable rs : list Roi.
Variable pizza_boxes : list Box.
Variable frame_num : Z.

Lemma transition_eq hand_id hand_box hand_data pend :
  transition rs pizza_boxes frame_num hand_id hand_box hand_data pend
  = (hand_after rs pizza_boxes hand_box hand_data,
     pending_after_match rs pizza_boxes frame_num hand_id hand_box hand_data pend).
Proof.
  unfold hand_after, pending_after_match, opened_for, fresh_pending, transition.
  destruct (find_roi rs hand_box); [reflexivity |].
  destruct (state hand_data); try reflexivity.
  destruct (find (is_near_pizza hand_box) pizza_boxes); reflexivity.
Qed.

Lemma hand_after_box hand_box hand_data :
  box (hand_after rs pizza_boxes hand_box hand_data) = hand_box.
Proof.
  unfold hand_after, transition.
  destruct (find_roi rs hand_box); [reflexivity |].
  destruct (state hand_data); try reflexivity.
  destruct (find (is_near_pizza hand_box) pizza_boxes); reflexivity.
Qed.

Lemma hand_after_counter hand_box hand_data :
  frames_since_update (hand_after rs pizza_boxes hand_box hand_data) = 0%nat.
Proof.
  unfold hand_after, transition.
  destruct (find_roi rs hand_box); [reflexivity |].
  destruct (state hand_data); try reflexivity.
  destruct (find (is_near_pizza hand_box) pizza_boxes); reflexivity.
Qed.

Lemma hand_after_state hand_box hand_data :
  state (hand_after rs pizza_boxes hand_box hand_data)
  = match find_roi rs hand_box with
    | Some _ => in_roi
    | None =>
        match state hand_data with
        | in_roi => tracking_to_pizza
        | tracking_to_pizza =>
            match find (is_near_pizza hand_box) pizza_boxes with
            | Some _ => waiting_at_pizza
            | None => tracking_to_pizza
            end
        | waiting_at_pizza => waiting_at_pizza
        | done => done
        end
    end.
Proof.
  unfold hand_after, transition.
  destruct (find_roi rs hand_box); [reflexivity |].
  destruct (state hand_data); try reflexivity.
  destruct (find (is_near_pizza hand_box) pizza_boxes); reflexivity.
Qed.

Lemma hand_after_not_done hand_box hand_data :
  state hand_data <> done ->
  state (hand_after rs pizza_boxes hand_box hand_data) <> done.
Proof.
  rewrite hand_after_state.
  destruct (find_roi rs hand_box); [discriminate |].
  destruct (state hand_data); try discriminate; [| congruence].
  destruct (find (is_near_pizza hand_box) pizza_boxes); discriminate.
Qed.

Lemma opened_for_state hand_box hand_data pb :
  opened_for rs pizza_boxes hand_box hand_data = Some pb ->
  state hand_data = tracking_to_pizza
  /\ find_roi rs hand_box = None
  /\ find (is_near_pizza hand_box) pizza_boxes = Some pb
  /\ state (hand_after rs pizza_boxes hand_box hand_data) = waiting_at_pizza.
Proof.
  unfold opened_for. rewrite hand_after_state.
  destruct (find_roi rs hand_box); [discriminate |].
  destruct (state hand_data); try discriminate.
  intros ->. auto.
Qed.

(** The inner loop replaces exactly one hand: the first one, in insertion
    order, that is still unmatched and overlaps the box. *)
Lemma match_hand_Some hand_box :
  forall hs m pend hs' m' pend',
    NoDup (dict_keys hs) ->
    match_hand rs pizza_boxes frame_num hand_box hs m pend = Some (hs', m', pend') ->
    exists k hd,
      dict_get k hs = Some hd
      /\ set_mem k m = false
      /\ iou_matches hand_box hd = true
      /\ hs' = dict_update k (fun _ => hand_after rs pizza_boxes hand_box hd) hs
      /\ m' = k :: m
      /\ pend' = pending_after_match rs pizza_boxes frame_num k hand_box hd pend.
Proof.
  induction hs as [| [k0 h0] hs IH]; intros m pend hs' m' pend' Hnd; cbn;
    [discriminate |].
  inversion Hnd as [| ? ? Hnot Hnd']; subst.
  destruct (set_mem k0 m) eqn:Em; cbn.
  - destruct (match_hand rs pizza_boxes frame_num hand_box hs m pend)
      as [[[r' m1] p1] |] eqn:E; [| discriminate].
    intros [= <- <- <-].
    destruct (IH _ _ _ _ _ Hnd' E) as (k & hd & Hg & Hm & Hi & -> & -> & ->).
    assert (Hk : k <> k0).
    { intros ->. apply Hnot. eapply dict_get_Some_key; eauto. }
    apply Nat.eqb_neq in Hk. exists k, hd. rewrite Hk. auto 10.
  - destruct (iou_matches hand_box h0) eqn:Ei; cbn.
    + rewrite transition_eq. intros [= <- <- <-].
      exists k0, h0. rewrite Nat.eqb_refl. auto 10.
    + destruct (match_hand rs pizza_boxes frame_num hand_box hs m pend)
        as [[[r' m1] p1] |] eqn:E; [| discriminate].
      intros [= <- <- <-].
      destruct (IH _ _ _ _ _ Hnd' E) as (k & hd & Hg & Hm & Hi & -> & -> & ->).
      assert (Hk : k <> k0).
      { intros ->. apply Hnot. eapply dict_get_Some_key; eauto. }
      apply Nat.eqb_neq in Hk. exists k, hd. rewrite Hk. auto 10.
Qed.

(** No hand is matched by a box when every hand is already matched or
    overlaps too little. *)
Lemma match_hand_None hand_box :
  forall hs m pend,
    match_hand rs pizza_boxes frame_num hand_box hs m pend = None <->
    (forall k hd, In (k, hd) hs ->
                  set_mem k m = true \/ iou_matches hand_box hd = false).
Proof.
  induction hs as [| [k0 h0] hs IH]; intros m pend; cbn.
  - split; [intros _ ? ? [] | reflexivity].
  - destruct (set_mem k0 m) eqn:Em; cbn.
    + destruct (match_hand rs pizza_boxes frame_num hand_box hs m pend)
        as [[[r' m1] p1] |] eqn:E.
      * split; [discriminate |]. intros H.
        pose proof (proj2 (IH m pend)
                      (fun k hd Hin => H k hd (or_intror Hin))) as Hn.
        rewrite E in Hn. discriminate.
      * split; [| reflexivity]. intros _ k hd [[= <- <-] | Hin]; [now left |].
        apply (proj1 (IH m pend) E k hd Hin).
    + destruct (iou_matches hand_box h0) eqn:Ei; cbn.
      * rewrite transition_eq. split; [discriminate |]. intros H.
        destruct (H k0 h0 (or_introl eq_refl)); congruence.
      * destruct (match_hand rs pizza_boxes frame_num hand_box hs m pend)
          as [[[r' m1] p1] |] eqn:E.
        -- split; [discriminate |]. intros H.
           pose proof (proj2 (IH m pend)
                         (fun k hd Hin => H k hd (or_intror Hin))) as Hn.
           rewrite E in Hn. discriminate.
        -- split; [| reflexivity]. intros _ k hd [[= <- <-] | Hin]; [now right |].
           apply (proj1 (IH m pend) E k hd Hin).
Qed.

(** What the outer loop does to each hand: hands matched before the loop
    or left unmatched by it are untouched, together with their pending
    checks; a hand matched by the loop went through [transition] once,
    with one of the frame's boxes. *)
Lemma match_all_spec :
  forall hand_boxes hs m pend hs' m' pend' new_hands,
    NoDup (dict_keys hs) ->
    match_all rs pizza_boxes frame_num hand_boxes hs m pend
    = (hs', m', pend', new_hands) ->
    dict_keys hs' = dict_keys hs
    /\ incl m m'
    /\ incl new_hands hand_boxes
    /\ (forall k, In k m' -> In k m \/ In k (dict_keys hs))
    /\ (forall k, In k m \/ ~ In k m' ->
                  dict_get k hs' = dict_get k hs
                  /\ dict_get k pend' = dict_get k pend)
    /\ (forall k, In k m' -> ~ In k m ->
          exists hand_box hd,
            In hand_box hand_boxes
            /\ dict_get k hs = Some hd
            /\ iou_matches hand_box hd = true
            /\ dict_get k hs' = Some (hand_after rs pizza_boxes hand_box hd)
            /\ dict_get k pend'
               = match opened_for rs pizza_boxes hand_box hd with
                 | Some pb => Some (fresh_pending frame_num pb hd)
                 | None => dict_get k pend
                 end)
    /\ (NoDup (dict_keys pend) -> NoDup (dict_keys pend')).
Proof.
  induction hand_boxes as [| hb more IH];
    intros hs m pend hs' m' pend' new_hands Hnd; cbn.
  - intros [= <- <- <- <-]. repeat split; auto using incl_refl; try tauto.
  - destruct (match_hand rs pizza_boxes frame_num hb hs m pend)
      as [[[hs1 m1] p1] |] eqn:E.
    + intros Hall.
      destruct (match_hand_Some hb _ _ _ _ _ _ Hnd E)
        as (k0 & hd0 & Hg0 & Hm0 & Hi0 & -> & -> & ->).
      apply set_mem_not_In in Hm0.
      assert (Hnd1 : NoDup (dict_keys
                 (dict_update k0 (fun _ => hand_after rs pizza_boxes hb hd0) hs)))
        by now rewrite dict_keys_update.
      destruct (IH _ _ _ _ _ _ _ Hnd1 Hall)
        as (Hkeys & Hincl & Hnew & Hdom & Hsame & Hmatched & Hndp).
      rewrite dict_keys_update in Hkeys.
      assert (Hk0 : In k0 m') by (apply Hincl; now left).
      assert (Hother : forall k, k <> k0 ->
                dict_get k (dict_update k0
                   (fun _ => hand_after rs pizza_boxes hb hd0) hs) = dict_get k hs
                /\ dict_get k (pending_after_match rs pizza_boxes frame_num
                                 k0 hb hd0 pend) = dict_get k pend).
      { intros k Hk. apply Nat.eqb_neq in Hk. rewrite dict_get_update, Hk.
        split; [reflexivity |]. unfold pending_after_match.
        destruct (opened_for rs pizza_boxes hb hd0); [| reflexivity].
        now rewrite dict_get_set, Hk. }
      split; [assumption |].
      split; [intros x Hx; apply Hincl; now right |].
      split; [intros x Hx; right; now apply Hnew |].
      split.
      { intros k Hk. destruct (Hdom k Hk) as [[<- | H] | H].
        - right. eapply dict_get_Some_key; eauto.
        - now left.
        - right. now rewrite dict_keys_update in H. }
      split.
      { intros k Hk.
        assert (Hne : k <> k0) by (intros ->; tauto).
        destruct (Hsame k) as [H1 H2]; [destruct Hk; [left; now right | now right] |].
        destruct (Hother k Hne) as [H3 H4]. split; congruence. }
      split.
      { intros k Hk Hnk. destruct (Nat.eq_dec k k0) as [-> | Hne].
        - destruct (Hsame k0) as [H1 H2]; [left; now left |].
          exists hb, hd0. split; [now left |]. split; [assumption |].
          split; [assumption |]. split.
          + rewrite H1, dict_get_update, Nat.eqb_refl, Hg0. reflexivity.
          + rewrite H2. unfold pending_after_match.
            destruct (opened_for rs pizza_boxes hb hd0); [| reflexivity].
            now rewrite dict_get_set, Nat.eqb_refl.
        - destruct (Hmatched k Hk) as (b & hd & Hb & Hg & Hi & Hh & Hp).
          { intros [E' | H]; [congruence | contradiction]. }
          destruct (Hother k Hne) as [H3 H4].
          exists b, hd. split; [now right |]. split; [congruence |].
          split; [assumption |]. split; [assumption |].
          rewrite Hp. destruct (opened_for rs pizza_boxes b hd); congruence. }
      intros Hp. apply Hndp. unfold pending_after_match.
      destruct (opened_for rs pizza_boxes hb hd0); [| assumption].
      now apply NoDup_keys_set.
    + destruct (match_all rs pizza_boxes frame_num more hs m pend)
        as [[[hs1 m1] p1] nh1] eqn:Hall.
      intros [= <- <- <- <-].
      destruct (IH _ _ _ _ _ _ _ Hnd Hall)
        as (Hkeys & Hincl & Hnew & Hdom & Hsame & Hmatched & Hndp).
      repeat (split; [assumption |]).
      split; [intros x [<- | Hx]; [now left | right; now apply Hnew] |].
      split; [assumption |]. split; [assumption |]. split; [| assumption].
      intros k Hk Hnk. destruct (Hmatched k Hk Hnk) as (b & hd & Hb & H).
      exists b, hd. split; [now right | assumption].
Qed.

End Matching.

(** ** Creation, arbitration and eviction *)

Section Phases.

Lemma dict_get_map_values {V : Type} (f : nat -> V -> V) k (d : dict V) :
  dict_get k (map (fun kv => (fst kv, f (fst kv) (snd kv))) d)
  = option_map (f k) (dict_get k d).
Proof.
  induction d as [| [k0 v0] d IH]; cbn; [reflexivity |].
  destruct (Nat.eqb_spec k k0) as [-> | Hne]; [reflexivity | exact IH].
Qed.

Lemma dict_keys_map_values {V : Type} (f : nat -> V -> V) (d : dict V) :
  dict_keys (map (fun kv => (fst kv, f (fst kv) (snd kv))) d) = dict_keys d.
Proof. rewrite map_map. reflexivity. Qed.

(** New hands get the consecutive identifiers from [next_id] on. *)
Lemma add_new_hands_spec (rs : list Roi) :
  forall new_hands hs nid hs' nid' created,
    (forall k, In k (dict_keys hs) -> (k < nid)%nat) ->
    add_new_hands rs new_hands hs nid = (hs', nid', created) ->
    (nid <= nid')%nat
    /\ created = seq nid (nid' - nid)
    /\ dict_keys hs' = dict_keys hs ++ created
    /\ (forall k, (k < nid)%nat -> dict_get k hs' = dict_get k hs)
    /\ (forall k, In k created ->
          exists hand_box roi,
            In hand_box new_hands
            /\ find_roi rs hand_box = Some roi
            /\ dict_get k hs' = Some (mkHand hand_box in_roi 0 (roi_name roi))).
Proof.
  induction new_hands as [| hb more IH]; intros hs nid hs' nid' created Hlt; cbn.
  - intros [= <- <- <-]. rewrite Nat.sub_diag, app_nil_r. cbn.
    repeat split; auto. intros k [].
  - destruct (find_roi rs hb) as [roi |] eqn:Er.
    + destruct (add_new_hands rs more
                  (dict_set nid (mkHand hb in_roi 0 (roi_name roi)) hs) (S nid))
        as [[hs1 nid1] created1] eqn:E.
      intros [= <- <- <-].
      assert (Habs : ~ In nid (dict_keys hs))
        by (intros H; apply Hlt in H; lia).
      assert (Hlt1 : forall k,
                 In k (dict_keys (dict_set nid (mkHand hb in_roi 0 (roi_name roi)) hs)) ->
                 (k < S nid)%nat).
      { intros k. rewrite dict_keys_set_absent by assumption.
        rewrite in_app_iff. intros [H | [<- | []]]; [apply Hlt in H |]; lia. }
      destruct (IH _ _ _ _ _ Hlt1 E) as (Hle & Hc & Hk & Hg & Hn).
      split; [lia |]. split.
      { rewrite Hc. replace (nid1 - nid)%nat with (S (nid1 - S nid)) by lia.
        reflexivity. }
      split.
      { rewrite Hk, dict_keys_set_absent by assumption.
        now rewrite <- app_assoc. }
      split.
      { intros k Hk'. rewrite Hg by lia. rewrite dict_get_set.
        destruct (Nat.eqb_spec k nid); [lia | reflexivity]. }
      intros k [<- | Hin].
      * exists hb, roi. split; [now left |]. split; [assumption |].
        rewrite Hg by lia. now rewrite dict_get_set, Nat.eqb_refl.
      * destruct (Hn k Hin) as (b & r & Hb & Hr & Hgk).
        exists b, r. split; [now right | auto].
    + intros E. destruct (IH _ _ _ _ _ Hlt E) as (Hle & Hc & Hk & Hg & Hn).
      repeat (split; [assumption |]).
      intros k Hin. destruct (Hn k Hin) as (b & r & Hb & Hr & Hgk).
      exists b, r. split; [now right | auto].
Qed.


Lemma dict_get_mark_done k k0 hs :
  dict_get k (mark_done k0 hs)
  = if Nat.eqb k k0 then option_map set_done (dict_get k hs) else dict_get k hs.
Proof. unfold mark_done. rewrite guarded_update. apply dict_get_update. Qed.

Lemma dict_keys_mark_done k0 hs : dict_keys (mark_done k0 hs) = dict_keys hs.
Proof. unfold mark_done. rewrite guarded_update. apply dict_keys_update. Qed.

(** The arbitration loop as three list comprehensions. *)
Lemma check_pending_spec (frame_num : Z) (scoopers : list Box) :
  forall items hs items' hs' new_violations resolved,
    check_pending frame_num scoopers items hs
    = (items', hs', new_violations, resolved) ->
    items' = map (fun kp => (fst kp, tick (snd kp))) items
    /\ resolved = dict_keys (filter (fun kp => resolves scoopers (snd kp)) items)
    /\ new_violations
       = map (fun kp => mkViolation frame_num (fst kp) (p_roi_name (snd kp)))
           (filter (fun kp => commits scoopers (snd kp)) items)
    /\ dict_keys hs' = dict_keys hs
    /\ (forall k, dict_get k hs'
                  = if set_mem k resolved
                    then option_map set_done (dict_get k hs)
                    else dict_get k hs).
Proof.
  induction items as [| [k0 p0] items IH];
    intros hs items' hs' nv resolved;
    cbn [check_pending tick delay_counter pizza_box p_roi_name filter map fst snd].
  - intros [= <- <- <- <-]. auto.
  - unfold resolves, commits, evidence;
      cbn [tick delay_counter pizza_box p_roi_name filter map fst snd].
    destruct (is_scooper_at_pizza scoopers (pizza_box p0)) eqn:Es;
      cbn [negb andb orb].
    + destruct (check_pending frame_num scoopers items (mark_done k0 hs))
        as [[[i1 h1] v1] r1] eqn:E.
      intros [= <- <- <- <-].
      destruct (IH _ _ _ _ _ E) as (-> & -> & -> & Hk & Hg).
      rewrite dict_keys_mark_done in Hk.
      cbn [filter map fst snd].
      repeat (split; [first [reflexivity | assumption] |]).
      intros k. rewrite Hg, dict_get_mark_done. cbn.
      destruct (Nat.eqb k k0); cbn; [| reflexivity].
      destruct (set_mem k _); [| reflexivity].
      now destruct (dict_get k hs).
    + destruct (VIOLATION_DELAY_FRAMES <=? S (delay_counter p0))%nat eqn:Ed.
      * destruct (check_pending frame_num scoopers items (mark_done k0 hs))
          as [[[i1 h1] v1] r1] eqn:E.
        intros [= <- <- <- <-].
        destruct (IH _ _ _ _ _ E) as (-> & -> & -> & Hk & Hg).
        rewrite dict_keys_mark_done in Hk.
        cbn [filter map fst snd].
        repeat (split; [first [reflexivity | assumption] |]).
        intros k. rewrite Hg, dict_get_mark_done. cbn.
        destruct (Nat.eqb k k0); cbn; [| reflexivity].
        destruct (set_mem k _); [| reflexivity].
        now destruct (dict_get k hs).
      * destruct (check_pending frame_num scoopers items hs)
          as [[[i1 h1] v1] r1] eqn:E.
        intros [= <- <- <- <-].
        destruct (IH _ _ _ _ _ E) as (-> & -> & -> & Hk & Hg).
        repeat (split; [first [reflexivity | assumption] |]).
        exact Hg.
Qed.

(** The eviction loop as a map and a filter. *)
Lemma age_hands_spec (matched_hands : list nat) :
  forall items pend hs lost p,
    age_hands matched_hands items pend = (hs, lost, p) ->
    hs = map (fun kh => (fst kh,
                         if set_mem (fst kh) matched_hands then snd kh
                         else age (snd kh))) items
    /\ lost = dict_keys (filter (expired matched_hands) items)
    /\ p = dict_del_all lost pend.
Proof.
  induction items as [| [k0 h0] items IH]; intros pend hs lost p;
    cbn [age_hands age state frames_since_update].
  - intros [= <- <- <-]. auto.
  - unfold expired; cbn [filter map fst snd age state frames_since_update].
    destruct (set_mem k0 matched_hands) eqn:Em; cbn [negb andb].
    + destruct (age_hands matched_hands items pend) as [[h1 l1] p1] eqn:E.
      intros [= <- <- <-]. destruct (IH _ _ _ _ E) as (-> & -> & ->). auto.
    + destruct (timeout_of (state h0) <? S (frames_since_update h0))%nat eqn:Et.
      * cbv zeta. rewrite guarded_del.
        destruct (age_hands matched_hands items (dict_del k0 pend))
          as [[h1 l1] p1] eqn:E.
        intros [= <- <- <-]. destruct (IH _ _ _ _ E) as (-> & -> & ->). auto.
      * destruct (age_hands matched_hands items pend) as [[h1 l1] p1] eqn:E.
        intros [= <- <- <-]. destruct (IH _ _ _ _ E) as (-> & -> & ->). auto.
Qed.

Lemma In_filter_keys {V : Type} (f : nat * V -> bool) k (d : dict V) :
  In k (dict_keys (filter f d)) <-> exists v, In (k, v) d /\ f (k, v) = true.
Proof.
  rewrite in_map_iff. split.
  - intros ([k' v] & <- & H). apply filter_In in H. now exists v.
  - intros (v & H1 & H2). exists (k, v). split; [reflexivity |].
    apply filter_In. auto.
Qed.

End Phases.

(** ** One call of [update] *)

Section Update.

Lemma set_mem_filter_keys {V : Type} (f : nat * V -> bool) k (d : dict V) :
  NoDup (dict_keys d) ->
  set_mem k (dict_keys (filter f d))
  = match dict_get k d with Some v => f (k, v) | None => false end.
Proof.
  intros Hnd. destruct (dict_get k d) as [v |] eqn:Eg.
  - destruct (f (k, v)) eqn:Ef.
    + apply set_mem_In, In_filter_keys. exists v.
      split; [now apply dict_get_In | assumption].
    + apply set_mem_not_In. rewrite In_filter_keys. intros (v' & Hin & Hf).
      apply (In_dict_get _ _ _ Hnd) in Hin. congruence.
  - apply set_mem_not_In. rewrite In_filter_keys. intros (v' & Hin & Hf).
    apply dict_get_None in Eg. apply Eg.
    change k with (fst (k, v')). now apply in_map.
Qed.

Lemma update_full_phases t hand_boxes scooper_boxes pizza_boxes frame_num :
  exists hs1 m pend1 new_hands hs2 nid created pend2 hs3 nv resolved hs4 lost pend4,
    match_phase t hand_boxes pizza_boxes frame_num = (hs1, m, pend1, new_hands)
    /\ add_new_hands (rois t) new_hands hs1 (next_id t) = (hs2, nid, created)
    /\ check_pending frame_num
         (all_recent_scoopers (push_scoopers (scooper_history t) scooper_boxes))
         pend1 hs2 = (pend2, hs3, nv, resolved)
    /\ age_hands m hs3 (dict_del_all resolved pend2) = (hs4, lost, pend4)
    /\ update_full t hand_boxes scooper_boxes pizza_boxes frame_num
       = (mkTracker nid (dict_del_all lost hs4) (violations t ++ nv) (rois t)
            (push_scoopers (scooper_history t) scooper_boxes) pend4,
          nv, created).
Proof.
  unfold update_full.
  destruct (match_phase t hand_boxes pizza_boxes frame_num)
    as [[[hs1 m] pend1] nh] eqn:E1.
  destruct (add_new_hands (rois t) nh hs1 (next_id t)) as [[hs2 nid] created] eqn:E2.
  destruct (check_pending frame_num _ pend1 hs2) as [[[pend2 hs3] nv] resolved] eqn:E3.
  destruct (age_hands m hs3 (dict_del_all resolved pend2)) as [[hs4 lost] pend4] eqn:E4.
  exists hs1, m, pend1, nh, hs2, nid, created, pend2, hs3, nv, resolved, hs4, lost, pend4.
  repeat split; assumption.
Qed.

(** The state after [update], hand by hand, from what matching and
    creation left ([hs2], [pend1], [m]). *)
Lemma update_get t f hs1 m pend1 new_hands hs2 nid created :
  NoDup (dict_keys hs2) ->
  NoDup (dict_keys pend1) ->
  match_phase t (f_hands f) (f_pizzas f) (f_num f) = (hs1, m, pend1, new_hands) ->
  add_new_hands (rois t) new_hands hs1 (next_id t) = (hs2, nid, created) ->
  forall k,
    let r := match dict_get k pend1 with
             | Some p => resolves (scoopers_seen t f) p
             | None => false
             end in
    let h3 := if r then option_map set_done (dict_get k hs2) else dict_get k hs2 in
    let gone := match h3 with Some h => expired m (k, h) | None => false end in
    dict_get k (hands (step t f))
    = (if gone then None
       else option_map (fun h => if set_mem k m then h else age h) h3)
    /\ dict_get k (pending_violations (step t f))
       = (if gone then None
          else if r then None else option_map tick (dict_get k pend1)).
Proof.
  intros Hnd2 Hndp E1 E2 k. unfold step, update.
  destruct (update_full_phases t (f_hands f) (f_scoopers f) (f_pizzas f) (f_num f))
    as (hs1' & m' & pend1' & nh' & hs2' & nid' & created' & pend2 & hs3 & nv
        & resolved & hs4 & lost & pend4 & P1 & P2 & P3 & P4 & ->).
  rewrite E1 in P1. injection P1 as <- <- <- <-.
  rewrite E2 in P2. injection P2 as <- <- <-.
  destruct (check_pending_spec _ _ _ _ _ _ _ _ P3) as (-> & -> & _ & Hk3 & Hg3).
  destruct (age_hands_spec _ _ _ _ _ _ P4) as (-> & -> & ->).
  cbn [fst hands pending_violations].
  assert (Hr : set_mem k (dict_keys
                 (filter (fun kp => resolves (scoopers_seen t f) (snd kp)) pend1))
               = match dict_get k pend1 with
                 | Some p => resolves (scoopers_seen t f) p
                 | None => false
                 end).
  { rewrite set_mem_filter_keys by assumption. reflexivity. }
  fold (scoopers_seen t f) in Hg3. specialize (Hg3 k). rewrite Hr in Hg3.
  assert (Hnd3 : NoDup (dict_keys hs3)) by now rewrite Hk3.
  assert (Hl : set_mem k (dict_keys (filter (expired m) hs3))
               = match dict_get k hs3 with
                 | Some h => expired m (k, h)
                 | None => false
                 end)
    by now apply set_mem_filter_keys.
  fold (scoopers_seen t f).
  rewrite !dict_get_del_all, Hl, Hr.
  rewrite (dict_get_map_values (fun k h => if set_mem k m then h else age h)).
  rewrite (dict_get_map_values (fun _ p => tick p)).
  rewrite Hg3. cbv zeta.
  destruct (match (if match dict_get k pend1 with
                      | Some p => resolves (scoopers_seen t f) p
                      | None => false
                      end
                   then option_map set_done (dict_get k hs2)
                   else dict_get k hs2)
            with Some h => expired m (k, h) | None => false end);
    [split; reflexivity |].
  split; [reflexivity |].
  destruct (dict_get k pend1) as [p |]; [| reflexivity].
  destruct (resolves (scoopers_seen t f) p); reflexivity.
Qed.

Lemma NoDup_app_seq (l : list nat) n c :
  NoDup l -> (forall k, In k l -> (k < n)%nat) -> NoDup (l ++ seq n c).
Proof.
  intros Hnd Hlt. apply NoDup_app; [assumption | apply seq_NoDup |].
  intros k Hk Hs. apply in_seq in Hs. apply Hlt in Hk. lia.
Qed.

(** What matching and creation guarantee on a reachable state. *)
Lemma phase_facts t f :
  inv t ->
  let m := matched_in t f in
  let pend1 := pending_at_arbitration t f in
  let hs2 := hands_at_arbitration t f in
  (forall k, In k m -> In k (dict_keys (hands t)))
  /\ (forall k, ~ In k m -> dict_get k pend1 = dict_get k (pending_violations t))
  /\ (forall k, In k m ->
        exists hand_box hd,
          In hand_box (f_hands f)
          /\ dict_get k (hands t) = Some hd
          /\ iou_matches hand_box hd = true
          /\ dict_get k hs2 = Some (hand_after (rois t) (f_pizzas f) hand_box hd)
          /\ dict_get k pend1
             = match opened_for (rois t) (f_pizzas f) hand_box hd with
               | Some pb => Some (fresh_pending (f_num f) pb hd)
               | None => dict_get k (pending_violations t)
               end)
  /\ NoDup (dict_keys pend1)
  /\ (next_id t <= next_id (step t f))%nat
  /\ created_in t f = seq (next_id t) (next_id (step t f) - next_id t)
  /\ dict_keys hs2 = dict_keys (hands t) ++ created_in t f
  /\ (forall k, (k < next_id t)%nat -> ~ In k m ->
                dict_get k hs2 = dict_get k (hands t))
  /\ (forall k, In k (created_in t f) ->
        exists hand_box roi,
          In hand_box (f_hands f)
          /\ find_roi (rois t) hand_box = Some roi
          /\ dict_get k hs2 = Some (mkHand hand_box in_roi 0 (roi_name roi)))
  /\ NoDup (dict_keys hs2).
Proof.
  intros [Hndh Hndp Hfresh Hrel Hwait].
  unfold matched_in, matched_hands_of, pending_at_arbitration,
    hands_at_arbitration, created_in, created_ids, step, update.
  destruct (update_full_phases t (f_hands f) (f_scoopers f) (f_pizzas f) (f_num f))
    as (hs1 & m & pend1 & nh & hs2 & nid & created & pend2 & hs3 & nv
        & resolved & hs4 & lost & pend4 & P1 & P2 & P3 & P4 & ->).
  rewrite P1, P2. cbn [fst snd next_id].
  unfold match_phase in P1.
  destruct (match_all_spec _ _ _ _ _ _ _ _ _ _ _ Hndh P1)
    as (Hk1 & _ & Hnew & Hdom & Hsame & Hmatched & Hndp1).
  assert (Hlt1 : forall k, In k (dict_keys hs1) -> (k < next_id t)%nat)
    by (rewrite Hk1; exact Hfresh).
  destruct (add_new_hands_spec _ _ _ _ _ _ _ Hlt1 P2)
    as (Hle & Hc & Hk2 & Hg2 & Hn2).
  split; [intros k Hk; destruct (Hdom k Hk) as [[] | H]; exact H |].
  split; [intros k Hk; apply Hsame; now right |].
  split.
  { intros k Hk. destruct (Hmatched k Hk) as (b & hd & Hb & Hg & Hi & Hh & Hp);
      [intros [] |].
    exists b, hd. repeat (split; [assumption |]). split; [| assumption].
    rewrite Hg2; [assumption |]. apply Hfresh. eapply dict_get_Some_key; eauto. }
  split; [now apply Hndp1 |].
  split; [assumption |]. split; [assumption |].
  split; [now rewrite Hk2, Hk1 |].
  split.
  { intros k Hk Hnm. rewrite Hg2 by assumption. apply Hsame. now right. }
  split.
  { intros k Hk. destruct (Hn2 k Hk) as (b & r & Hb & Hr & Hg).
    exists b, r. split; [now apply Hnew | auto]. }
  rewrite Hk2, Hc. apply NoDup_app_seq; [now rewrite Hk1 | assumption].
Qed.

Lemma step_get t f :
  inv t ->
  forall k,
    let m := matched_in t f in
    let pend1 := pending_at_arbitration t f in
    let hs2 := hands_at_arbitration t f in
    let r := match dict_get k pend1 with
             | Some p => resolves (scoopers_seen t f) p
             | None => false
             end in
    let h3 := if r then option_map set_done (dict_get k hs2) else dict_get k hs2 in
    let gone := match h3 with Some h => expired m (k, h) | None => false end in
    dict_get k (hands (step t f))
    = (if gone then None
       else option_map (fun h => if set_mem k m then h else age h) h3)
    /\ dict_get k (pending_violations (step t f))
       = (if gone then None
          else if r then None else option_map tick (dict_get k pend1)).
Proof.
  intros Hinv k.
  destruct (phase_facts t f Hinv) as (_ & _ & _ & Hndp & _ & _ & _ & _ & _ & Hnd2).
  revert Hndp Hnd2.
  unfold matched_in, matched_hands_of, pending_at_arbitration, hands_at_arbitration.
  destruct (match_phase t (f_hands f) (f_pizzas f) (f_num f))
    as [[[hs1 m] pend1] nh] eqn:E1.
  destruct (add_new_hands (rois t) nh hs1 (next_id t)) as [[hs2 nid] created] eqn:E2.
  intros Hndp Hnd2. exact (update_get t f _ _ _ _ _ _ _ Hnd2 Hndp E1 E2 k).
Qed.

Lemma inv_pending_key t k p :
  inv t -> dict_get k (pending_violations t) = Some p ->
  exists hd, dict_get k (hands t) = Some hd
             /\ (frames_since_update hd < VIOLATION_DELAY_FRAMES)%nat
             /\ state hd <> done.
Proof.
  intros Hinv Hp. destruct (inv_pending t Hinv k p Hp) as (hd & Hg & H1 & H2 & H3).
  exists hd. repeat split; [assumption | lia | assumption].
Qed.

Lemma inv_no_hand_no_pending t k :
  inv t -> dict_get k (hands t) = None ->
  dict_get k (pending_violations t) = None.
Proof.
  intros Hinv Hn. destruct (dict_get k (pending_violations t)) as [p |] eqn:E;
    [| reflexivity].
  destruct (inv_pending_key t k p Hinv E) as (hd & Hg & _). congruence.
Qed.

Lemma inv_get_fresh t k hd :
  inv t -> dict_get k (hands t) = Some hd -> (k < next_id t)%nat.
Proof.
  intros Hinv Hg. apply (inv_fresh t Hinv). eapply dict_get_Some_key; eauto.
Qed.

(** A hand that no box matched: arbitration may resolve its pending
    check, then it ages and is evicted if its counter passes the timeout
    of the state it is left in. *)
Lemma step_unmatched t f k hd :
  inv t ->
  dict_get k (hands t) = Some hd ->
  ~ In k (matched_in t f) ->
  let a := arbitrate (scoopers_seen t f) hd (dict_get k (pending_violations t)) in
  if (timeout_of (state (fst a)) <? S (frames_since_update (fst a)))%nat
  then dict_get k (hands (step t f)) = None
       /\ dict_get k (pending_violations (step t f)) = None
  else dict_get k (hands (step t f)) = Some (age (fst a))
       /\ dict_get k (pending_violations (step t f)) = snd a.
Proof.
  intros Hinv Hg Hnm.
  destruct (phase_facts t f Hinv) as (_ & Hp1 & _ & _ & _ & _ & _ & Hh2 & _).
  destruct (step_get t f Hinv k) as [Hh Hp]. cbv zeta in Hh, Hp.
  rewrite (Hp1 k Hnm) in Hh, Hp.
  rewrite (Hh2 k (inv_get_fresh t k hd Hinv Hg) Hnm), Hg in Hh, Hp.
  unfold expired in Hh, Hp. cbn [fst snd] in Hh, Hp.
  apply set_mem_not_In in Hnm. rewrite Hnm in Hh, Hp.
  cbv zeta. unfold arbitrate.
  destruct (dict_get k (pending_violations t)) as [p |];
    [destruct (resolves (scoopers_seen t f) p) |];
    cbn [fst snd option_map negb andb state frames_since_update set_done] in *;
    match goal with
    | |- context [(?a <? ?b)%nat] => destruct (a <? b)%nat
    end; auto.
Qed.

(** A hand matched by a box of the frame. *)
Lemma step_matched t f k :
  inv t ->
  In k (matched_in t f) ->
  exists hand_box hd,
    In hand_box (f_hands f)
    /\ dict_get k (hands t) = Some hd
    /\ iou_matches hand_box hd = true
    /\ let p1 := match opened_for (rois t) (f_pizzas f) hand_box hd with
                 | Some pb => Some (fresh_pending (f_num f) pb hd)
                 | None => dict_get k (pending_violations t)
                 end in
       let a := arbitrate (scoopers_seen t f)
                  (hand_after (rois t) (f_pizzas f) hand_box hd) p1 in
       dict_get k (pending_at_arbitration t f) = p1
       /\ dict_get k (hands (step t f)) = Some (fst a)
       /\ dict_get k (pending_violations (step t f)) = snd a.
Proof.
  intros Hinv Hm.
  destruct (phase_facts t f Hinv) as (_ & _ & Hmt & _).
  destruct (Hmt k Hm) as (b & hd & Hb & Hg & Hi & Hh2 & Hp1).
  exists b, hd. repeat (split; [assumption |]).
  cbv zeta. repeat (split; [assumption |]).
  destruct (step_get t f Hinv k) as [Hh Hp]. cbv zeta in Hh, Hp.
  rewrite Hp1, Hh2 in Hh, Hp.
  unfold expired in Hh, Hp. cbn [fst snd] in Hh, Hp.
  apply set_mem_In in Hm. rewrite Hm in Hh, Hp.
  cbv zeta. unfold arbitrate.
  destruct (match opened_for (rois t) (f_pizzas f) b hd with
            | Some pb => Some (fresh_pending (f_num f) pb hd)
            | None => dict_get k (pending_violations t)
            end) as [p |];
    [destruct (resolves (scoopers_seen t f) p) |];
    cbn [fst snd option_map negb andb] in *; auto.
Qed.

(** A hand created in this call ends the call aged once. *)
Lemma step_created t f k :
  inv t ->
  In k (created_in t f) ->
  exists hand_box roi,
    In hand_box (f_hands f)
    /\ find_roi (rois t) hand_box = Some roi
    /\ dict_get k (hands (step t f)) = Some (mkHand hand_box in_roi 1 (roi_name roi))
    /\ dict_get k (pending_violations (step t f)) = None.
Proof.
  intros Hinv Hc.
  destruct (phase_facts t f Hinv) as (Hdom & Hp1 & _ & _ & _ & Hcr & _ & _ & Hnew & _).
  assert (Hge : (next_id t <= k)%nat) by (rewrite Hcr in Hc; apply in_seq in Hc; lia).
  assert (Hnm : ~ In k (matched_in t f)).
  { intros H. apply Hdom, (inv_fresh t Hinv) in H. lia. }
  assert (Hnone : dict_get k (hands t) = None).
  { apply dict_get_None. intros H. apply (inv_fresh t Hinv) in H. lia. }
  destruct (Hnew k Hc) as (b & roi & Hb & Hr & Hg2).
  exists b, roi. repeat (split; [assumption |]).
  destruct (step_get t f Hinv k) as [Hh Hp]. cbv zeta in Hh, Hp.
  rewrite (Hp1 k Hnm), (inv_no_hand_no_pending t k Hinv Hnone), Hg2 in Hh, Hp.
  unfold expired in Hh, Hp. cbn [fst snd] in Hh, Hp.
  apply set_mem_not_In in Hnm. rewrite Hnm in Hh, Hp.
  cbn in Hh, Hp. auto.
Qed.

(** An identifier that is neither live nor created stays absent. *)
Lemma step_absent t f k :
  inv t ->
  dict_get k (hands t) = None ->
  ~ In k (created_in t f) ->
  dict_get k (hands (step t f)) = None
  /\ dict_get k (pending_violations (step t f)) = None.
Proof.
  intros Hinv Hnone Hnc.
  destruct (phase_facts t f Hinv) as (Hdom & Hp1 & _ & _ & _ & _ & Hk2 & _).
  assert (Hnm : ~ In k (matched_in t f)).
  { intros H. apply Hdom in H. apply dict_get_None in Hnone. contradiction. }
  assert (Hg2 : dict_get k (hands_at_arbitration t f) = None).
  { apply dict_get_None. rewrite Hk2, in_app_iff.
    apply dict_get_None in Hnone. tauto. }
  destruct (step_get t f Hinv k) as [Hh Hp]. cbv zeta in Hh, Hp.
  rewrite (Hp1 k Hnm), (inv_no_hand_no_pending t k Hinv Hnone), Hg2 in Hh, Hp.
  cbn in Hh, Hp. auto.
Qed.

End Update.

(** ** The invariant of reachable states *)

Section Invariant.

Lemma inv_init rs : inv (init rs).
Proof.
  constructor; cbn.
  - constructor.
  - constructor.
  - intros k [].
  - intros k p H. discriminate.
  - intros k hd H. discriminate.
Qed.

Lemma step_nodup t f :
  inv t ->
  NoDup (dict_keys (hands (step t f)))
  /\ NoDup (dict_keys (pending_violations (step t f))).
Proof.
  intros Hinv.
  destruct (phase_facts t f Hinv) as (_ & _ & _ & Hndp & _ & _ & _ & _ & _ & Hnd2).
  revert Hndp Hnd2.
  unfold pending_at_arbitration, hands_at_arbitration, step, update.
  destruct (update_full_phases t (f_hands f) (f_scoopers f) (f_pizzas f) (f_num f))
    as (hs1 & m & pend1 & nh & hs2 & nid & created & pend2 & hs3 & nv
        & resolved & hs4 & lost & pend4 & P1 & P2 & P3 & P4 & ->).
  rewrite P1, P2. intros Hndp Hnd2.
  destruct (check_pending_spec _ _ _ _ _ _ _ _ P3) as (-> & _ & _ & Hk3 & _).
  destruct (age_hands_spec _ _ _ _ _ _ P4) as (-> & _ & ->).
  cbn [fst hands pending_violations]. split.
  - apply NoDup_keys_del_all.
    rewrite (dict_keys_map_values (fun k h => if set_mem k m then h else age h)).
    now rewrite Hk3.
  - do 2 apply NoDup_keys_del_all.
    now rewrite (dict_keys_map_values (fun _ p => tick p)).
Qed.

Lemma step_cases t f k :
  inv t ->
  (exists hd, dict_get k (hands t) = Some hd /\ In k (matched_in t f))
  \/ (exists hd, dict_get k (hands t) = Some hd /\ ~ In k (matched_in t f))
  \/ (dict_get k (hands t) = None /\ In k (created_in t f))
  \/ (dict_get k (hands t) = None /\ ~ In k (created_in t f)).
Proof.
  intros Hinv. destruct (dict_get k (hands t)) as [hd |].
  - destruct (in_dec Nat.eq_dec k (matched_in t f)); eauto.
  - destruct (in_dec Nat.eq_dec k (created_in t f)); auto.
Qed.

Lemma resolves_false_counter scoopers p :
  resolves scoopers p = false ->
  (S (delay_counter p) < VIOLATION_DELAY_FRAMES)%nat.
Proof.
  unfold resolves. intros H. apply orb_false_elim in H as [_ H].
  apply Nat.leb_gt in H. exact H.
Qed.

Theorem inv_step t f : inv t -> inv (step t f).
Proof.
  intros Hinv. destruct (step_nodup t f Hinv) as [Hn1 Hn2].
  pose proof (phase_facts t f Hinv)
    as (_ & _ & _ & _ & Hle & Hcr & _).
  constructor; [assumption | assumption | | |].
  - intros k Hk. apply In_keys_get in Hk as (hd' & Hg').
    destruct (step_cases t f k Hinv)
      as [(hd & Hg & _) | [(hd & Hg & _) | [(Hg & Hc) | (Hg & Hc)]]].
    + pose proof (inv_get_fresh t k hd Hinv Hg). lia.
    + pose proof (inv_get_fresh t k hd Hinv Hg). lia.
    + rewrite Hcr in Hc. apply in_seq in Hc. lia.
    + destruct (step_absent t f k Hinv Hg Hc). congruence.
  - intros k p Hp.
    destruct (step_cases t f k Hinv)
      as [(hd & Hg & Hm) | [(hd & Hg & Hm) | [(Hg & Hc) | (Hg & Hc)]]].
    + destruct (step_matched t f k Hinv Hm)
        as (b & hd0 & Hb & Hg0 & Hi & _ & Hh & Hq). cbv zeta in Hh, Hq.
      rewrite Hh. rewrite Hp in Hq. unfold arbitrate in *.
      destruct (opened_for (rois t) (f_pizzas f) b hd0) as [pb |] eqn:Eo.
      * destruct (resolves (scoopers_seen t f) (fresh_pending (f_num f) pb hd0))
          eqn:Er; cbn [fst snd] in *; [discriminate |].
        injection Hq as ->. eexists. split; [reflexivity |].
        rewrite hand_after_counter. cbn.
        destruct (opened_for_state _ _ _ _ _ Eo) as (_ & _ & _ & Hs).
        rewrite Hs. repeat split; [lia | unfold VIOLATION_DELAY_FRAMES; lia | discriminate].
      * destruct (dict_get k (pending_violations t)) as [p0 |] eqn:Ep0;
          [| cbn in Hq; discriminate].
        destruct (resolves (scoopers_seen t f) p0) eqn:Er;
          cbn [fst snd] in *; [discriminate |].
        injection Hq as ->. eexists. split; [reflexivity |].
        rewrite hand_after_counter. cbn [tick delay_counter].
        destruct (inv_pending_key t k p0 Hinv Ep0) as (hd1 & Hg1 & _ & Hnd).
        assert (hd1 = hd0) by congruence. subst hd1.
        repeat split; [lia | now apply (resolves_false_counter (scoopers_seen t f))
                       | now apply hand_after_not_done].
    + pose proof (step_unmatched t f k hd Hinv Hg Hm) as Hs. cbv zeta in Hs.
      destruct (_ <? _)%nat; destruct Hs as [Hh Hq]; [congruence |].
      rewrite Hh. rewrite Hp in Hq. unfold arbitrate in *.
      destruct (dict_get k (pending_violations t)) as [p0 |] eqn:Ep0;
        [| cbn in Hq; discriminate].
      destruct (resolves (scoopers_seen t f) p0) eqn:Er;
        cbn [fst snd] in *; [discriminate |].
      injection Hq as ->. eexists. split; [reflexivity |].
      destruct (inv_pending t Hinv k p0 Ep0) as (hd1 & Hg1 & Hc1 & _ & Hnd).
      assert (hd1 = hd) by congruence. subst hd1.
      cbn [age tick delay_counter frames_since_update state].
      repeat split; [lia | now apply (resolves_false_counter (scoopers_seen t f)) | assumption].
    + destruct (step_created t f k Hinv Hc) as (b & roi & _ & _ & _ & Hq).
      congruence.
    + destruct (step_absent t f k Hinv Hg Hc). congruence.
  - intros k hd' Hg' Hst.
    destruct (step_cases t f k Hinv)
      as [(hd & Hg & Hm) | [(hd & Hg & Hm) | [(Hg & Hc) | (Hg & Hc)]]].
    + destruct (step_matched t f k Hinv Hm)
        as (b & hd0 & Hb & Hg0 & Hi & _ & Hh & Hq). cbv zeta in Hh, Hq.
      rewrite Hq. rewrite Hg' in Hh. unfold arbitrate in *.
      destruct (opened_for (rois t) (f_pizzas f) b hd0) as [pb |] eqn:Eo.
      * destruct (resolves (scoopers_seen t f) (fresh_pending (f_num f) pb hd0));
          cbn [fst snd] in *; [| eauto].
        injection Hh as ->. cbn in Hst. discriminate.
      * destruct (dict_get k (pending_violations t)) as [p0 |] eqn:Ep0.
        -- destruct (resolves (scoopers_seen t f) p0); cbn [fst snd] in *; [| eauto].
           injection Hh as ->. cbn in Hst. discriminate.
        -- cbn [fst snd] in *. injection Hh as ->.
           rewrite hand_after_state in Hst. unfold opened_for in Eo.
           destruct (find_roi (rois t) b); [discriminate |].
           destruct (state hd0) eqn:Es0; try discriminate.
           ++ rewrite Eo in Hst. discriminate.
           ++ destruct (inv_waiting t Hinv k hd0 Hg0 Es0) as (p & Hp). congruence.
    + pose proof (step_unmatched t f k hd Hinv Hg Hm) as Hs. cbv zeta in Hs.
      destruct (_ <? _)%nat; destruct Hs as [Hh Hq]; [congruence |].
      rewrite Hq. rewrite Hg' in Hh. unfold arbitrate in *.
      destruct (dict_get k (pending_violations t)) as [p0 |] eqn:Ep0.
      * destruct (resolves (scoopers_seen t f) p0); cbn [fst snd] in *; [| eauto].
        injection Hh as ->. cbn in Hst. discriminate.
      * cbn [fst snd] in *. injection Hh as ->. cbn in Hst.
        destruct (inv_waiting t Hinv k hd Hg Hst) as (p & Hp). congruence.
    + destruct (step_created t f k Hinv Hc) as (b & roi & _ & _ & Hh & _).
      rewrite Hg' in Hh. injection Hh as ->. cbn in Hst. discriminate.
    + destruct (step_absent t f k Hinv Hg Hc). congruence.
Qed.

Lemma inv_run frames : forall t, inv t -> inv (run t frames).
Proof.
  unfold run. induction frames as [| f frames IH]; intros t Hinv; cbn;
    [assumption |].
  apply IH. now apply inv_step.
Qed.

Lemma inv_reachable rs t : reachable rs t -> inv t.
Proof. intros (frames & ->). apply inv_run, inv_init. Qed.

Lemma run_snoc t frames f : run t (frames ++ [f]) = step (run t frames) f.
Proof. unfold run. now rewrite fold_left_app. Qed.

End Invariant.

(** ** Whole sessions *)

Section Session.

Lemma emitted_eq t f :
  emitted t f
  = map (fun kp => mkViolation (f_num f) (fst kp) (p_roi_name (snd kp)))
      (filter (fun kp => commits (scoopers_seen t f) (snd kp))
         (pending_at_arbitration t f)).
Proof.
  unfold emitted, update, pending_at_arbitration, scoopers_seen.
  destruct (update_full_phases t (f_hands f) (f_scoopers f) (f_pizzas f) (f_num f))
    as (hs1 & m & pend1 & nh & hs2 & nid & created & pend2 & hs3 & nv
        & resolved & hs4 & lost & pend4 & P1 & P2 & P3 & P4 & ->).
  rewrite P1. cbn [fst snd].
  now destruct (check_pending_spec _ _ _ _ _ _ _ _ P3) as (_ & _ & -> & _).
Qed.

Lemma emitted_In t f v :
  inv t ->
  In v (emitted t f) <->
  exists k p, dict_get k (pending_at_arbitration t f) = Some p
              /\ commits (scoopers_seen t f) p = true
              /\ v = mkViolation (f_num f) k (p_roi_name p).
Proof.
  intros Hinv.
  destruct (phase_facts t f Hinv) as (_ & _ & _ & Hndp & _).
  rewrite emitted_eq, in_map_iff. split.
  - intros ([k p] & <- & Hin). apply filter_In in Hin as [Hin Hc].
    exists k, p. split; [now apply In_dict_get | auto].
  - intros (k & p & Hg & Hc & ->). exists (k, p). split; [reflexivity |].
    apply filter_In. split; [now apply dict_get_In | assumption].
Qed.

Lemma step_violations t f :
  violations (step t f) = violations t ++ emitted t f.
Proof.
  unfold step, emitted, update.
  destruct (update_full_phases t (f_hands f) (f_scoopers f) (f_pizzas f) (f_num f))
    as (hs1 & m & pend1 & nh & hs2 & nid & created & pend2 & hs3 & nv
        & resolved & hs4 & lost & pend4 & _ & _ & _ & _ & ->).
  reflexivity.
Qed.

Lemma run_violations frames :
  forall t, violations (run t frames)
            = violations t ++ List.concat (outputs t frames).
Proof.
  unfold run. induction frames as [| f frames IH]; intros t; cbn.
  - now rewrite app_nil_r.
  - rewrite IH, step_violations. now rewrite <- app_assoc.
Qed.

Lemma step_rois t f : rois (step t f) = rois t.
Proof.
  unfold step, update.
  destruct (update_full_phases t (f_hands f) (f_scoopers f) (f_pizzas f) (f_num f))
    as (hs1 & m & pend1 & nh & hs2 & nid & created & pend2 & hs3 & nv
        & resolved & hs4 & lost & pend4 & _ & _ & _ & _ & ->).
  reflexivity.
Qed.

Lemma step_history t f :
  scooper_history (step t f) = push_scoopers (scooper_history t) (f_scoopers f).
Proof.
  unfold step, update.
  destruct (update_full_phases t (f_hands f) (f_scoopers f) (f_pizzas f) (f_num f))
    as (hs1 & m & pend1 & nh & hs2 & nid & created & pend2 & hs3 & nv
        & resolved & hs4 & lost & pend4 & _ & _ & _ & _ & ->).
  reflexivity.
Qed.

Lemma creations_run frames :
  forall t, inv t ->
    (next_id t <= next_id (run t frames))%nat
    /\ creations t frames = seq (next_id t) (next_id (run t frames) - next_id t).
Proof.
  unfold run. induction frames as [| f frames IH]; intros t Hinv; cbn.
  - rewrite Nat.sub_diag. auto.
  - destruct (IH (step t f) (inv_step t f Hinv)) as [Hle Hc].
    pose proof (phase_facts t f Hinv) as (_ & _ & _ & _ & Hle1 & Hcr & _).
    fold (created_in t f). rewrite Hc, Hcr. split; [lia |].
    set (a := next_id t) in *. set (b := next_id (step t f)) in *.
    set (c := next_id (fold_left step frames (step t f))) in *.
    replace (c - a)%nat with ((b - a) + (c - b))%nat by lia.
    rewrite seq_app. now replace (a + (b - a))%nat with b by lia.
Qed.

Lemma creations_app fs1 :
  forall t fs2,
    creations t (fs1 ++ fs2) = creations t fs1 ++ creations (run t fs1) fs2.
Proof.
  unfold run. induction fs1 as [| f fs1 IH]; intros t fs2; cbn; [reflexivity |].
  now rewrite IH, app_assoc.
Qed.

Lemma seq_sorted n c : StronglySorted lt (seq n c).
Proof.
  revert n. induction c as [| c IH]; intros n; cbn; constructor.
  - apply IH.
  - apply Forall_forall. intros k Hk. apply in_seq in Hk. lia.
Qed.

End Session.

(** C6.  The violation count never goes down in a call of [update], and
    after any sequence of calls on a fresh tracker it is the number of
    records returned by those calls; the stored list is their
    concatenation. *)
Theorem violation_count_is_cumulative (rs : list Roi) (frames : list Frame) :
  violations (run (init rs) frames) = List.concat (outputs (init rs) frames)
  /\ get_violation_count (run (init rs) frames)
     = List.length (List.concat (outputs (init rs) frames))
  /\ (forall t f,
        (get_violation_count t <= get_violation_count (step t f))%nat
        /\ get_violation_count (step t f)
           = (get_violation_count t + List.length (emitted t f))%nat).
Proof.
  assert (H : violations (run (init rs) frames)
              = List.concat (outputs (init rs) frames))
    by (rewrite run_violations; reflexivity).
  split; [exact H |]. split; [unfold get_violation_count; now rewrite H |].
  intros t f. unfold get_violation_count.
  rewrite step_violations, length_app. lia.
Qed.

(** C5.  Over any sequence of frames fed to a fresh tracker, the
    identifiers given to new hands are 0, 1, 2, ... in this order, up to
    [next_id]: they are pairwise distinct and increasing, an identifier
    given out in a later part of the session was never given out before
    (whether or not its first owner is still live), and the live hands
    carry pairwise distinct identifiers that were all given out. *)
Theorem hand_ids_unique_and_increasing (rs : list Roi) (frames : list Frame) :
  let t := run (init rs) frames in
  creations (init rs) frames = seq 0 (next_id t)
  /\ NoDup (creations (init rs) frames)
  /\ StronglySorted lt (creations (init rs) frames)
  /\ (forall fs1 fs2 k,
        frames = fs1 ++ fs2 ->
        In k (creations (run (init rs) fs1) fs2) ->
        ~ In k (creations (init rs) fs1))
  /\ NoDup (dict_keys (hands t))
  /\ (forall k, In k (dict_keys (hands t)) -> In k (creations (init rs) frames)).
Proof.
  intros t.
  destruct (creations_run frames (init rs) (inv_init rs)) as [_ Hc].
  cbn [next_id init] in Hc. rewrite Nat.sub_0_r in Hc. fold t in Hc.
  pose proof (inv_run frames (init rs) (inv_init rs)) as Hinv. fold t in Hinv.
  split; [exact Hc |]. rewrite Hc.
  split; [apply seq_NoDup |]. split; [apply seq_sorted |].
  split.
  { intros fs1 fs2 k -> Hin2 Hin1.
    rewrite creations_app in Hc.
    pose proof (seq_NoDup (next_id t) 0) as Hnd. rewrite <- Hc in Hnd.
    apply NoDup_app_remove_l in Hnd as Hnd2.
    clear Hnd2. revert Hin1 Hin2 Hnd. generalize (creations (init rs) fs1).
    generalize (creations (run (init rs) fs1) fs2). clear.
    intros l2 l1 H1 H2 Hnd. induction l1 as [| x l1 IH]; [destruct H1 |].
    cbn in Hnd. inversion Hnd as [| ? ? Hnot Hnd']; subst.
    destruct H1 as [-> | H1]; [| now apply IH].
    apply Hnot. apply in_or_app. now right. }
  split; [apply (inv_hands_nodup t Hinv) |].
  intros k Hk. apply in_seq. pose proof (inv_fresh t Hinv k Hk). lia.
Qed.

Lemma hand_ids_unique_and_increasing_witness :
  hands (run (init [Scenario.cheese]) Scenario.lost_hand_session) = []
  /\ In 1%nat (creations (run (init [Scenario.cheese]) Scenario.lost_hand_session)
                Scenario.hand_again)
  /\ ~ In 1%nat (creations (init [Scenario.cheese]) Scenario.lost_hand_session).
Proof.
  split; [vm_compute; reflexivity |].
  split; [vm_compute; left; reflexivity |].
  destruct (hand_ids_unique_and_increasing [Scenario.cheese]
              (Scenario.lost_hand_session ++ Scenario.hand_again))
    as (_ & _ & _ & H & _).
  apply (H Scenario.lost_hand_session Scenario.hand_again 1%nat eq_refl).
  vm_compute. left. reflexivity.
Defined.

(** C9.  After any sequence of calls of [update] on a fresh tracker, and so
    after every single call, each identifier that keys an open pending check
    also keys a live hand. *)
Theorem pending_check_has_live_hand (rs : list Roi) (frames : list Frame) (k : nat) :
  In k (dict_keys (pending_violations (run (init rs) frames))) ->
  In k (dict_keys (hands (run (init rs) frames))).
Proof.
  intros Hk. apply In_keys_get in Hk as (p & Hp).
  pose proof (inv_run frames (init rs) (inv_init rs)) as Hinv.
  destruct (inv_pending_key _ k p Hinv Hp) as (hd & Hg & _).
  eapply dict_get_Some_key; eauto.
Qed.

Lemma pending_check_has_live_hand_witness :
  In 0%nat (dict_keys (hands (run (init [Scenario.cheese])
                                (Scenario.frames_from 10 6)))).
Proof.
  apply (pending_check_has_live_hand [Scenario.cheese] (Scenario.frames_from 10 6) 0%nat).
  vm_compute. left. reflexivity.
Defined.

(** ** The evidence window and the lifecycle *)

Section Window.

Lemma timeout_at_least s : (HAND_TIMEOUT_FRAMES <= timeout_of s)%nat.
Proof. destruct s; unfold timeout_of, HAND_TIMEOUT_FRAMES; lia. Qed.

Lemma run_rois frames : forall t, rois (run t frames) = rois t.
Proof.
  unfold run. induction frames as [| f frames IH]; intros t; cbn; [reflexivity |].
  now rewrite IH, step_rois.
Qed.

Lemma lastn_length {A : Type} n (l : list A) :
  List.length (lastn n l) = Nat.min n (List.length l).
Proof. unfold lastn. rewrite length_skipn. lia. Qed.

Lemma tl_skipn {A : Type} n (l : list A) : tl (skipn n l) = skipn (S n) l.
Proof.
  revert n. induction l as [| x l IH]; intros n.
  - now rewrite !skipn_nil.
  - destruct n; cbn; [reflexivity | apply IH].
Qed.

Lemma lastn_snoc_full {A : Type} n (l : list A) (x : A) :
  (0 < n <= List.length l)%nat ->
  tl (lastn n l ++ [x]) = lastn n (l ++ [x]).
Proof.
  intros Hn. unfold lastn. rewrite length_app. cbn [List.length].
  replace (List.length l + 1 - n)%nat with (S (List.length l - n)) by lia.
  rewrite skipn_app.
  replace (S (List.length l - n) - List.length l)%nat with 0%nat by lia.
  change (skipn 0 [x]) with [x]. rewrite <- tl_skipn.
  destruct (skipn (List.length l - n) l) as [| y r] eqn:E; [| reflexivity].
  apply (f_equal (@List.length A)) in E. rewrite length_skipn in E.
  cbn in E. lia.
Qed.

(** The stored history is the scooper sets of the last 15 frames. *)
Lemma push_scoopers_lastn (l : list (list Box)) (x : list Box) :
  push_scoopers (lastn SCOOPER_MEMORY_FRAMES l) x
  = lastn SCOOPER_MEMORY_FRAMES (l ++ [x]).
Proof.
  unfold push_scoopers.
  rewrite length_app, lastn_length. cbn [List.length].
  destruct (Nat.ltb_spec SCOOPER_MEMORY_FRAMES
              (Nat.min SCOOPER_MEMORY_FRAMES (List.length l) + 1)) as [H | H].
  - apply lastn_snoc_full. unfold SCOOPER_MEMORY_FRAMES in *. lia.
  - unfold lastn. rewrite length_app. cbn [List.length].
    assert (Hl : (List.length l < SCOOPER_MEMORY_FRAMES)%nat) by lia.
    replace (List.length l - SCOOPER_MEMORY_FRAMES)%nat with 0%nat by lia.
    replace (List.length l + 1 - SCOOPER_MEMORY_FRAMES)%nat with 0%nat by lia.
    reflexivity.
Qed.

Lemma history_run rs frames :
  scooper_history (run (init rs) frames)
  = lastn SCOOPER_MEMORY_FRAMES (map f_scoopers frames).
Proof.
  induction frames as [| f frames IH] using rev_ind; [reflexivity |].
  rewrite run_snoc, step_history, IH, map_app. apply push_scoopers_lastn.
Qed.

Lemma scoopers_seen_run rs frames f :
  scoopers_seen (run (init rs) frames) f
  = List.concat (lastn SCOOPER_MEMORY_FRAMES (map f_scoopers (frames ++ [f]))).
Proof.
  unfold scoopers_seen, all_recent_scoopers.
  now rewrite history_run, map_app, push_scoopers_lastn.
Qed.

(** The two outcomes of the arbitration loop for the pending check it finds
    under hand [k], on a reachable state. *)
Lemma resolved_pending_step t f k p :
  inv t ->
  dict_get k (pending_at_arbitration t f) = Some p ->
  resolves (scoopers_seen t f) p = true ->
  dict_get k (pending_violations (step t f)) = None
  /\ (exists hd, dict_get k (hands (step t f)) = Some hd /\ state hd = done).
Proof.
  intros Hinv Hp Hres.
  pose proof (phase_facts t f Hinv) as (_ & Hsame & _).
  destruct (in_dec Nat.eq_dec k (matched_in t f)) as [Hm | Hm].
  - destruct (step_matched t f k Hinv Hm) as (b & hd & Hb & Hg & Hi & Hp1 & Hh & Hq).
    cbv zeta in Hp1, Hh, Hq. rewrite <- Hp1, Hp in Hh, Hq.
    unfold arbitrate in Hh, Hq. rewrite Hres in Hh, Hq. cbn [fst snd] in Hh, Hq.
    split; [assumption |]. eexists. split; [exact Hh | reflexivity].
  - rewrite (Hsame k Hm) in Hp.
    destruct (inv_pending t Hinv k p Hp) as (hd & Hg & Hc1 & Hc2 & _).
    pose proof (step_unmatched t f k hd Hinv Hg Hm) as Hs. cbv zeta in Hs.
    rewrite Hp in Hs. unfold arbitrate in Hs. rewrite Hres in Hs.
    cbn [fst snd set_done state frames_since_update timeout_of] in Hs.
    destruct (Nat.ltb_spec HAND_TIMEOUT_FRAMES (S (frames_since_update hd)))
      as [Hlt | Hge].
    + unfold HAND_TIMEOUT_FRAMES, VIOLATION_DELAY_FRAMES in *. lia.
    + destruct Hs as [Hh Hq]. split; [assumption |].
      eexists. split; [exact Hh | reflexivity].
Qed.

Lemma open_pending_step t f k p :
  inv t ->
  dict_get k (pending_at_arbitration t f) = Some p ->
  resolves (scoopers_seen t f) p = false ->
  dict_get k (pending_violations (step t f)) = Some (tick p).
Proof.
  intros Hinv Hp Hres.
  pose proof (phase_facts t f Hinv) as (_ & Hsame & _).
  destruct (in_dec Nat.eq_dec k (matched_in t f)) as [Hm | Hm].
  - destruct (step_matched t f k Hinv Hm) as (b & hd & Hb & Hg & Hi & Hp1 & Hh & Hq).
    cbv zeta in Hp1, Hh, Hq. rewrite <- Hp1, Hp in Hq.
    unfold arbitrate in Hq. rewrite Hres in Hq. exact Hq.
  - rewrite (Hsame k Hm) in Hp.
    destruct (inv_pending t Hinv k p Hp) as (hd & Hg & Hc1 & Hc2 & _).
    pose proof (step_unmatched t f k hd Hinv Hg Hm) as Hs. cbv zeta in Hs.
    rewrite Hp in Hs. unfold arbitrate in Hs. rewrite Hres in Hs.
    cbn [fst snd] in Hs. pose proof (timeout_at_least (state hd)).
    destruct (Nat.ltb_spec (timeout_of (state hd)) (S (frames_since_update hd)))
      as [Hlt | Hge].
    + unfold HAND_TIMEOUT_FRAMES, VIOLATION_DELAY_FRAMES in *. lia.
    + now destruct Hs.
Qed.

(** The violations returned for hand [k] are decided by its pending check
    alone. *)
Lemma emitted_for_hand t f k p :
  inv t ->
  dict_get k (pending_at_arbitration t f) = Some p ->
  (commits (scoopers_seen t f) p = false ->
   forall v, In v (emitted t f) -> v_hand_id v <> k)
  /\ (commits (scoopers_seen t f) p = true ->
      In (mkViolation (f_num f) k (p_roi_name p)) (emitted t f)
      /\ (forall v, In v (emitted t f) -> v_hand_id v = k ->
                    v = mkViolation (f_num f) k (p_roi_name p))).
Proof.
  intros Hinv Hp. split.
  - intros Hc v Hv Hk.
    apply (emitted_In t f v Hinv) in Hv as (k' & p' & Hg & Hc' & ->).
    cbn in Hk. subst k'. congruence.
  - intros Hc. split.
    + apply (emitted_In t f _ Hinv). exists k, p. auto.
    + intros v Hv Hk.
      apply (emitted_In t f v Hinv) in Hv as (k' & p' & Hg & Hc' & ->).
      cbn in Hk. subst k'. congruence.
Qed.

End Window.

(** C2.  In any session, take a pending check [p] as the arbitration loop
    of the current frame finds it, and suppose a scooper box among those of
    the last 15 frames, the current one included, is near its pizza box
    (margin 0.4).  Then this call removes the pending check, leaves the
    owning hand live in state [done], and returns no violation for that
    hand.  Nothing is assumed about [delay_counter p]: the outcome is the
    same when the counter reaches [VIOLATION_DELAY_FRAMES] in this frame. *)
Theorem scooper_evidence_clears_pending
  (rs : list Roi) (frames : list Frame) (f : Frame) (k : nat) (p : Pending) :
  let t := run (init rs) frames in
  dict_get k (pending_at_arbitration t f) = Some p ->
  is_scooper_at_pizza
    (List.concat (lastn SCOOPER_MEMORY_FRAMES (map f_scoopers (frames ++ [f]))))
    (pizza_box p) = true ->
  dict_get k (pending_violations (step t f)) = None
  /\ (exists hd, dict_get k (hands (step t f)) = Some hd /\ state hd = done)
  /\ (forall v, In v (emitted t f) -> v_hand_id v <> k).
Proof.
  intros t Hp Hev. rewrite <- (scoopers_seen_run rs frames f) in Hev. fold t in Hev.
  pose proof (inv_run frames (init rs) (inv_init rs)) as Hinv. fold t in Hinv.
  assert (Hres : resolves (scoopers_seen t f) p = true)
    by (unfold resolves, evidence; now rewrite Hev).
  assert (Hcom : commits (scoopers_seen t f) p = false)
    by (unfold commits, evidence; now rewrite Hev).
  destruct (resolved_pending_step t f k p Hinv Hp Hres) as [Hq Hh].
  split; [exact Hq |]. split; [exact Hh |].
  exact (proj1 (emitted_for_hand t f k p Hinv Hp) Hcom).
Qed.

Lemma scooper_evidence_clears_pending_witness :
  let t := run (init [Scenario.cheese]) (Scenario.frames_from 10 14) in
  let f := Scenario.frame_with_scooper 24 in
  (VIOLATION_DELAY_FRAMES
   <= S (delay_counter (mkPending 15 Scenario.pizza "Cheese" 9)))%nat
  /\ dict_get 0%nat (pending_violations (step t f)) = None
  /\ (exists hd, dict_get 0%nat (hands (step t f)) = Some hd /\ state hd = done)
  /\ (forall v, In v (emitted t f) -> v_hand_id v <> 0%nat).
Proof.
  intros t f. split; [vm_compute; lia |].
  apply (scooper_evidence_clears_pending [Scenario.cheese]
           (Scenario.frames_from 10 14) f 0%nat
           (mkPending 15 Scenario.pizza "Cheese" 9)).
  - vm_compute. reflexivity.
  - vm_compute. reflexivity.
Defined.

(** C10.  [done] is not a final state.  In any session, a hand in state
    [done] that a box of the next frame matches is still live after the
    call, carries that box, and is in state [in_roi] whenever the centre of
    the box lies in some region.  And one identifier can be charged twice:
    in the session [Scenario.second_round] hand 0 commits a violation at
    frame 24 and, after going back through the region, another at frame 38. *)
Theorem done_hand_restarts_in_region :
  (forall (rs : list Roi) (frames : list Frame) (f : Frame) (k : nat) (hd : HandData),
      let t := run (init rs) frames in
      dict_get k (hands t) = Some hd ->
      state hd = done ->
      In k (matched_in t f) ->
      exists hd',
        dict_get k (hands (step t f)) = Some hd'
        /\ In (box hd') (f_hands f)
        /\ frames_since_update hd' = 0%nat
        /\ (forall roi, find_roi rs (box hd') = Some roi ->
                        state hd' = in_roi /\ h_roi_name hd' = roi_name roi)
        /\ (find_roi rs (box hd') = None -> state hd' = done))
  /\ violations (run (init [Scenario.cheese]) Scenario.second_round)
     = [mkViolation 24 0 "Cheese"; mkViolation 38 0 "Cheese"].
Proof.
  split; [| vm_compute; reflexivity].
  intros rs frames f k hd t Hg Hst Hm.
  pose proof (inv_run frames (init rs) (inv_init rs)) as Hinv. fold t in Hinv.
  assert (Hrs : rois t = rs) by (unfold t; now rewrite run_rois).
  destruct (step_matched t f k Hinv Hm) as (b & hd0 & Hb & Hg0 & Hi & _ & Hh & _).
  cbv zeta in Hh. assert (hd0 = hd) by congruence. subst hd0.
  assert (Hnp : dict_get k (pending_violations t) = None).
  { destruct (dict_get k (pending_violations t)) as [p |] eqn:Ep; [| reflexivity].
    destruct (inv_pending_key t k p Hinv Ep) as (hd1 & Hg1 & _ & Hnd). congruence. }
  assert (Hop : opened_for (rois t) (f_pizzas f) b hd = None).
  { unfold opened_for. rewrite Hst. now destruct (find_roi (rois t) b). }
  rewrite Hop, Hnp in Hh. cbn [arbitrate fst] in Hh. rewrite Hrs in Hh.
  exists (hand_after rs (f_pizzas f) b hd).
  rewrite hand_after_box, hand_after_counter, hand_after_state, Hst.
  split; [assumption |]. split; [assumption |]. split; [reflexivity |].
  split.
  - intros roi Hr. rewrite Hr. split; [reflexivity |].
    unfold hand_after, transition. now rewrite Hr.
  - intros Hr. now rewrite Hr.
Qed.

Lemma done_hand_restarts_in_region_witness :
  let t := run (init [Scenario.cheese]) (firstn 17 Scenario.second_round) in
  let f := mkFrame [Scenario.hand_in_region] [Scenario.far_scooper]
             [Scenario.pizza] 27 in
  exists hd',
    dict_get 0%nat (hands (step t f)) = Some hd'
    /\ In (box hd') (f_hands f)
    /\ frames_since_update hd' = 0%nat
    /\ (forall roi, find_roi [Scenario.cheese] (box hd') = Some roi ->
                    state hd' = in_roi /\ h_roi_name hd' = roi_name roi)
    /\ (find_roi [Scenario.cheese] (box hd') = None -> state hd' = done).
Proof.
  intros t f.
  destruct done_hand_restarts_in_region as [H _].
  apply (H [Scenario.cheese] (firstn 17 Scenario.second_round) f 0%nat
           (mkHand Scenario.hand_leaving done 0 "Cheese")).
  - vm_compute. reflexivity.
  - reflexivity.
  - vm_compute. left. reflexivity.
Defined.

(** C4, as amended.  In any session, when a box of the frame matches a
    hand in state [tracking_to_pizza], lies in no region and is near
    (margin 0.5) some pizza box, the matching loop writes a new pending
    check under the hand's identifier whatever was stored there: counter 0,
    the current frame number, the first pizza box near the hand box and the
    hand's region name.  The arbitration loop of the same call then either
    finds scooper evidence and removes it, or leaves it open with counter
    1.  The identifiers of the pending checks stay pairwise distinct. *)
Theorem reaching_pizza_rewrites_pending
  (rs : list Roi) (frames : list Frame) (f : Frame) (k : nat) (hd : HandData) :
  let t := run (init rs) frames in
  dict_get k (hands t) = Some hd ->
  state hd = tracking_to_pizza ->
  In k (matched_in t f) ->
  exists hand_box,
    In hand_box (f_hands f)
    /\ iou_matches hand_box hd = true
    /\ (forall pb,
          find_roi rs hand_box = None ->
          find (is_near_pizza hand_box) (f_pizzas f) = Some pb ->
          let fresh := mkPending (f_num f) pb (h_roi_name hd) 0 in
          dict_get k (pending_at_arbitration t f) = Some fresh
          /\ (if is_scooper_at_pizza (scoopers_seen t f) pb
              then dict_get k (pending_violations (step t f)) = None
                   /\ dict_get k (hands (step t f))
                      = Some (mkHand hand_box done 0 (h_roi_name hd))
              else dict_get k (pending_violations (step t f))
                   = Some (mkPending (f_num f) pb (h_roi_name hd) 1)
                   /\ dict_get k (hands (step t f))
                      = Some (mkHand hand_box waiting_at_pizza 0 (h_roi_name hd))))
    /\ NoDup (dict_keys (pending_violations (step t f))).
Proof.
  intros t Hg Hst Hm.
  pose proof (inv_run frames (init rs) (inv_init rs)) as Hinv. fold t in Hinv.
  assert (Hrs : rois t = rs) by (unfold t; now rewrite run_rois).
  destruct (step_matched t f k Hinv Hm) as (b & hd0 & Hb & Hg0 & Hi & Hp1 & Hh & Hq).
  cbv zeta in Hp1, Hh, Hq. assert (hd0 = hd) by congruence. subst hd0.
  exists b. split; [assumption |]. split; [assumption |].
  split; [| apply (inv_pending_nodup _ (inv_step t f Hinv))].
  intros pb Hr Hn fresh. rewrite Hrs in *.
  assert (Hop : opened_for rs (f_pizzas f) b hd = Some pb)
    by (unfold opened_for; now rewrite Hr, Hst).
  assert (Hha : hand_after rs (f_pizzas f) b hd
                = mkHand b waiting_at_pizza 0 (h_roi_name hd))
    by (unfold hand_after, transition; now rewrite Hr, Hst, Hn).
  rewrite Hop in Hp1, Hh, Hq. rewrite Hha in Hh, Hq.
  split; [exact Hp1 |].
  unfold arbitrate, resolves, evidence, fresh_pending in Hh, Hq.
  cbn [pizza_box delay_counter] in Hh, Hq.
  destruct (is_scooper_at_pizza (scoopers_seen t f) pb);
    cbn [orb fst snd] in Hh, Hq; [split; assumption |].
  change (VIOLATION_DELAY_FRAMES <=? 1)%nat with false in Hh, Hq.
  cbn [fst snd] in Hh, Hq. split; assumption.
Qed.

Lemma reaching_pizza_rewrites_pending_witness :
  dict_get 0%nat (pending_violations
                    (run (init [Scenario.cheese]) Scenario.back_and_forth))
  = Some (mkPending 15 Scenario.pizza "Cheese" 4)
  /\ dict_get 0%nat
       (pending_violations
          (step (run (init [Scenario.cheese]) Scenario.back_and_forth)
             Scenario.reaching_again))
     = Some (mkPending 19 Scenario.pizza_moved "Cheese" 1).
Proof.
  split; [vm_compute; reflexivity |].
  destruct (reaching_pizza_rewrites_pending [Scenario.cheese]
              Scenario.back_and_forth Scenario.reaching_again 0%nat
              (mkHand Scenario.hand_leaving tracking_to_pizza 0 "Cheese"))
    as (b & Hb & Hi & H & _).
  - vm_compute. reflexivity.
  - reflexivity.
  - vm_compute. left. reflexivity.
  - vm_compute in Hb. destruct Hb as [<- | []].
    specialize (H Scenario.pizza_moved). vm_compute in H.
    vm_compute. exact (proj1 (proj2 (H eq_refl eq_refl))).
Defined.

(** C4 as stated fails: a pending check that is already open when the hand
    reaches a pizza again is not left untouched.  In the session
    [Scenario.back_and_forth] hand 0 has an open check from frame 15 with
    counter 4; in frame 19 it is in state [tracking_to_pizza], is matched
    and is near a pizza box, and the check the arbitration loop finds is a
    new one. *)
Lemma open_pending_is_overwritten :
  ~ (forall (rs : list Roi) (frames : list Frame) (f : Frame) (k : nat)
            (hd : HandData) (p : Pending),
        let t := run (init rs) frames in
        dict_get k (hands t) = Some hd ->
        state hd = tracking_to_pizza ->
        In k (matched_in t f) ->
        (exists b pb, In b (f_hands f) /\ iou_matches b hd = true
                      /\ In pb (f_pizzas f) /\ is_near_pizza b pb = true) ->
        dict_get k (pending_violations t) = Some p ->
        dict_get k (pending_at_arbitration t f) = Some p).
Proof.
  intros H.
  specialize (H [Scenario.cheese] Scenario.back_and_forth Scenario.reaching_again
                0%nat (mkHand Scenario.hand_leaving tracking_to_pizza 0 "Cheese")
                (mkPending 15 Scenario.pizza "Cheese" 4)).
  cbv zeta in H.
  assert (E : dict_get 0%nat
                (pending_at_arbitration
                   (run (init [Scenario.cheese]) Scenario.back_and_forth)
                   Scenario.reaching_again)
              = Some (mkPending 19 Scenario.pizza_moved "Cheese" 0))
    by (vm_compute; reflexivity).
  rewrite E in H. clear E.
  assert (Hf : Some (mkPending 19 Scenario.pizza_moved "Cheese" 0)
               = Some (mkPending 15 Scenario.pizza "Cheese" 4)); [| discriminate].
  apply H.
  - vm_compute. reflexivity.
  - reflexivity.
  - vm_compute. left. reflexivity.
  - exists Scenario.hand_at_pizza, Scenario.pizza_moved.
    repeat split; try (vm_compute; reflexivity); left; reflexivity.
  - vm_compute. reflexivity.
Qed.

(** ** Replaying a frame *)

Section Replay.

Lemma filter_none {A : Type} (g : A -> bool) (l : list A) :
  (forall x, In x l -> g x = false) -> filter g l = [].
Proof.
  induction l as [| x l IH]; intros H; cbn; [reflexivity |].
  rewrite (H x (or_introl eq_refl)). apply IH. intros y Hy. apply H. now right.
Qed.

(** A pending check written by the matching loop of the current call is
    never committed by the arbitration loop of the same call. *)
Lemma fresh_pending_not_committed scoopers frame_num pb hd :
  commits scoopers (fresh_pending frame_num pb hd) = false.
Proof.
  unfold commits, fresh_pending. cbn [delay_counter].
  change (VIOLATION_DELAY_FRAMES <=? 1)%nat with false. apply andb_false_r.
Qed.

Lemma no_pending_no_violation t f :
  inv t -> pending_violations t = [] -> emitted t f = [].
Proof.
  intros Hinv Hnil. rewrite emitted_eq.
  pose proof (phase_facts t f Hinv) as (_ & Hsame & Hmt & Hndp & _).
  rewrite filter_none; [reflexivity |].
  intros [k p] Hin. cbn [snd]. apply (In_dict_get _ _ _ Hndp) in Hin.
  destruct (in_dec Nat.eq_dec k (matched_in t f)) as [Hm | Hm].
  - destruct (Hmt k Hm) as (b & hd & _ & _ & _ & _ & Hp1).
    rewrite Hin, Hnil in Hp1.
    destruct (opened_for (rois t) (f_pizzas f) b hd); [| discriminate].
    injection Hp1 as ->. apply fresh_pending_not_committed.
  - rewrite (Hsame k Hm), Hnil in Hin. discriminate.
Qed.

End Replay.

(** C7, as amended.  In any session, when the call for a frame changed no
    hand's state and left no pending check open, a second call with the
    same boxes and the same frame number returns no violation and leaves
    the violation list, its count and the regions as they were; it does
    store the frame's scooper boxes a second time. *)
Theorem replay_without_pending_is_silent
  (rs : list Roi) (frames : list Frame) (f : Frame) :
  let t := run (init rs) frames in
  let t1 := step t f in
  let t2 := step t1 f in
  hand_states t1 = hand_states t ->
  pending_violations t1 = [] ->
  emitted t1 f = []
  /\ violations t2 = violations t1
  /\ get_violation_count t2 = get_violation_count t1
  /\ rois t2 = rois t1
  /\ scooper_history t2 = push_scoopers (scooper_history t1) (f_scoopers f).
Proof.
  intros t t1 t2 _ Hnil.
  assert (Hinv : inv t1) by (apply inv_step, inv_run, inv_init).
  assert (He : emitted t1 f = []) by now apply no_pending_no_violation.
  assert (Hv : violations t2 = violations t1)
    by (unfold t2; now rewrite step_violations, He, app_nil_r).
  split; [exact He |]. split; [exact Hv |].
  split; [unfold get_violation_count; now rewrite Hv |].
  split; [apply step_rois | apply step_history].
Qed.

Lemma replay_without_pending_is_silent_witness :
  emitted (step (run (init [Scenario.cheese]) (Scenario.frames_from 10 3))
             (Scenario.frame 13)) (Scenario.frame 13) = []
  /\ scooper_history
       (step (step (run (init [Scenario.cheese]) (Scenario.frames_from 10 3))
                (Scenario.frame 13)) (Scenario.frame 13))
     <> scooper_history
          (step (run (init [Scenario.cheese]) (Scenario.frames_from 10 3))
             (Scenario.frame 13)).
Proof.
  destruct (replay_without_pending_is_silent [Scenario.cheese]
              (Scenario.frames_from 10 3) (Scenario.frame 13))
    as (He & _ & _ & _ & Hh).
  - vm_compute. reflexivity.
  - vm_compute. reflexivity.
  - split; [exact He |]. rewrite Hh. vm_compute. discriminate.
Defined.

(** C7 as stated fails.  After frames 10 to 22 of the scenario the pending
    check of hand 0 has counter 8.  The call for frame 23 changes no hand's
    state; the same call made again brings the counter to 10 and returns a
    violation. *)
Lemma replay_commits_violation :
  ~ (forall (rs : list Roi) (frames : list Frame) (f : Frame),
        let t := run (init rs) frames in
        let t1 := step t f in
        let t2 := step t1 f in
        hand_states t1 = hand_states t ->
        emitted t1 f = [] /\ same_up_to_counters t1 t2).
Proof.
  intros H.
  destruct (H [Scenario.cheese] (Scenario.frames_from 10 13) (Scenario.frame 23))
    as [He _].
  - vm_compute. reflexivity.
  - vm_compute in He. discriminate.
Qed.

(** ** Lost hands *)

Section Eviction.

Lemma unmatched_no_violation_without_pending t f k :
  inv t ->
  ~ In k (matched_in t f) ->
  dict_get k (pending_violations t) = None ->
  forall v, In v (emitted t f) -> v_hand_id v <> k.
Proof.
  intros Hinv Hm Hnp v Hv Hk.
  pose proof (phase_facts t f Hinv) as (_ & Hsame & _).
  apply (emitted_In t f v Hinv) in Hv as (k' & p' & Hg & _ & ->).
  cbn in Hk. subst k'. rewrite (Hsame k Hm) in Hg. congruence.
Qed.

(** One frame in the life of an unmatched hand of a reachable state.  The
    timeout can be read off the state the hand had before the call: when
    arbitration changes the state in this call, the counter is below 10 and
    neither timeout is reached. *)
Lemma unmatched_step_rule t f k hd :
  inv t ->
  dict_get k (hands t) = Some hd ->
  ~ In k (matched_in t f) ->
  ((timeout_of (state hd) < S (frames_since_update hd))%nat ->
   dict_get k (hands (step t f)) = None
   /\ dict_get k (pending_violations (step t f)) = None
   /\ (forall v, In v (emitted t f) -> v_hand_id v <> k))
  /\ ((S (frames_since_update hd) <= timeout_of (state hd))%nat ->
      exists hd',
        dict_get k (hands (step t f)) = Some hd'
        /\ frames_since_update hd' = S (frames_since_update hd)
        /\ box hd' = box hd
        /\ (state hd' = state hd \/ state hd' = done)).
Proof.
  intros Hinv Hg Hm.
  pose proof (step_unmatched t f k hd Hinv Hg Hm) as Hs. cbv zeta in Hs.
  pose proof (timeout_at_least (state hd)) as Hto.
  destruct (dict_get k (pending_violations t)) as [p |] eqn:Ep.
  - destruct (inv_pending t Hinv k p Ep) as (hd1 & Hg1 & Hc1 & Hc2 & _).
    assert (hd1 = hd) by congruence. subst hd1.
    unfold HAND_TIMEOUT_FRAMES, VIOLATION_DELAY_FRAMES in *.
    split; [lia |]. intros _. unfold arbitrate in Hs.
    destruct (resolves (scoopers_seen t f) p);
      cbn [fst snd set_done state frames_since_update] in Hs.
    + cbn [timeout_of] in Hs.
      destruct (Nat.ltb_spec HAND_TIMEOUT_FRAMES (S (frames_since_update hd)));
        [unfold HAND_TIMEOUT_FRAMES in *; lia |].
      destruct Hs as [Hh _]. eexists. split; [exact Hh |]. cbn. auto.
    + destruct (Nat.ltb_spec (timeout_of (state hd)) (S (frames_since_update hd)));
        [lia |].
      destruct Hs as [Hh _]. eexists. split; [exact Hh |]. cbn. auto.
  - cbn [arbitrate fst snd] in Hs.
    destruct (Nat.ltb_spec (timeout_of (state hd)) (S (frames_since_update hd)))
      as [Hlt | Hge].
    + split; [| lia]. intros _. destruct Hs as [Hh Hq].
      repeat split; try assumption.
      now apply unmatched_no_violation_without_pending.
    + split; [lia |]. intros _. destruct Hs as [Hh _].
      eexists. split; [exact Hh |]. cbn. auto.
Qed.

Lemma unmatched_run_app k fs1 :
  forall t fs2,
    unmatched_run k t (fs1 ++ fs2)
    <-> unmatched_run k t fs1 /\ unmatched_run k (run t fs1) fs2.
Proof.
  unfold run. induction fs1 as [| f fs1 IH]; intros t fs2; cbn; [tauto |].
  rewrite IH. tauto.
Qed.

(** While its counter stays within 60, a lost hand stays live: both
    timeouts are at least 60. *)
Lemma lost_hand_survives k fs :
  forall t hd,
    inv t ->
    dict_get k (hands t) = Some hd ->
    unmatched_run k t fs ->
    (frames_since_update hd + List.length fs <= HAND_TIMEOUT_FRAMES)%nat ->
    exists hd',
      dict_get k (hands (run t fs)) = Some hd'
      /\ frames_since_update hd' = (frames_since_update hd + List.length fs)%nat
      /\ (state hd' = state hd \/ state hd' = done).
Proof.
  unfold run. induction fs as [| f fs IH]; intros t hd Hinv Hg Hu Hlen; cbn in *.
  - exists hd. rewrite Nat.add_0_r. auto.
  - destruct Hu as [Hm Hu].
    destruct (unmatched_step_rule t f k hd Hinv Hg Hm) as [_ Hstay].
    pose proof (timeout_at_least (state hd)).
    destruct Hstay as (hd1 & Hg1 & Hc1 & _ & Hs1); [lia |].
    destruct (IH (step t f) hd1 (inv_step t f Hinv) Hg1 Hu) as (hd' & Hg' & Hc' & Hs');
      [lia |].
    exists hd'. split; [assumption |]. split; [lia |].
    destruct Hs' as [Hs' | Hs']; [rewrite Hs' | now right]. exact Hs1.
Qed.

Lemma no_hand_boxes_no_match t f : f_hands f = [] -> matched_in t f = [].
Proof.
  intros H. unfold matched_in, matched_hands_of, match_phase. now rewrite H.
Qed.

Lemma unmatched_run_empty k fs :
  forall t, Forall (fun f => f_hands f = []) fs -> unmatched_run k t fs.
Proof.
  induction fs as [| f fs IH]; intros t H; cbn; [exact I |].
  inversion H as [| ? ? Hf Hfs]; subst. split; [| now apply IH].
  rewrite (no_hand_boxes_no_match t f Hf). intros [].
Qed.

End Eviction.

(** C3, as amended.  In any session, a frame in which a live hand is not
    matched adds one to its [frames_since_update]; the hand is evicted in
    that frame exactly when the new counter exceeds the timeout of its
    state, 60 for [in_roi] and [done] and 120 for [tracking_to_pizza] and
    [waiting_at_pizza]; an evicted hand leaves no pending check behind and
    no violation is returned for it in that frame.  A hand that was just
    matched in state [in_roi] or [waiting_at_pizza] and is then unmatched
    for 61 frames in a row is live after 60 of them and evicted by the
    61st.  The one that started in [waiting_at_pizza] does not stay in that
    state: after the 60 frames it is in [done] and has no pending check. *)
Theorem lost_hand_eviction :
  (forall (rs : list Roi) (frames : list Frame) (f : Frame) (k : nat) (hd : HandData),
      let t := run (init rs) frames in
      dict_get k (hands t) = Some hd ->
      ~ In k (matched_in t f) ->
      ((timeout_of (state hd) < S (frames_since_update hd))%nat ->
       dict_get k (hands (step t f)) = None
       /\ dict_get k (pending_violations (step t f)) = None
       /\ (forall v, In v (emitted t f) -> v_hand_id v <> k))
      /\ ((S (frames_since_update hd) <= timeout_of (state hd))%nat ->
          exists hd',
            dict_get k (hands (step t f)) = Some hd'
            /\ frames_since_update hd' = S (frames_since_update hd)
            /\ box hd' = box hd
            /\ (state hd' = state hd \/ state hd' = done)))
  /\ (forall (rs : list Roi) (frames fs : list Frame) (f : Frame) (k : nat)
             (hd : HandData),
        let t := run (init rs) frames in
        dict_get k (hands t) = Some hd ->
        frames_since_update hd = 0%nat ->
        state hd = in_roi \/ state hd = waiting_at_pizza ->
        List.length fs = 60%nat ->
        unmatched_run k t (fs ++ [f]) ->
        (exists hd',
            dict_get k (hands (run t fs)) = Some hd'
            /\ frames_since_update hd' = 60%nat
            /\ (state hd' = in_roi \/ state hd' = done)
            /\ (state hd = waiting_at_pizza ->
                state hd' = done
                /\ dict_get k (pending_violations (run t fs)) = None))
        /\ dict_get k (hands (run t (fs ++ [f]))) = None
        /\ dict_get k (pending_violations (run t (fs ++ [f]))) = None
        /\ (forall v, In v (emitted (run t fs) f) -> v_hand_id v <> k)).
Proof.
  split.
  - intros rs frames f k hd t Hg Hm.
    apply unmatched_step_rule; [apply inv_run, inv_init | assumption | assumption].
  - intros rs frames fs f k hd t Hg Hc0 Hst Hlen Hu.
    assert (Hinv : inv t) by apply inv_run, inv_init.
    apply unmatched_run_app in Hu as [Hu1 Hu2]. cbn in Hu2. destruct Hu2 as [Hm _].
    assert (Hinv' : inv (run t fs)) by now apply inv_run.
    destruct (lost_hand_survives k fs t hd Hinv Hg Hu1) as (hd' & Hg' & Hc' & Hs');
      [rewrite Hc0, Hlen; unfold HAND_TIMEOUT_FRAMES; lia |].
    rewrite Hc0, Hlen in Hc'. cbn in Hc'.
    assert (Hnw : state hd' <> waiting_at_pizza).
    { intros Hw. destruct (inv_waiting _ Hinv' k hd' Hg' Hw) as (p & Hp).
      destruct (inv_pending _ Hinv' k p Hp) as (hd1 & Hg1 & H1 & H2 & _).
      assert (hd1 = hd') by congruence. subst hd1.
      unfold VIOLATION_DELAY_FRAMES in *. lia. }
    assert (Hnp : dict_get k (pending_violations (run t fs)) = None).
    { destruct (dict_get k (pending_violations (run t fs))) as [p |] eqn:Hp;
        [| reflexivity].
      destruct (inv_pending _ Hinv' k p Hp) as (hd1 & Hg1 & H1 & H2 & _).
      assert (hd1 = hd') by congruence. subst hd1.
      unfold VIOLATION_DELAY_FRAMES in *. lia. }
    assert (Hst' : state hd' = in_roi \/ state hd' = done).
    { destruct Hs' as [Hs' | Hs']; [| now right].
      destruct Hst as [Hst | Hst]; rewrite Hst in Hs'; [now left | contradiction]. }
    assert (Hdn : state hd = waiting_at_pizza -> state hd' = done).
    { intros Hw. destruct Hs' as [Hs' | Hs']; [| assumption].
      rewrite Hw in Hs'. contradiction. }
    split.
    { exists hd'. repeat split; auto. }
    rewrite run_snoc.
    destruct (unmatched_step_rule (run t fs) f k hd' Hinv' Hg' Hm) as [Hev _].
    apply Hev. rewrite Hc'.
    destruct Hst' as [-> | ->]; unfold timeout_of, HAND_TIMEOUT_FRAMES; lia.
Qed.

Lemma lost_hand_eviction_witness :
  let t := run (init [Scenario.cheese]) (Scenario.frames_from 10 6) in
  let fs := Scenario.empty_frames 16 60 in
  let f := mkFrame [] [] [] 76 in
  (exists hd',
      dict_get 0%nat (hands (run t fs)) = Some hd'
      /\ frames_since_update hd' = 60%nat
      /\ (state hd' = in_roi \/ state hd' = done)
      /\ (waiting_at_pizza = waiting_at_pizza ->
          state hd' = done
          /\ dict_get 0%nat (pending_violations (run t fs)) = None))
  /\ dict_get 0%nat (hands (run t (fs ++ [f]))) = None
  /\ dict_get 0%nat (pending_violations (run t (fs ++ [f]))) = None
  /\ (forall v, In v (emitted (run t fs) f) -> v_hand_id v <> 0%nat).
Proof.
  intros t fs f.
  destruct lost_hand_eviction as [_ H].
  apply (H [Scenario.cheese] (Scenario.frames_from 10 6) fs f 0%nat
           (mkHand Scenario.hand_at_pizza waiting_at_pizza 0 "Cheese")).
  - vm_compute. reflexivity.
  - reflexivity.
  - right. reflexivity.
  - reflexivity.
  - apply unmatched_run_empty. unfold fs, Scenario.empty_frames.
    apply Forall_app. split; [| repeat constructor].
    apply Forall_forall. intros x Hx. apply in_map_iff in Hx as (i & <- & _).
    reflexivity.
Defined.

(** C3 as stated fails in its last clause.  In the scenario the pending
    check of hand 0 is opened at frame 15; the hand is then in state
    [waiting_at_pizza].  If no box matches it in the next 61 frames, it is
    not live after them and no pending check is open for it: the check was
    committed at frame 24, which left the hand in state [done] with the
    timeout of 60 frames. *)
Lemma lost_waiting_hand_is_evicted :
  ~ (forall (rs : list Roi) (frames fs : list Frame) (k : nat) (hd : HandData),
        let t := run (init rs) frames in
        dict_get k (hands t) = Some hd ->
        state hd = waiting_at_pizza ->
        List.length fs = 61%nat ->
        unmatched_run k t fs ->
        (exists hd', dict_get k (hands (run t fs)) = Some hd')
        /\ (exists p, dict_get k (pending_violations (run t fs)) = Some p)).
Proof.
  intros H.
  destruct (H [Scenario.cheese] (Scenario.frames_from 10 6)
              (Scenario.empty_frames 16 61) 0%nat
              (mkHand Scenario.hand_at_pizza waiting_at_pizza 0 "Cheese"))
    as [(hd' & Hhd) _].
  - vm_compute. reflexivity.
  - reflexivity.
  - reflexivity.
  - apply unmatched_run_empty. apply Forall_forall.
    intros x Hx. apply in_map_iff in Hx as (i & <- & _). reflexivity.
  - vm_compute in Hhd. discriminate.
Qed.

(** ** The delay before a violation *)

Section Delay.

Lemma quiet_run_app k pb fs1 :
  forall t fs2,
    quiet_run k pb t (fs1 ++ fs2)
    <-> quiet_run k pb t fs1 /\ quiet_run k pb (run t fs1) fs2.
Proof.
  unfold run. induction fs1 as [| f fs1 IH]; intros t fs2; cbn; [tauto |].
  rewrite IH. tauto.
Qed.

(** Every quiet frame adds one to the counter, and nothing is returned for
    the hand while the counter stays below the delay. *)
Lemma quiet_run_counts k fs :
  forall t p,
    inv t ->
    dict_get k (pending_violations t) = Some p ->
    quiet_run k (pizza_box p) t fs ->
    (delay_counter p + List.length fs < VIOLATION_DELAY_FRAMES)%nat ->
    dict_get k (pending_violations (run t fs))
    = Some (mkPending (p_frame p) (pizza_box p) (p_roi_name p)
              (delay_counter p + List.length fs))
    /\ (forall v, In v (List.concat (outputs t fs)) -> v_hand_id v <> k).
Proof.
  unfold run. induction fs as [| f fs IH]; intros t p Hinv Hp Hq Hlen; cbn in *.
  - rewrite Nat.add_0_r. destruct p. split; [exact Hp | intros v []].
  - destruct Hq as (Hsame & Hev & Hq). rewrite Hp in Hsame.
    assert (Hres : resolves (scoopers_seen t f) p = false).
    { unfold resolves, evidence. rewrite Hev. cbn [orb].
      apply Nat.leb_gt. lia. }
    assert (Hcom : commits (scoopers_seen t f) p = false).
    { unfold commits, evidence. rewrite Hev. cbn [negb andb].
      apply Nat.leb_gt. lia. }
    pose proof (open_pending_step t f k p Hinv Hsame Hres) as Hp'.
    destruct (IH (step t f) (tick p) (inv_step t f Hinv) Hp' Hq) as [Hfin Hout];
      [cbn; lia |].
    cbn [tick p_frame pizza_box p_roi_name delay_counter] in Hfin.
    split.
    + rewrite Hfin. f_equal. f_equal. lia.
    + intros v Hv. apply in_app_or in Hv as [Hv | Hv]; [| now apply Hout].
      exact (proj1 (emitted_for_hand t f k p Hinv Hsame) Hcom v Hv).
Qed.

End Delay.

(** C1, as amended.  In the scenario (one region "Cheese", a hand box that
    is in the region at frame 10, outside it from frame 11, near a pizza box
    from frame 15, one call of [update] per frame, no scooper near the
    pizza) the hand gets identifier 0 in state [in_roi] at frame 10, is in
    [tracking_to_pizza] after frame 11 and in [waiting_at_pizza] with a
    pending check after frame 15.  The call for frame 24 returns exactly
    the record (24, 0, "Cheese") and brings the count to 1; the call for
    frame 25 returns nothing and the count stays 1.

    The frame does not depend on the boxes chosen: in any session, a
    pending check that the matching loop opens in a frame (counter 0) and
    that sees no scooper evidence and is not rewritten in that frame's
    eight successors returns nothing for its hand in those nine frames and
    is committed by the call for the ninth frame after the opening one,
    with that frame's number. *)
Theorem scenario_violation_at_tenth_pass :
  (let s := init [Scenario.cheese] in
   hands (run s (Scenario.frames_from 10 1))
   = [(0%nat, mkHand Scenario.hand_in_region in_roi 1 "Cheese")]
   /\ hand_states (run s (Scenario.frames_from 10 2)) = [(0%nat, tracking_to_pizza)]
   /\ hand_states (run s (Scenario.frames_from 10 6)) = [(0%nat, waiting_at_pizza)]
   /\ pending_violations (run s (Scenario.frames_from 10 6))
      = [(0%nat, mkPending 15 Scenario.pizza "Cheese" 1)]
   /\ outputs s (Scenario.frames_from 10 14) = repeat [] 14
   /\ emitted (run s (Scenario.frames_from 10 14)) (Scenario.frame 24)
      = [mkViolation 24 0 "Cheese"]
   /\ get_violation_count (run s (Scenario.frames_from 10 15)) = 1%nat
   /\ emitted (run s (Scenario.frames_from 10 15)) (Scenario.frame 25) = []
   /\ get_violation_count (run s (Scenario.frames_from 10 16)) = 1%nat)
  /\ (forall (rs : list Roi) (frames fs : list Frame) (f0 f9 : Frame) (k : nat)
             (p : Pending),
        let t := run (init rs) frames in
        dict_get k (pending_at_arbitration t f0) = Some p ->
        delay_counter p = 0%nat ->
        is_scooper_at_pizza (scoopers_seen t f0) (pizza_box p) = false ->
        List.length fs = 8%nat ->
        quiet_run k (pizza_box p) (step t f0) (fs ++ [f9]) ->
        (forall v, In v (emitted t f0 ++ List.concat (outputs (step t f0) fs)) ->
                   v_hand_id v <> k)
        /\ In (mkViolation (f_num f9) k (p_roi_name p))
              (emitted (run (step t f0) fs) f9)
        /\ (forall v, In v (emitted (run (step t f0) fs) f9) -> v_hand_id v = k ->
                      v = mkViolation (f_num f9) k (p_roi_name p))
        /\ dict_get k (pending_violations (run (step t f0) (fs ++ [f9]))) = None).
Proof.
  split.
  { cbv zeta. repeat split; vm_compute; reflexivity. }
  intros rs frames fs f0 f9 k p t Hp Hc0 Hev0 Hlen Hq.
  assert (Hinv : inv t) by apply inv_run, inv_init.
  assert (Hres0 : resolves (scoopers_seen t f0) p = false)
    by (unfold resolves, evidence; rewrite Hev0, Hc0; reflexivity).
  assert (Hcom0 : commits (scoopers_seen t f0) p = false)
    by (unfold commits, evidence; rewrite Hev0, Hc0; reflexivity).
  pose proof (open_pending_step t f0 k p Hinv Hp Hres0) as Hp1.
  pose proof (inv_step t f0 Hinv) as Hinv1.
  apply quiet_run_app in Hq as [Hq8 Hq9].
  destruct (quiet_run_counts k fs (step t f0) (tick p) Hinv1 Hp1 Hq8) as [Hp9 Hout];
    [cbn; rewrite Hc0, Hlen; unfold VIOLATION_DELAY_FRAMES; lia |].
  cbn [tick p_frame pizza_box p_roi_name delay_counter] in Hp9.
  rewrite Hc0, Hlen in Hp9. cbn in Hp9.
  set (t8 := run (step t f0) fs) in *.
  set (p9 := mkPending (p_frame p) (pizza_box p) (p_roi_name p) 9) in *.
  assert (Hinv8 : inv t8) by now apply inv_run.
  cbn in Hq9. destruct Hq9 as (Hsame9 & Hev9 & _). rewrite Hp9 in Hsame9.
  assert (Hres9 : resolves (scoopers_seen t8 f9) p9 = true)
    by (unfold resolves, evidence; cbn; rewrite Hev9; reflexivity).
  assert (Hcom9 : commits (scoopers_seen t8 f9) p9 = true)
    by (unfold commits, evidence; cbn; rewrite Hev9; reflexivity).
  split.
  { intros v Hv. apply in_app_or in Hv as [Hv | Hv]; [| now apply Hout].
    exact (proj1 (emitted_for_hand t f0 k p Hinv Hp) Hcom0 v Hv). }
  destruct (proj2 (emitted_for_hand t8 f9 k p9 Hinv8 Hsame9) Hcom9) as [Hin Honly].
  split; [exact Hin |]. split; [exact Honly |].
  rewrite run_snoc. fold t8.
  exact (proj1 (resolved_pending_step t8 f9 k p9 Hinv8 Hsame9 Hres9)).
Qed.

Lemma scenario_violation_at_tenth_pass_witness :
  In (mkViolation 24 0 "Cheese")
     (emitted (run (step (run (init [Scenario.cheese]) (Scenario.frames_from 10 5))
                      (Scenario.frame 15))
                 (Scenario.frames_from 16 8))
        (Scenario.frame 24)).
Proof.
  destruct scenario_violation_at_tenth_pass as [_ H].
  destruct (H [Scenario.cheese] (Scenario.frames_from 10 5)
              (Scenario.frames_from 16 8) (Scenario.frame 15) (Scenario.frame 24)
              0%nat (mkPending 15 Scenario.pizza "Cheese" 0))
    as (_ & Hin & _).
  - vm_compute. reflexivity.
  - reflexivity.
  - vm_compute. reflexivity.
  - reflexivity.
  - vm_compute. repeat split.
  - exact Hin.
Defined.

(** C1 as stated fails: in the scenario the call for frame 25 returns no
    record.  The pending check opened at frame 15 is advanced by the
    arbitration loop of that same call, so its counter reaches 10 in the
    call for frame 24. *)
Lemma frame_25_returns_nothing :
  emitted (run (init [Scenario.cheese]) (Scenario.frames_from 10 15))
    (Scenario.frame 25)
  <> [mkViolation 25 0 "Cheese"]
  /\ get_violation_count (run (init [Scenario.cheese]) (Scenario.frames_from 10 15))
     = 1%nat.
Proof.
  split; [vm_compute; discriminate | vm_compute; reflexivity].
Qed.

(** * Further properties *)

(** ** Geometry helpers *)

Section MoreGeometry.

Lemma inter_area_comm (a b : Box) : inter_area a b = inter_area b a.
Proof.
  destruct a as [[[x1 y1] x2] y2], b as [[[u1 v1] u2] v2]; cbn.
  now rewrite (Z.max_comm x1), (Z.max_comm y1), (Z.min_comm x2), (Z.min_comm y2).
Qed.

Lemma inter_area_self (b : Box) : box_valid b -> inter_area b b = box_area b.
Proof.
  destruct b as [[[x1 y1] x2] y2]; cbn. intros [Hx Hy].
  rewrite !Z.max_id, !Z.min_id. f_equal; lia.
Qed.

Lemma iou_matches_false (a : Box) (hd : HandData) :
  (box_iou a (box hd) <= IOU_THRESHOLD)%Q -> iou_matches a hd = false.
Proof.
  intros H. unfold iou_matches. apply Qle_bool_iff in H. now rewrite H.
Qed.

Lemma midpoint_between (lo hi : Z) : lo <= hi -> lo <= (lo + hi) / 2 <= hi.
Proof.
  intros H. split.
  - apply Z.div_le_lower_bound; lia.
  - apply Z.div_le_upper_bound; lia.
Qed.

Lemma is_scooper_at_pizza_existsb (l : list Box) (pb : Box) :
  is_scooper_at_pizza l pb = existsb (scooper_near pb) l.
Proof.
  unfold is_scooper_at_pizza, scooper_near.
  induction l as [| s l IH]; cbn; [reflexivity |].
  destruct (center_in_expanded (box_center s) pb (4 # 10)); [reflexivity | exact IH].
Qed.

Lemma center_in_expanded_spec (hx hy : Z) (pb : Box) (m : Q) :
  center_in_expanded (hx, hy) pb m = true <->
  let '(px1, py1, px2, py2) := pb in
  (inject_Z px1 - inject_Z (px2 - px1) * m <= inject_Z hx)%Q
  /\ (inject_Z hx <= inject_Z px2 + inject_Z (px2 - px1) * m)%Q
  /\ (inject_Z py1 - inject_Z (py2 - py1) * m <= inject_Z hy)%Q
  /\ (inject_Z hy <= inject_Z py2 + inject_Z (py2 - py1) * m)%Q.
Proof.
  destruct pb as [[[px1 py1] px2] py2]. unfold center_in_expanded.
  rewrite !andb_true_iff, !Qle_bool_iff. tauto.
Qed.

End MoreGeometry.

(** X1.  [box_iou] does not depend on the order of its two boxes. *)
Theorem box_iou_symmetric (a b : Box) : box_iou a b = box_iou b a.
Proof.
  unfold box_iou, union_area. rewrite (inter_area_comm a b).
  now rewrite (Z.add_comm (box_area a)).
Qed.

(** X2.  A box with [x1 < x2] and [y1 < y2] overlaps itself with ratio 1,
    so a hand whose stored box is the incoming box passes the matching
    test of line 123. *)
Theorem box_matches_itself (b : Box) (hd : HandData) :
  box_valid b ->
  (box_iou b b == 1)%Q /\ (box hd = b -> iou_matches b hd = true).
Proof.
  intros Hv. pose proof (box_area_pos b Hv) as Hpos.
  assert (Hu : union_area b b = box_area b)
    by (unfold union_area; rewrite inter_area_self by assumption; lia).
  assert (Hq : (box_iou b b == 1)%Q).
  { unfold box_iou. rewrite Hu, inter_area_self by assumption.
    destruct (0 <? box_area b) eqn:E; [| apply Z.ltb_ge in E; lia].
    destruct (box_area b) as [| p | p]; try lia.
    unfold Qdiv, Qinv, Qmult, Qeq, inject_Z; cbn. lia. }
  split; [exact Hq |]. intros Hb. unfold iou_matches. rewrite Hb.
  destruct (Qle_bool (box_iou b b) IOU_THRESHOLD) eqn:E; [| reflexivity].
  apply Qle_bool_iff in E. rewrite Hq in E. unfold IOU_THRESHOLD, Qle in E.
  cbn in E. lia.
Qed.

Lemma box_matches_itself_witness :
  (box_iou (440, 330, 520, 400)%Z (440, 330, 520, 400)%Z == 1)%Q
  /\ iou_matches Scenario.hand_in_region
       (mkHand Scenario.hand_in_region in_roi 3 "Cheese") = true.
Proof.
  destruct (box_matches_itself Scenario.hand_in_region
              (mkHand Scenario.hand_in_region in_roi 3 "Cheese")) as [H1 H2].
  - unfold box_valid, Scenario.hand_in_region. lia.
  - split; [exact H1 | apply H2; reflexivity].
Defined.

(** X3.  A box of non-positive area matches no hand, and no box matches a
    hand whose stored box has non-positive area: the overlap ratio is 0,
    which is not above the threshold. *)
Theorem degenerate_box_never_matches (a : Box) (hd : HandData) :
  box_area a <= 0 \/ box_area (box hd) <= 0 -> iou_matches a hd = false.
Proof.
  intros H. apply iou_matches_false.
  rewrite (box_iou_zero_of_no_overlap a (box hd)
             (nonpositive_area_no_overlap a (box hd) H)).
  unfold IOU_THRESHOLD, Qle. cbn. lia.
Qed.

Lemma degenerate_box_never_matches_witness :
  iou_matches (480, 360, 480, 380)
    (mkHand (480, 360, 480, 380) in_roi 0 "Cheese") = false.
Proof.
  apply degenerate_box_never_matches. left. cbn. lia.
Defined.

(** X4.  The centre computed by [box_center] lies within the box when
    [x1 <= x2] and [y1 <= y2]; so a box that lies inside the rectangle of a
    region is in that region. *)
Theorem box_inside_region_is_in_roi (b : Box) (roi : Roi) :
  let '(x1, y1, x2, y2) := b in
  x1 <= x2 -> y1 <= y2 ->
  roi_x roi <= x1 -> x2 <= roi_x roi + roi_w roi ->
  roi_y roi <= y1 -> y2 <= roi_y roi + roi_h roi ->
  (x1 <= fst (box_center b) <= x2 /\ y1 <= snd (box_center b) <= y2)
  /\ is_in_roi b roi = true.
Proof.
  destruct b as [[[x1 y1] x2] y2]. intros Hx Hy H1 H2 H3 H4.
  pose proof (midpoint_between x1 x2 Hx) as Mx.
  pose proof (midpoint_between y1 y2 Hy) as My.
  split; [cbn; auto |].
  unfold is_in_roi, box_center.
  rewrite !andb_true_iff, !Z.leb_le. lia.
Qed.

Lemma box_inside_region_is_in_roi_witness :
  is_in_roi (460, 355, 500, 380) Scenario.cheese = true.
Proof.
  apply (box_inside_region_is_in_roi (460, 355, 500, 380) Scenario.cheese);
    cbn; lia.
Defined.

(** X5.  A region whose width or height is negative contains no box. *)
Theorem negative_region_is_empty (b : Box) (roi : Roi) :
  roi_w roi < 0 \/ roi_h roi < 0 -> is_in_roi b roi = false.
Proof.
  intros H. unfold is_in_roi. destruct (box_center b) as [cx cy].
  destruct ((roi_x roi <=? cx) && (cx <=? roi_x roi + roi_w roi)
            && (roi_y roi <=? cy) && (cy <=? roi_y roi + roi_h roi)) eqn:E;
    [| reflexivity].
  rewrite !andb_true_iff, !Z.leb_le in E. lia.
Qed.

Lemma negative_region_is_empty_witness :
  is_in_roi (0, 0, 10, 10) (mkRoi "Cheese" 0 0 (-1) 50) = false.
Proof.
  apply negative_region_is_empty. left. cbn. lia.
Defined.

(** X6.  [is_scooper_at_pizza] answers whether some box of the list passes
    the proximity test: it is false on the empty list, it is the
    disjunction over the two parts of a concatenation, and it does not depend
    on the order of the boxes. *)
Theorem scooper_evidence_is_existential (pb : Box) :
  is_scooper_at_pizza [] pb = false
  /\ (forall l, is_scooper_at_pizza l pb = true <->
                exists s, In s l /\ scooper_near pb s = true)
  /\ (forall l1 l2,
        is_scooper_at_pizza (l1 ++ l2) pb
        = is_scooper_at_pizza l1 pb || is_scooper_at_pizza l2 pb)
  /\ (forall l l', Permutation l l' ->
                   is_scooper_at_pizza l pb = is_scooper_at_pizza l' pb).
Proof.
  split; [reflexivity |]. split.
  { intros l. rewrite is_scooper_at_pizza_existsb. apply existsb_exists. }
  split.
  { intros l1 l2. rewrite !is_scooper_at_pizza_existsb. apply existsb_app. }
  intros l l' Hp. rewrite !is_scooper_at_pizza_existsb.
  induction Hp as [| x l l' _ IH | x y l | l l' l'' _ IH1 _ IH2]; cbn.
  - reflexivity.
  - now rewrite IH.
  - now rewrite !orb_assoc, (orb_comm (scooper_near pb y)).
  - now rewrite IH1.
Qed.

Lemma scooper_evidence_is_existential_witness :
  is_scooper_at_pizza [Scenario.far_scooper; Scenario.near_scooper] Scenario.pizza
  = is_scooper_at_pizza [Scenario.near_scooper; Scenario.far_scooper] Scenario.pizza.
Proof.
  destruct (scooper_evidence_is_existential Scenario.pizza) as (_ & _ & _ & H).
  apply H. apply perm_swap.
Defined.

(** X7.  For a pizza box with [px1 <= px2] and [py1 <= py2] the proximity
    test is monotone in the margin.  In particular a box that counts as
    scooper evidence (margin 0.4) is also near the pizza in the sense used
    for hands (margin 0.5). *)
Theorem proximity_grows_with_margin (c : Z * Z) (pb : Box) (m m' : Q) :
  let '(px1, py1, px2, py2) := pb in
  px1 <= px2 -> py1 <= py2 ->
  (m <= m')%Q ->
  (center_in_expanded c pb m = true -> center_in_expanded c pb m' = true)
  /\ (forall b, is_scooper_at_pizza [b] pb = true -> is_near_pizza b pb = true).
Proof.
  destruct pb as [[[px1 py1] px2] py2]. intros Hx Hy Hm.
  assert (Hmono : forall (c0 : Z * Z) (a a' : Q), (a <= a')%Q ->
             center_in_expanded c0 (px1, py1, px2, py2) a = true ->
             center_in_expanded c0 (px1, py1, px2, py2) a' = true).
  { intros [hx hy] a a' Ha. rewrite !center_in_expanded_spec.
    assert (Hw : (0 <= inject_Z (px2 - px1))%Q)
      by (unfold Qle, inject_Z; cbn; lia).
    assert (Hh : (0 <= inject_Z (py2 - py1))%Q)
      by (unfold Qle, inject_Z; cbn; lia).
    assert (Hwm : (inject_Z (px2 - px1) * a <= inject_Z (px2 - px1) * a')%Q).
    { rewrite !(Qmult_comm (inject_Z (px2 - px1))).
      now apply Qmult_le_compat_r. }
    assert (Hhm : (inject_Z (py2 - py1) * a <= inject_Z (py2 - py1) * a')%Q).
    { rewrite !(Qmult_comm (inject_Z (py2 - py1))).
      now apply Qmult_le_compat_r. }
    intros (H1 & H2 & H3 & H4). repeat split; lra. }
  split; [apply Hmono, Hm |].
  intros b. unfold is_scooper_at_pizza, is_near_pizza, is_near_pizza_margin.
  cbn [is_scooper_at_pizza_margin].
  destruct (center_in_expanded (box_center b) (px1, py1, px2, py2) (4 # 10)) eqn:E;
    [| discriminate].
  intros _. apply (Hmono _ (4 # 10) (5 # 10)); [| exact E].
  unfold Qle. cbn. lia.
Qed.

Lemma proximity_grows_with_margin_witness :
  is_near_pizza Scenario.near_scooper Scenario.pizza = true.
Proof.
  destruct (proximity_grows_with_margin (0, 0) Scenario.pizza (4 # 10) (5 # 10))
    as [_ H].
  - lia.
  - lia.
  - unfold Qle. cbn. lia.
  - apply H. vm_compute. reflexivity.
Defined.

(** X8.  A box whose centre lies inside the pizza box is near it for every
    margin that is not negative, so for both margins the tracker uses. *)
Theorem centre_inside_pizza_is_near (b : Box) (pb : Box) (m : Q) :
  let '(px1, py1, px2, py2) := pb in
  px1 <= fst (box_center b) <= px2 ->
  py1 <= snd (box_center b) <= py2 ->
  ((0 <= m)%Q -> center_in_expanded (box_center b) pb m = true)
  /\ is_near_pizza b pb = true
  /\ is_scooper_at_pizza [b] pb = true.
Proof.
  destruct pb as [[[px1 py1] px2] py2]. intros Hx Hy.
  destruct (box_center b) as [hx hy] eqn:Ec. cbn [fst snd] in Hx, Hy.
  assert (Hin : forall a, (0 <= a)%Q ->
                  center_in_expanded (hx, hy) (px1, py1, px2, py2) a = true).
  { intros a Ha. apply center_in_expanded_spec.
    assert (Hw : (0 <= inject_Z (px2 - px1) * a)%Q).
    { apply Qmult_le_0_compat; [| assumption].
      unfold Qle, inject_Z; cbn; lia. }
    assert (Hh : (0 <= inject_Z (py2 - py1) * a)%Q).
    { apply Qmult_le_0_compat; [| assumption].
      unfold Qle, inject_Z; cbn; lia. }
    assert (Z1 : (inject_Z px1 <= inject_Z hx)%Q) by (rewrite <- Zle_Qle; lia).
    assert (Z2 : (inject_Z hx <= inject_Z px2)%Q) by (rewrite <- Zle_Qle; lia).
    assert (Z3 : (inject_Z py1 <= inject_Z hy)%Q) by (rewrite <- Zle_Qle; lia).
    assert (Z4 : (inject_Z hy <= inject_Z py2)%Q) by (rewrite <- Zle_Qle; lia).
    repeat split; lra. }
  split; [apply Hin |].
  unfold is_near_pizza, is_near_pizza_margin, is_scooper_at_pizza.
  cbn [is_scooper_at_pizza_margin]. rewrite Ec.
  rewrite !Hin by (unfold Qle; cbn; lia). auto.
Qed.

Lemma centre_inside_pizza_is_near_witness :
  is_near_pizza (470, 130, 490, 150) Scenario.pizza = true
  /\ is_scooper_at_pizza [(470, 130, 490, 150)] Scenario.pizza = true.
Proof.
  apply (centre_inside_pizza_is_near (470, 130, 490, 150) Scenario.pizza 0);
    cbn; lia.
Defined.

(** ** The tracker: where hands, pending checks and violations come from *)

Section Origins.

Lemma hand_after_name rs pizza_boxes hand_box hd :
  h_roi_name (hand_after rs pizza_boxes hand_box hd)
  = match find_roi rs hand_box with
    | Some roi => roi_name roi
    | None => h_roi_name hd
    end.
Proof.
  unfold hand_after, transition.
  destruct (find_roi rs hand_box); [reflexivity |].
  destruct (state hd); try reflexivity.
  destruct (find (is_near_pizza hand_box) pizza_boxes); reflexivity.
Qed.

Lemma find_roi_In rs hand_box roi :
  find_roi rs hand_box = Some roi -> In roi rs /\ is_in_roi hand_box roi = true.
Proof. unfold find_roi. apply find_some. Qed.

(** Every hand live after a call was matched in it, was left unmatched and
    has not passed its timeout, or was created in it. *)
Lemma step_hand_origin t f k hd' :
  inv t ->
  dict_get k (hands (step t f)) = Some hd' ->
  (exists hand_box hd,
      In k (matched_in t f)
      /\ In hand_box (f_hands f)
      /\ dict_get k (hands t) = Some hd
      /\ iou_matches hand_box hd = true
      /\ (hd' = hand_after (rois t) (f_pizzas f) hand_box hd
          \/ hd' = set_done (hand_after (rois t) (f_pizzas f) hand_box hd)))
  \/ (exists hd,
         ~ In k (matched_in t f)
         /\ dict_get k (hands t) = Some hd
         /\ (hd' = age hd \/ hd' = age (set_done hd))
         /\ (frames_since_update hd' <= timeout_of (state hd'))%nat)
  \/ (exists hand_box roi,
         In k (created_in t f)
         /\ In hand_box (f_hands f)
         /\ find_roi (rois t) hand_box = Some roi
         /\ hd' = mkHand hand_box in_roi 1 (roi_name roi)).
Proof.
  intros Hinv Hg'.
  destruct (step_cases t f k Hinv)
    as [(hd & Hg & Hm) | [(hd & Hg & Hm) | [(Hg & Hc) | (Hg & Hc)]]].
  - left. destruct (step_matched t f k Hinv Hm)
      as (b & hd0 & Hb & Hg0 & Hi & _ & Hh & _). cbv zeta in Hh.
    exists b, hd0. repeat (split; [assumption |]).
    rewrite Hg' in Hh. injection Hh as ->. unfold arbitrate.
    destruct (match opened_for (rois t) (f_pizzas f) b hd0 with
              | Some pb => Some (fresh_pending (f_num f) pb hd0)
              | None => dict_get k (pending_violations t)
              end) as [p |]; [| now left].
    destruct (resolves (scoopers_seen t f) p); cbn [fst]; auto.
  - right. left. exists hd.
    pose proof (step_unmatched t f k hd Hinv Hg Hm) as Hs. cbv zeta in Hs.
    destruct (Nat.ltb_spec
                (timeout_of (state (fst (arbitrate (scoopers_seen t f) hd
                                           (dict_get k (pending_violations t))))))
                (S (frames_since_update
                      (fst (arbitrate (scoopers_seen t f) hd
                              (dict_get k (pending_violations t)))))))
      as [Hlt | Hge]; destruct Hs as [Hh _]; [congruence |].
    rewrite Hg' in Hh. injection Hh as ->.
    split; [assumption |]. split; [assumption |].
    unfold arbitrate in *.
    destruct (dict_get k (pending_violations t)) as [p |];
      [destruct (resolves (scoopers_seen t f) p) |];
      cbn [fst age state frames_since_update set_done] in *; auto.
  - right. right. destruct (step_created t f k Hinv Hc) as (b & roi & Hb & Hr & Hh & _).
    exists b, roi. repeat (split; [assumption |]). congruence.
  - destruct (step_absent t f k Hinv Hg Hc). congruence.
Qed.

(** Every pending check open after a call was found by the arbitration
    loop, was not resolved, and has its counter advanced. *)
Lemma step_pending_origin t f k p' :
  inv t ->
  dict_get k (pending_violations (step t f)) = Some p' ->
  exists p,
    dict_get k (pending_at_arbitration t f) = Some p
    /\ resolves (scoopers_seen t f) p = false
    /\ p' = tick p.
Proof.
  intros Hinv Hp'. destruct (step_get t f Hinv k) as [_ Hp]. cbv zeta in Hp.
  rewrite Hp' in Hp.
  destruct (dict_get k (pending_at_arbitration t f)) as [p |].
  - exists p. split; [reflexivity |].
    destruct (resolves (scoopers_seen t f) p).
    + destruct (match option_map set_done (dict_get k (hands_at_arbitration t f))
                with Some h => expired (matched_in t f) (k, h) | None => false end);
        discriminate.
    + destruct (match dict_get k (hands_at_arbitration t f)
                with Some h => expired (matched_in t f) (k, h) | None => false end);
        [discriminate |]. cbn in Hp. split; [reflexivity | congruence].
  - destruct (match dict_get k (hands_at_arbitration t f)
              with Some h => expired (matched_in t f) (k, h) | None => false end);
      discriminate.
Qed.

(** A pending check found by the arbitration loop was open before the call
    or was written by the matching loop for a live, matched hand. *)
Lemma pending_at_arbitration_origin t f k p :
  inv t ->
  dict_get k (pending_at_arbitration t f) = Some p ->
  dict_get k (pending_violations t) = Some p
  \/ (exists hand_box hd pb,
         In k (matched_in t f)
         /\ In hand_box (f_hands f)
         /\ dict_get k (hands t) = Some hd
         /\ opened_for (rois t) (f_pizzas f) hand_box hd = Some pb
         /\ p = fresh_pending (f_num f) pb hd).
Proof.
  intros Hinv Hp.
  pose proof (phase_facts t f Hinv) as (_ & Hsame & Hmt & _).
  destruct (in_dec Nat.eq_dec k (matched_in t f)) as [Hm | Hm].
  - destruct (Hmt k Hm) as (b & hd & Hb & Hg & _ & _ & Hp1).
    rewrite Hp in Hp1.
    destruct (opened_for (rois t) (f_pizzas f) b hd) as [pb |] eqn:Eo.
    + right. exists b, hd, pb. injection Hp1 as ->. auto 10.
    + left. congruence.
  - left. now rewrite <- (Hsame k Hm).
Qed.

Lemma pending_at_arbitration_live t f k p :
  inv t ->
  dict_get k (pending_at_arbitration t f) = Some p ->
  exists hd, dict_get k (hands t) = Some hd.
Proof.
  intros Hinv Hp.
  destruct (pending_at_arbitration_origin t f k p Hinv Hp)
    as [Hold | (b & hd & pb & _ & _ & Hg & _)].
  - destruct (inv_pending_key t k p Hinv Hold) as (hd & Hg & _). eauto.
  - eauto.
Qed.

Lemma step_next_id_le t f : inv t -> (next_id t <= next_id (step t f))%nat.
Proof.
  intros Hinv. now pose proof (phase_facts t f Hinv) as (_ & _ & _ & _ & H & _).
Qed.

Lemma inv_more_init rs : inv_more (init rs).
Proof. constructor; cbn; try discriminate. intros v []. Qed.

Lemma inv_more_step t f : inv t -> inv_more t -> inv_more (step t f).
Proof.
  intros Hinv [Hhn Hpn Hps Hhc Hv].
  assert (Hnames : region_names (step t f) = region_names t)
    by (unfold region_names; now rewrite step_rois).
  assert (Hpa : forall k p, dict_get k (pending_at_arbitration t f) = Some p ->
                            In (p_roi_name p) (region_names t)).
  { intros k p Hp.
    destruct (pending_at_arbitration_origin t f k p Hinv Hp)
      as [Hold | (b & hd & pb & _ & _ & Hg & _ & ->)]; [eauto |].
    cbn. eauto. }
  constructor; rewrite ?Hnames.
  - intros k hd' Hg'.
    destruct (step_hand_origin t f k hd' Hinv Hg')
      as [(b & hd & _ & _ & Hg & _ & Hd) | [(hd & _ & Hg & Hd & _)
           | (b & roi & _ & _ & Hr & ->)]].
    + assert (Hn : In (h_roi_name (hand_after (rois t) (f_pizzas f) b hd))
                      (region_names t)).
      { rewrite hand_after_name.
        destruct (find_roi (rois t) b) as [roi |] eqn:Er; [| eauto].
        apply find_roi_In in Er as [Hin _]. now apply in_map. }
      destruct Hd as [-> | ->]; exact Hn.
    + destruct Hd as [-> | ->]; cbn; eauto.
    + cbn. apply find_roi_In in Hr as [Hin _]. now apply in_map.
  - intros k p' Hp'.
    destruct (step_pending_origin t f k p' Hinv Hp') as (p & Hp & _ & ->).
    cbn. eauto.
  - intros k p' Hp'.
    destruct (step_pending_origin t f k p' Hinv Hp') as (p & _ & _ & ->).
    cbn. lia.
  - intros k hd' Hg'.
    destruct (step_hand_origin t f k hd' Hinv Hg')
      as [(b & hd & _ & _ & Hg & _ & Hd) | [(hd & _ & Hg & _ & Hb)
           | (b & roi & _ & _ & Hr & ->)]].
    + destruct Hd as [-> | ->]; cbn [set_done frames_since_update];
        rewrite hand_after_counter; lia.
    + exact Hb.
    + cbn. unfold HAND_TIMEOUT_FRAMES. lia.
  - intros v. rewrite step_violations, in_app_iff.
    pose proof (step_next_id_le t f Hinv) as Hle.
    intros [Hin | Hin].
    + destruct (Hv v Hin). split; [assumption | lia].
    + apply (emitted_In t f v Hinv) in Hin as (k & p & Hp & _ & ->). cbn.
      split; [eauto |].
      destruct (pending_at_arbitration_live t f k p Hinv Hp) as (hd & Hg).
      pose proof (inv_get_fresh t k hd Hinv Hg). lia.
Qed.

Lemma inv_more_run frames :
  forall t, inv t -> inv_more t -> inv_more (run t frames).
Proof.
  unfold run. induction frames as [| f frames IH]; intros t Hi Hm; cbn;
    [assumption |].
  apply IH; [now apply inv_step | now apply inv_more_step].
Qed.

Lemma NoDup_keys_filter {V : Type} (g : nat * V -> bool) (d : dict V) :
  NoDup (dict_keys d) -> NoDup (dict_keys (filter g d)).
Proof.
  induction d as [| [k v] d IH]; cbn; [trivial |].
  intros Hnd. inversion Hnd as [| ? ? Hnot Hnd']; subst.
  destruct (g (k, v)); cbn; [| now apply IH].
  constructor; [| now apply IH].
  intros Hin. apply Hnot. apply in_map_iff in Hin as ([k' v'] & <- & Hf).
  apply filter_In in Hf as [Hf _]. change k' with (fst (k', v')). now apply in_map.
Qed.

End Origins.

(** ** The tracker: counting and ordering *)

Section Counting.

Lemma match_all_counts rs pizza_boxes frame_num :
  forall hand_boxes hs m pend hs' m' pend' new_hands,
    NoDup (dict_keys hs) ->
    NoDup m ->
    match_all rs pizza_boxes frame_num hand_boxes hs m pend
    = (hs', m', pend', new_hands) ->
    NoDup m'
    /\ (List.length m' + List.length new_hands
        = List.length m + List.length hand_boxes)%nat.
Proof.
  induction hand_boxes as [| hb more IH];
    intros hs m pend hs' m' pend' nh Hnd Hm; cbn.
  - intros [= <- <- <- <-]. cbn. split; [assumption | lia].
  - destruct (match_hand rs pizza_boxes frame_num hb hs m pend)
      as [[[hs1 m1] p1] |] eqn:E.
    + intros Hall.
      destruct (match_hand_Some rs pizza_boxes frame_num hb _ _ _ _ _ _ Hnd E)
        as (k0 & hd0 & _ & Hm0 & _ & -> & -> & _).
      apply set_mem_not_In in Hm0.
      destruct (IH _ _ _ _ _ _ _ (eq_ind_r (fun l => NoDup l) Hnd
                                    (dict_keys_update k0 _ hs))
                  (NoDup_cons k0 Hm0 Hm) Hall) as [Hn Hl].
      split; [assumption |]. cbn in Hl. lia.
    + destruct (match_all rs pizza_boxes frame_num more hs m pend)
        as [[[hs1 m1] p1] nh1] eqn:Hall.
      intros [= <- <- <- <-].
      destruct (IH _ _ _ _ _ _ _ Hnd Hm Hall) as [Hn Hl].
      split; [assumption |]. cbn. lia.
Qed.

Lemma add_new_hands_count rs :
  forall new_hands hs nid hs' nid' created,
    add_new_hands rs new_hands hs nid = (hs', nid', created) ->
    List.length created = List.length (filter (in_some_region rs) new_hands)
    /\ nid' = (nid + List.length created)%nat.
Proof.
  induction new_hands as [| hb more IH]; intros hs nid hs' nid' created; cbn.
  - intros [= <- <- <-]. cbn. split; [reflexivity | lia].
  - unfold in_some_region at 1. destruct (find_roi rs hb) as [roi |].
    + destruct (add_new_hands rs more _ (S nid)) as [[hs1 nid1] c1] eqn:E.
      intros [= <- <- <-]. destruct (IH _ _ _ _ _ E) as [Hl Hn].
      cbn. split; [now rewrite Hl | lia].
    + intros E. exact (IH _ _ _ _ _ E).
Qed.

(** The keys of the live hands after a call are those found by the
    arbitration loop, less the evicted ones, in the same order. *)
Lemma dict_keys_del_filter {V : Type} k (d : dict V) :
  dict_keys (dict_del k d) = filter (fun x => negb (Nat.eqb k x)) (dict_keys d).
Proof.
  induction d as [| [k0 v0] d IH]; cbn; [reflexivity |].
  destruct (Nat.eqb k k0); cbn; [exact IH | now rewrite IH].
Qed.

Lemma sorted_filter (g : nat -> bool) (l : list nat) :
  StronglySorted lt l -> StronglySorted lt (filter g l).
Proof.
  induction l as [| x l IH]; cbn; intros H; [constructor |].
  inversion H as [| ? ? Hs Hall]; subst.
  destruct (g x); [| now apply IH].
  constructor; [now apply IH |].
  apply Forall_forall. intros y Hy. apply filter_In in Hy as [Hy _].
  now apply (proj1 (Forall_forall _ _) Hall).
Qed.

Lemma sorted_keys_del_all {V : Type} ks (d : dict V) :
  StronglySorted lt (dict_keys d) ->
  StronglySorted lt (dict_keys (dict_del_all ks d)).
Proof.
  unfold dict_del_all. revert d.
  induction ks as [| k ks IH]; intros d H; cbn; [assumption |].
  apply IH. rewrite dict_keys_del_filter. now apply sorted_filter.
Qed.

Lemma sorted_app_seq (l : list nat) n c :
  StronglySorted lt l -> (forall k, In k l -> (k < n)%nat) ->
  StronglySorted lt (l ++ seq n c).
Proof.
  induction l as [| x l IH]; cbn; intros Hs Hlt; [apply seq_sorted |].
  inversion Hs as [| ? ? Hs' Hall]; subst.
  constructor; [apply IH; auto |].
  apply Forall_forall. intros y Hy. apply in_app_or in Hy as [Hy | Hy].
  - now apply (proj1 (Forall_forall _ _) Hall).
  - apply in_seq in Hy. specialize (Hlt x (or_introl eq_refl)). lia.
Qed.

Lemma step_keys_sorted t f :
  inv t ->
  StronglySorted lt (dict_keys (hands t)) ->
  StronglySorted lt (dict_keys (hands (step t f))).
Proof.
  intros Hinv Hs.
  pose proof (phase_facts t f Hinv) as (_ & _ & _ & _ & _ & Hcr & Hk2 & _).
  revert Hk2. unfold hands_at_arbitration, step, update.
  destruct (update_full_phases t (f_hands f) (f_scoopers f) (f_pizzas f) (f_num f))
    as (hs1 & m & pend1 & nh & hs2 & nid & created & pend2 & hs3 & nv
        & resolved & hs4 & lost & pend4 & P1 & P2 & P3 & P4 & ->).
  rewrite P1, P2. intros Hk2.
  destruct (check_pending_spec _ _ _ _ _ _ _ _ P3) as (_ & _ & _ & Hk3 & _).
  destruct (age_hands_spec _ _ _ _ _ _ P4) as (-> & _ & _).
  cbn [fst hands]. apply sorted_keys_del_all.
  rewrite (dict_keys_map_values (fun k h => if set_mem k m then h else age h)).
  rewrite Hk3, Hk2, Hcr. apply sorted_app_seq; [assumption | apply (inv_fresh t Hinv)].
Qed.

Lemma run_keys_sorted rs frames :
  StronglySorted lt (dict_keys (hands (run (init rs) frames))).
Proof.
  induction frames as [| f frames IH] using rev_ind; [constructor |].
  rewrite run_snoc. apply step_keys_sorted; [apply inv_run, inv_init | exact IH].
Qed.

(** With nothing matched yet, the inner loop picks the first hand, in
    insertion order, that overlaps the box enough. *)
Lemma match_hand_first rs pizza_boxes frame_num hand_box pend :
  forall hs,
    option_map (fun r => snd (fst r))
      (match_hand rs pizza_boxes frame_num hand_box hs [] pend)
    = option_map (fun kh => [fst kh])
        (find (fun kh => iou_matches hand_box (snd kh)) hs).
Proof.
  induction hs as [| [k hd] hs IH]; cbn; [reflexivity |].
  destruct (iou_matches hand_box hd); cbn.
  - rewrite transition_eq. reflexivity.
  - destruct (match_hand rs pizza_boxes frame_num hand_box hs [] pend)
      as [[[r m] p] |]; cbn in *; exact IH.
Qed.

Lemma all_missing_is_empty {V : Type} (d : dict V) :
  (forall k, dict_get k d = None) -> d = [].
Proof.
  destruct d as [| [k v] d]; [reflexivity |].
  intros H. specialize (H k). cbn in H. now rewrite Nat.eqb_refl in H.
Qed.

End Counting.

(** ** The tracker: further properties of sessions *)

Section SessionFacts.

Lemma run_inv rs frames : inv (run (init rs) frames).
Proof. apply inv_run, inv_init. Qed.

Lemma run_inv_more rs frames : inv_more (run (init rs) frames).
Proof. apply inv_more_run; [apply inv_init | apply inv_more_init]. Qed.

Lemma run_init_rois rs frames : rois (run (init rs) frames) = rs.
Proof. now rewrite run_rois. Qed.

Lemma created_in_region t f k :
  inv t ->
  In k (created_in t f) ->
  (next_id t <= k < next_id (step t f))%nat
  /\ dict_get k (hands t) = None
  /\ exists hand_box roi,
       In hand_box (f_hands f)
       /\ In roi (rois t)
       /\ is_in_roi hand_box roi = true
       /\ dict_get k (hands (step t f))
          = Some (mkHand hand_box in_roi 1 (roi_name roi)).
Proof.
  intros Hinv Hc.
  pose proof (phase_facts t f Hinv) as (_ & _ & _ & _ & _ & Hcr & _).
  assert (Hr : (next_id t <= k < next_id (step t f))%nat)
    by (rewrite Hcr in Hc; apply in_seq in Hc; lia).
  split; [exact Hr |]. split.
  - apply dict_get_None. intros H. apply (inv_fresh t Hinv) in H. lia.
  - destruct (step_created t f k Hinv Hc) as (b & roi & Hb & Hf & Hh & _).
    apply find_roi_In in Hf as [Hin His]. exists b, roi. auto.
Qed.

Lemma no_creation_outside_regions t f :
  inv t ->
  (forall hb, In hb (f_hands f) -> find_roi (rois t) hb = None) ->
  created_in t f = [] /\ next_id (step t f) = next_id t.
Proof.
  intros Hinv Hout.
  pose proof (phase_facts t f Hinv) as (_ & _ & _ & _ & Hle & Hcr & _).
  destruct (created_in t f) as [| k l] eqn:E.
  - split; [reflexivity |].
    apply (f_equal (@List.length nat)) in Hcr. rewrite length_seq in Hcr.
    cbn in Hcr. lia.
  - exfalso. assert (Hc : In k (created_in t f)) by (rewrite E; now left).
    destruct (step_created t f k Hinv Hc) as (b & roi & Hb & Hf & _).
    rewrite (Hout b Hb) in Hf. discriminate.
Qed.

Lemma untracked_session rs frames :
  (forall f hb, In f frames -> In hb (f_hands f) -> find_roi rs hb = None) ->
  hands (run (init rs) frames) = []
  /\ pending_violations (run (init rs) frames) = []
  /\ violations (run (init rs) frames) = []
  /\ next_id (run (init rs) frames) = 0%nat.
Proof.
  induction frames as [| f frames IH] using rev_ind; intros Hout;
    [cbn; auto |].
  destruct IH as (Hh & Hp & Hv & Hn).
  { intros g hb Hg. apply Hout. apply in_or_app. now left. }
  rewrite run_snoc. set (t := run (init rs) frames) in *.
  assert (Hinv : inv t) by apply run_inv.
  assert (Hrs : rois t = rs) by apply run_init_rois.
  assert (Hout' : forall hb, In hb (f_hands f) -> find_roi (rois t) hb = None).
  { intros hb Hb. rewrite Hrs. apply (Hout f hb); [| assumption].
    apply in_or_app. right. now left. }
  destruct (no_creation_outside_regions t f Hinv Hout') as [Hc Hn'].
  assert (Hh' : hands (step t f) = []).
  { apply all_missing_is_empty. intros k.
    destruct (dict_get k (hands (step t f))) as [hd' |] eqn:E; [| reflexivity].
    destruct (step_hand_origin t f k hd' Hinv E)
      as [(b & hd & _ & _ & Hg & _) | [(hd & _ & Hg & _) | (b & roi & Hin & _)]].
    - rewrite Hh in Hg. discriminate.
    - rewrite Hh in Hg. discriminate.
    - rewrite Hc in Hin. destruct Hin. }
  split; [exact Hh' |]. split.
  - apply all_missing_is_empty. intros k.
    destruct (dict_get k (pending_violations (step t f))) as [p |] eqn:E;
      [| reflexivity].
    destruct (inv_pending_key _ k p (inv_step t f Hinv) E) as (hd & Hg & _).
    rewrite Hh' in Hg. discriminate.
  - split; [| congruence].
    rewrite step_violations, Hv.
    now rewrite (no_pending_no_violation t f Hinv Hp).
Qed.

Lemma outputs_frames frames :
  forall t v, In v (List.concat (outputs t frames)) ->
              In (v_frame v) (map f_num frames).
Proof.
  induction frames as [| f frames IH]; intros t v; cbn; [trivial |].
  rewrite in_app_iff. intros [Hin | Hin].
  - left. rewrite emitted_eq in Hin.
    apply in_map_iff in Hin as (kp & <- & _). reflexivity.
  - right. eapply IH; eauto.
Qed.

Lemma sorted_app_const (a : Z) (l1 l2 : list Z) :
  (forall x, In x l1 -> x = a) ->
  StronglySorted Z.le l2 ->
  (forall y, In y l2 -> a <= y) ->
  StronglySorted Z.le (l1 ++ l2).
Proof.
  intros H1 H2 H3. induction l1 as [| x l1 IH]; cbn; [assumption |].
  constructor; [apply IH; intros y Hy; apply H1; now right |].
  apply Forall_forall. intros y Hy.
  rewrite (H1 x (or_introl eq_refl)).
  apply in_app_or in Hy as [Hy | Hy].
  - rewrite (H1 y (or_intror Hy)). lia.
  - now apply H3.
Qed.

Lemma outputs_sorted frames :
  forall t, StronglySorted Z.le (map f_num frames) ->
            StronglySorted Z.le (map v_frame (List.concat (outputs t frames))).
Proof.
  induction frames as [| f frames IH]; intros t Hs; cbn; [constructor |].
  cbn in Hs. inversion Hs as [| ? ? Hs' Hall]; subst.
  rewrite map_app. apply (sorted_app_const (f_num f)).
  - intros x Hx. apply in_map_iff in Hx as (v & <- & Hv).
    rewrite emitted_eq in Hv. apply in_map_iff in Hv as (kp & <- & _). reflexivity.
  - now apply IH.
  - intros y Hy. apply in_map_iff in Hy as (v & <- & Hv).
    apply outputs_frames in Hv.
    now apply (proj1 (Forall_forall _ _) Hall).
Qed.

Lemma existsb_false_forall {A : Type} (g : A -> bool) (l : list A) :
  existsb g l = false -> forall x, In x l -> g x = false.
Proof.
  intros H x Hx. destruct (g x) eqn:E; [| reflexivity].
  assert (Ht : existsb g l = true) by (apply existsb_exists; eauto).
  congruence.
Qed.

Lemma find_first_sorted {V : Type} (g : nat * V -> bool) (d : dict V) x :
  StronglySorted lt (dict_keys d) ->
  find g d = Some x ->
  forall y, In y d -> g y = true -> (fst x <= fst y)%nat.
Proof.
  induction d as [| z d IH]; cbn; [discriminate |].
  intros Hs. inversion Hs as [| ? ? Hs' Hall]; subst.
  destruct (g z) eqn:Eg.
  - intros [= <-] y [<- | Hy] _; [lia |].
    assert (In (fst y) (dict_keys d)) by now apply in_map.
    pose proof (proj1 (Forall_forall _ _) Hall (fst y) H). lia.
  - intros Hf y [<- | Hy] Hg; [congruence |]. now apply IH.
Qed.

End SessionFacts.

(** X9.  A hand is created only for a box of the frame whose centre lies
    in a region: in any session, an identifier given out by a call is at
    least the previous [next_id], was not live before, and after the call
    keys a hand in state [in_roi] with that box, that region's name and
    counter 1. *)
Theorem new_hand_comes_from_region
  (rs : list Roi) (frames : list Frame) (f : Frame) (k : nat) :
  let t := run (init rs) frames in
  In k (created_in t f) ->
  (next_id t <= k < next_id (step t f))%nat
  /\ dict_get k (hands t) = None
  /\ exists hand_box roi,
       In hand_box (f_hands f)
       /\ In roi rs
       /\ is_in_roi hand_box roi = true
       /\ dict_get k (hands (step t f))
          = Some (mkHand hand_box in_roi 1 (roi_name roi)).
Proof.
  intros t Hc.
  pose proof (created_in_region t f k (run_inv rs frames) Hc) as H.
  unfold t in H at 4. rewrite run_init_rois in H. exact H.
Qed.

Lemma new_hand_comes_from_region_witness :
  exists hand_box roi,
    In hand_box (f_hands (Scenario.frame 10))
    /\ In roi [Scenario.cheese]
    /\ is_in_roi hand_box roi = true
    /\ dict_get 0%nat (hands (step (run (init [Scenario.cheese]) [])
                                 (Scenario.frame 10)))
       = Some (mkHand hand_box in_roi 1 (roi_name roi)).
Proof.
  destruct (new_hand_comes_from_region [Scenario.cheese] [] (Scenario.frame 10) 0%nat)
    as (_ & _ & H).
  - vm_compute. left. reflexivity.
  - exact H.
Defined.

(** X10.  A session in which no hand box ever has its centre in a region
    tracks nothing: no hand, no pending check, no violation, and [next_id]
    stays 0.  This is so in particular for every session of a tracker built
    with an empty region list. *)
Theorem nothing_tracked_outside_regions :
  (forall (rs : list Roi) (frames : list Frame),
      (forall f hb, In f frames -> In hb (f_hands f) -> find_roi rs hb = None) ->
      let t := run (init rs) frames in
      hands t = [] /\ pending_violations t = [] /\ violations t = []
      /\ next_id t = 0%nat)
  /\ (forall frames : list Frame,
        let t := run (init []) frames in
        hands t = [] /\ pending_violations t = [] /\ violations t = []
        /\ next_id t = 0%nat).
Proof.
  split.
  - intros rs frames H. now apply untracked_session.
  - intros frames. apply untracked_session. reflexivity.
Qed.

Lemma nothing_tracked_outside_regions_witness :
  hands (run (init [Scenario.cheese])
           [mkFrame [Scenario.hand_at_pizza] [] [Scenario.pizza] 1;
            mkFrame [Scenario.hand_at_pizza] [] [Scenario.pizza] 2]) = [].
Proof.
  destruct nothing_tracked_outside_regions as [H _].
  refine (proj1 (H [Scenario.cheese] _ _)).
  intros f hb [<- | [<- | []]] [<- | []]; vm_compute; reflexivity.
Defined.

(** X11.  In any session the state of a hand and the pending checks agree:
    a hand in [waiting_at_pizza] has a pending check open, a hand in [done]
    has none, and no two pending checks have the same identifier. *)
Theorem hand_state_agrees_with_pending
  (rs : list Roi) (frames : list Frame) (k : nat) (hd : HandData) :
  let t := run (init rs) frames in
  dict_get k (hands t) = Some hd ->
  (state hd = waiting_at_pizza ->
   exists p, dict_get k (pending_violations t) = Some p)
  /\ (state hd = done -> dict_get k (pending_violations t) = None)
  /\ NoDup (dict_keys (pending_violations t)).
Proof.
  intros t Hg. pose proof (run_inv rs frames) as Hinv. fold t in Hinv.
  split; [apply (inv_waiting t Hinv k hd Hg) |].
  split; [| apply (inv_pending_nodup t Hinv)].
  intros Hd. destruct (dict_get k (pending_violations t)) as [p |] eqn:E;
    [| reflexivity].
  destruct (inv_pending_key t k p Hinv E) as (hd1 & Hg1 & _ & Hnd). congruence.
Qed.

Lemma hand_state_agrees_with_pending_witness :
  exists p, dict_get 0%nat
              (pending_violations (run (init [Scenario.cheese])
                                     (Scenario.frames_from 10 6))) = Some p.
Proof.
  destruct (hand_state_agrees_with_pending [Scenario.cheese]
              (Scenario.frames_from 10 6) 0%nat
              (mkHand Scenario.hand_at_pizza waiting_at_pizza 0 "Cheese"))
    as (H & _).
  - vm_compute. reflexivity.
  - apply H. reflexivity.
Defined.

(** X12.  In any session the counters stay bounded.  An open pending check
    has a counter between 1 and 9 and its hand has been unmatched for at
    most that many frames; a live hand has been unmatched for at most the
    timeout of its state, so for at most 120 frames. *)
Theorem counters_are_bounded (rs : list Roi) (frames : list Frame) :
  let t := run (init rs) frames in
  (forall k p, dict_get k (pending_violations t) = Some p ->
     (1 <= delay_counter p < VIOLATION_DELAY_FRAMES)%nat
     /\ exists hd, dict_get k (hands t) = Some hd
                   /\ (frames_since_update hd <= delay_counter p)%nat)
  /\ (forall k hd, dict_get k (hands t) = Some hd ->
        (frames_since_update hd <= timeout_of (state hd))%nat
        /\ (frames_since_update hd <= 2 * HAND_TIMEOUT_FRAMES)%nat).
Proof.
  intros t. pose proof (run_inv rs frames) as Hinv.
  pose proof (run_inv_more rs frames) as Hmore. fold t in Hinv, Hmore.
  split.
  - intros k p Hp.
    destruct (inv_pending t Hinv k p Hp) as (hd & Hg & H1 & H2 & _).
    pose proof (more_pending_started t Hmore k p Hp).
    split; [lia |]. exists hd. auto.
  - intros k hd Hg. pose proof (more_hand_counter t Hmore k hd Hg) as H.
    split; [exact H |].
    destruct (state hd); unfold timeout_of, HAND_TIMEOUT_FRAMES in *; lia.
Qed.

Lemma counters_are_bounded_witness :
  (1 <= delay_counter (mkPending 15 Scenario.pizza "Cheese" 4)
   < VIOLATION_DELAY_FRAMES)%nat.
Proof.
  destruct (counters_are_bounded [Scenario.cheese] Scenario.back_and_forth)
    as [H _].
  refine (proj1 (H 0%nat _ _)). vm_compute. reflexivity.
Defined.

(** X13.  After any session the stored scooper history is the list of the
    scooper sets of the last 15 frames, oldest first; it never holds more
    than 15 entries. *)
Theorem scooper_history_is_last_15 (rs : list Roi) (frames : list Frame) :
  scooper_history (run (init rs) frames)
  = lastn SCOOPER_MEMORY_FRAMES (map f_scoopers frames)
  /\ List.length (scooper_history (run (init rs) frames))
     = Nat.min SCOOPER_MEMORY_FRAMES (List.length frames).
Proof.
  split; [apply history_run |].
  now rewrite history_run, lastn_length, length_map.
Qed.

(** X14.  A call returns at most one violation for a hand, and every record
    it returns carries the frame number it was called with. *)
Theorem one_violation_per_hand_per_call
  (rs : list Roi) (frames : list Frame) (f : Frame) :
  let t := run (init rs) frames in
  NoDup (map v_hand_id (emitted t f))
  /\ (forall v, In v (emitted t f) -> v_frame v = f_num f).
Proof.
  intros t. pose proof (run_inv rs frames) as Hinv. fold t in Hinv.
  pose proof (phase_facts t f Hinv) as (_ & _ & _ & Hndp & _).
  rewrite emitted_eq. split.
  - rewrite map_map. cbn.
    apply (NoDup_keys_filter
             (fun kp => commits (scoopers_seen t f) (snd kp)) _ Hndp).
  - intros v Hv. apply in_map_iff in Hv as (kp & <- & _). reflexivity.
Qed.

Lemma one_violation_per_hand_per_call_witness :
  v_frame (mkViolation 24 0 "Cheese") = f_num (Scenario.frame 24).
Proof.
  destruct (one_violation_per_hand_per_call [Scenario.cheese]
              (Scenario.frames_from 10 14) (Scenario.frame 24)) as [_ H].
  apply H. vm_compute. left. reflexivity.
Defined.

(** X15.  Every violation recorded in a session names one of the regions
    the tracker was built with, a hand identifier that was given out, and
    the number of one of the frames fed. *)
Theorem violations_are_attributed
  (rs : list Roi) (frames : list Frame) (v : Violation) :
  In v (violations (run (init rs) frames)) ->
  In (v_roi_name v) (map roi_name rs)
  /\ (v_hand_id v < next_id (run (init rs) frames))%nat
  /\ In (v_frame v) (map f_num frames).
Proof.
  intros Hv.
  destruct (more_violations _ (run_inv_more rs frames) v Hv) as [Hn Hi].
  unfold region_names in Hn. rewrite run_init_rois in Hn.
  split; [exact Hn |]. split; [exact Hi |].
  rewrite run_violations in Hv. cbn in Hv. eapply outputs_frames; eauto.
Qed.

Lemma violations_are_attributed_witness :
  In (v_roi_name (mkViolation 24 0 "Cheese")) (map roi_name [Scenario.cheese]).
Proof.
  refine (proj1 (violations_are_attributed [Scenario.cheese]
                   (Scenario.frames_from 10 16) (mkViolation 24 0 "Cheese") _)).
  vm_compute. left. reflexivity.
Defined.

(** X16.  When the frames are fed in non-decreasing order of frame number,
    the stored violations are in non-decreasing order of frame number. *)
Theorem violations_in_frame_order (rs : list Roi) (frames : list Frame) :
  StronglySorted Z.le (map f_num frames) ->
  StronglySorted Z.le (map v_frame (violations (run (init rs) frames))).
Proof.
  intros Hs. rewrite run_violations. cbn. now apply outputs_sorted.
Qed.

Lemma violations_in_frame_order_witness :
  StronglySorted Z.le
    (map v_frame (violations (run (init [Scenario.cheese])
                                Scenario.second_round))).
Proof.
  apply violations_in_frame_order. vm_compute.
  repeat first [apply SSorted_nil | apply SSorted_cons
               | apply Forall_nil | apply Forall_cons | discriminate].
Defined.

(** X17.  The matching loop pairs boxes and hands one to one: in any
    session, no hand is matched twice in a call, every matched hand was
    live before the call, and every hand box of the frame either matches a
    hand or is passed on to the creation loop. *)
Theorem matching_is_one_to_one (rs : list Roi) (frames : list Frame) (f : Frame) :
  let t := run (init rs) frames in
  NoDup (matched_in t f)
  /\ incl (matched_in t f) (dict_keys (hands t))
  /\ (List.length (matched_in t f) + List.length (unmatched_boxes t f)
      = List.length (f_hands f))%nat
  /\ incl (unmatched_boxes t f) (f_hands f)
  /\ (List.length (matched_in t f) <= List.length (hands t))%nat.
Proof.
  intros t. pose proof (run_inv rs frames) as Hinv. fold t in Hinv.
  unfold matched_in, matched_hands_of, unmatched_boxes, match_phase.
  destruct (match_all (rois t) (f_pizzas f) (f_num f) (f_hands f) (hands t) []
              (pending_violations t)) as [[[hs1 m] pend1] nh] eqn:E.
  destruct (match_all_counts _ _ _ _ _ _ _ _ _ _ _
              (inv_hands_nodup t Hinv) (NoDup_nil nat) E) as [Hnd Hlen].
  destruct (match_all_spec _ _ _ _ _ _ _ _ _ _ _ (inv_hands_nodup t Hinv) E)
    as (_ & _ & Hnew & Hdom & _).
  assert (Hincl : incl m (dict_keys (hands t))).
  { intros k Hk. destruct (Hdom k Hk) as [[] | H]; exact H. }
  split; [exact Hnd |]. split; [exact Hincl |].
  split; [cbn in Hlen; lia |]. split; [exact Hnew |].
  rewrite <- (length_map fst (hands t)). now apply NoDup_incl_length.
Qed.

(** X18.  A hand matched in a call is never evicted by it: in any session
    it is live after the call with [frames_since_update] 0 and carries a
    box of the frame, one that overlapped its previous box with a ratio
    above the threshold. *)
Theorem matched_hand_is_refreshed
  (rs : list Roi) (frames : list Frame) (f : Frame) (k : nat) :
  let t := run (init rs) frames in
  In k (matched_in t f) ->
  exists hd hd',
    dict_get k (hands t) = Some hd
    /\ dict_get k (hands (step t f)) = Some hd'
    /\ frames_since_update hd' = 0%nat
    /\ In (box hd') (f_hands f)
    /\ iou_matches (box hd') hd = true.
Proof.
  intros t Hm. pose proof (run_inv rs frames) as Hinv. fold t in Hinv.
  destruct (step_matched t f k Hinv Hm) as (b & hd & Hb & Hg & Hi & _ & Hh & _).
  cbv zeta in Hh. exists hd. eexists. split; [exact Hg |]. split; [exact Hh |].
  unfold arbitrate.
  destruct (match opened_for (rois t) (f_pizzas f) b hd with
            | Some pb => Some (fresh_pending (f_num f) pb hd)
            | None => dict_get k (pending_violations t)
            end) as [p |];
    [destruct (resolves (scoopers_seen t f) p) |];
    cbn [fst set_done frames_since_update box];
    rewrite hand_after_counter, hand_after_box; auto.
Qed.

Lemma matched_hand_is_refreshed_witness :
  exists hd hd',
    dict_get 0%nat (hands (run (init [Scenario.cheese]) (Scenario.frames_from 10 1)))
    = Some hd
    /\ dict_get 0%nat (hands (step (run (init [Scenario.cheese])
                                     (Scenario.frames_from 10 1))
                                (Scenario.frame 11))) = Some hd'
    /\ frames_since_update hd' = 0%nat
    /\ In (box hd') (f_hands (Scenario.frame 11))
    /\ iou_matches (box hd') hd = true.
Proof.
  apply (matched_hand_is_refreshed [Scenario.cheese] (Scenario.frames_from 10 1)
           (Scenario.frame 11) 0%nat).
  vm_compute. left. reflexivity.
Defined.

(** X19.  A call creates exactly one hand for each box that matched no
    hand and has its centre in a region, and [next_id] advances by that
    number; so it advances by at most the number of hand boxes of the
    frame. *)
Theorem creations_are_counted (rs : list Roi) (frames : list Frame) (f : Frame) :
  let t := run (init rs) frames in
  List.length (created_in t f)
  = List.length (filter (in_some_region rs) (unmatched_boxes t f))
  /\ next_id (step t f) = (next_id t + List.length (created_in t f))%nat
  /\ (next_id (step t f) <= next_id t + List.length (f_hands f))%nat.
Proof.
  intros t. pose proof (run_inv rs frames) as Hinv. fold t in Hinv.
  assert (Hrs : rois t = rs) by apply run_init_rois.
  unfold created_in, created_ids, unmatched_boxes, step, update.
  destruct (update_full_phases t (f_hands f) (f_scoopers f) (f_pizzas f) (f_num f))
    as (hs1 & m & pend1 & nh & hs2 & nid & created & pend2 & hs3 & nv
        & resolved & hs4 & lost & pend4 & P1 & P2 & P3 & P4 & ->).
  rewrite P1. cbn [fst snd next_id].
  destruct (add_new_hands_count _ _ _ _ _ _ _ P2) as [Hl Hn].
  rewrite Hrs in Hl. unfold match_phase in P1.
  destruct (match_all_counts _ _ _ _ _ _ _ _ _ _ _
              (inv_hands_nodup t Hinv) (NoDup_nil nat) P1) as [_ Hlen].
  pose proof (filter_length_le (in_some_region rs) nh).
  cbn in Hlen. repeat split; [assumption | assumption | lia].
Qed.

(** X20.  A violation is only returned when the evidence is missing: in any
    session, a record returned by a call belongs to a pending check that
    was open before the call with counter 9, no scooper box of the last 15
    frames (the current one included) is near its pizza box, and after the
    call the check is closed and the hand is in state [done]. *)
Theorem violation_means_no_evidence
  (rs : list Roi) (frames : list Frame) (f : Frame) (v : Violation) :
  let t := run (init rs) frames in
  In v (emitted t f) ->
  exists p,
    dict_get (v_hand_id v) (pending_violations t) = Some p
    /\ S (delay_counter p) = VIOLATION_DELAY_FRAMES
    /\ v = mkViolation (f_num f) (v_hand_id v) (p_roi_name p)
    /\ (forall s,
          In s (List.concat (lastn SCOOPER_MEMORY_FRAMES
                               (map f_scoopers (frames ++ [f])))) ->
          scooper_near (pizza_box p) s = false)
    /\ dict_get (v_hand_id v) (pending_violations (step t f)) = None
    /\ (exists hd, dict_get (v_hand_id v) (hands (step t f)) = Some hd
                   /\ state hd = done).
Proof.
  intros t Hv. pose proof (run_inv rs frames) as Hinv. fold t in Hinv.
  apply (emitted_In t f v Hinv) in Hv as (k & p & Hp & Hc & ->). cbn [v_hand_id].
  assert (Hev : evidence (scoopers_seen t f) p = false).
  { destruct (evidence (scoopers_seen t f) p) eqn:E; [| reflexivity].
    unfold commits in Hc. rewrite E in Hc. discriminate. }
  assert (Hd : (VIOLATION_DELAY_FRAMES <= S (delay_counter p))%nat).
  { destruct (Nat.leb_spec VIOLATION_DELAY_FRAMES (S (delay_counter p)))
      as [H | H]; [exact H |].
    unfold commits in Hc. rewrite (proj2 (Nat.leb_gt _ _) H), andb_false_r in Hc.
    discriminate. }
  assert (Hres : resolves (scoopers_seen t f) p = true)
    by (unfold resolves; rewrite Hev; cbn [orb]; now apply Nat.leb_le).
  assert (Hold : dict_get k (pending_violations t) = Some p).
  { destruct (pending_at_arbitration_origin t f k p Hinv Hp)
      as [Hold | (b & hd & pb & _ & _ & _ & _ & ->)]; [exact Hold |].
    cbn in Hd. unfold VIOLATION_DELAY_FRAMES in Hd. lia. }
  destruct (inv_pending t Hinv k p Hold) as (hd & _ & _ & Hlt & _).
  destruct (resolved_pending_step t f k p Hinv Hp Hres) as [Hq Hh].
  exists p. split; [exact Hold |]. split; [lia |]. split; [reflexivity |].
  split; [| split; assumption].
  unfold evidence in Hev. unfold t in Hev. rewrite scoopers_seen_run in Hev.
  rewrite is_scooper_at_pizza_existsb in Hev.
  now apply existsb_false_forall.
Qed.

Lemma violation_means_no_evidence_witness :
  exists p,
    dict_get 0%nat (pending_violations (run (init [Scenario.cheese])
                                          (Scenario.frames_from 10 14))) = Some p
    /\ S (delay_counter p) = VIOLATION_DELAY_FRAMES.
Proof.
  destruct (violation_means_no_evidence [Scenario.cheese]
              (Scenario.frames_from 10 14) (Scenario.frame 24)
              (mkViolation 24 0 "Cheese")) as (p & H1 & H2 & _).
  - vm_compute. left. reflexivity.
  - exists p. split; assumption.
Defined.

(** X21.  The live hands are kept in increasing order of identifier, and a
    frame with a single hand box matches the first hand in that order whose
    stored box overlaps it above the threshold: among the hands that would
    pass the test, the one created first. *)
Theorem single_box_matches_oldest_hand
  (rs : list Roi) (frames : list Frame) (f : Frame) (b : Box) :
  let t := run (init rs) frames in
  f_hands f = [b] ->
  StronglySorted lt (dict_keys (hands t))
  /\ matched_in t f
     = match find (fun kh => iou_matches b (snd kh)) (hands t) with
       | Some kh => [fst kh]
       | None => []
       end
  /\ (forall k, In k (matched_in t f) ->
      forall k' hd', dict_get k' (hands t) = Some hd' ->
                     iou_matches b hd' = true -> (k <= k')%nat).
Proof.
  intros t Hb. pose proof (run_keys_sorted rs frames) as Hs. fold t in Hs.
  assert (Hm : matched_in t f
               = match find (fun kh => iou_matches b (snd kh)) (hands t) with
                 | Some kh => [fst kh]
                 | None => []
                 end).
  { unfold matched_in, matched_hands_of, match_phase. rewrite Hb.
    cbn [match_all].
    pose proof (match_hand_first (rois t) (f_pizzas f) (f_num f) b
                  (pending_violations t) (hands t)) as H.
    destruct (match_hand (rois t) (f_pizzas f) (f_num f) b (hands t) []
                (pending_violations t)) as [[[hs1 m1] p1] |];
      destruct (find (fun kh => iou_matches b (snd kh)) (hands t)) as [kh |];
      cbn in H; try discriminate; [now injection H | reflexivity]. }
  split; [exact Hs |]. split; [exact Hm |].
  intros k Hk k' hd' Hg' Hi'. rewrite Hm in Hk.
  destruct (find (fun kh => iou_matches b (snd kh)) (hands t)) as [kh |] eqn:Ef;
    [| destruct Hk].
  destruct Hk as [<- | []].
  apply (find_first_sorted _ _ kh Hs Ef (k', hd')); [| exact Hi'].
  now apply dict_get_In.
Qed.

Lemma single_box_matches_oldest_hand_witness :
  matched_in (run (init [Scenario.cheese]) (Scenario.frames_from 10 1))
    (Scenario.frame 11) = [0%nat].
Proof.
  destruct (single_box_matches_oldest_hand [Scenario.cheese]
              (Scenario.frames_from 10 1) (Scenario.frame 11)
              Scenario.hand_leaving) as (_ & H & _).
  - reflexivity.
  - rewrite H. vm_compute. reflexivity.
Defined.



(** ** The services around the tracker *)

Section Services.

Lemma read_and_stream_from_spec (published : list bool) :
  forall n,
    read_and_stream_from published n
    = (seq n (List.length (filter (fun ok => ok) published)),
       (n + List.length (filter (fun ok => ok) published))%nat).
Proof.
  induction published as [| ok more IH]; intros n; cbn.
  - now rewrite Nat.add_0_r.
  - destruct ok; cbn.
    + rewrite IH. f_equal. lia.
    + apply IH.
Qed.

Lemma retry_loop_spec (try : nat -> bool) (n : nat) :
  forall todo a,
    (a + todo = n)%nat ->
    let r := fst (retry_loop try n a todo) in
    let sleeps := snd (retry_loop try n a todo) in
    (r = true ->
     try (a + sleeps)%nat = true
     /\ (a + sleeps < n)%nat
     /\ (forall j, (a <= j < a + sleeps)%nat -> try j = false))
    /\ (r = false ->
        (forall j, (a <= j < n)%nat -> try j = false)
        /\ sleeps = (todo - 1)%nat).
Proof.
  induction todo as [| todo IH]; intros a Ha; cbn [retry_loop].
  - cbn [fst snd]. split; [discriminate |]. intros _.
    split; [intros j Hj; lia | reflexivity].
  - destruct (try a) eqn:Ea; cbn [fst snd].
    + split; [| discriminate]. intros _. rewrite Nat.add_0_r.
      split; [assumption |]. split; [lia | intros j Hj; lia].
    + specialize (IH (S a) ltac:(lia)). cbv zeta in IH.
      destruct (retry_loop try n (S a) todo) as [r sleeps] eqn:E.
      cbn [fst snd] in *. destruct IH as [IHt IHf]. split.
      * intros Hr. destruct (IHt Hr) as (H1 & H2 & H3).
        destruct (Nat.ltb_spec (S a) n) as [Hlt | Hge]; [| lia].
        replace (a + (1 + sleeps))%nat with (S a + sleeps)%nat by lia.
        split; [exact H1 |]. split; [lia |].
        intros j Hj. destruct (Nat.eq_dec j a) as [-> | Hne]; [exact Ea |].
        apply H3. lia.
      * intros Hr. destruct (IHf Hr) as (H1 & H2). split.
        -- intros j Hj. destruct (Nat.eq_dec j a) as [-> | Hne]; [exact Ea |].
           apply H1. lia.
        -- rewrite H2. destruct (Nat.ltb_spec (S a) n); lia.
Qed.

Lemma load_rois_from_first (fs : string -> PathState) :
  forall pre path post,
    (forall q, In q pre -> fs q = Missing) ->
    load_rois_from fs (pre ++ path :: post)
    = match fs path with
      | Missing => load_rois_from fs post
      | Unreadable => None
      | Config rs => Some rs
      end.
Proof.
  induction pre as [| q pre IH]; intros path post H; cbn; [reflexivity |].
  rewrite (H q (or_introl eq_refl)). apply IH. intros x Hx. apply H. now right.
Qed.

Lemma load_rois_from_none (fs : string -> PathState) :
  forall paths, load_rois_from fs paths = None ->
                exists q, In q paths /\ fs q = Unreadable.
Proof.
  induction paths as [| q paths IH]; cbn; [discriminate |].
  destruct (fs q) eqn:E; [| eauto | discriminate].
  intros H. destruct (IH H) as (x & Hx & Hu). eauto.
Qed.

Lemma load_rois_from_missing (fs : string -> PathState) :
  forall paths, (forall q, In q paths -> fs q = Missing) ->
                load_rois_from fs paths = Some default_rois.
Proof.
  induction paths as [| q paths IH]; intros H; cbn; [reflexivity |].
  rewrite (H q (or_introl eq_refl)). apply IH. intros x Hx. apply H. now right.
Qed.

Lemma lower_ascii_idem c : lower_ascii (lower_ascii c) = lower_ascii c.
Proof.
  destruct c as [[] [] [] [] [] [] [] []]; vm_compute; reflexivity.
Qed.

Lemma lower_idem s : lower (lower s) = lower s.
Proof.
  induction s as [| c s IH]; cbn; [reflexivity |].
  now rewrite lower_ascii_idem, IH.
Qed.

Lemma parse_detections_spec (boxes : list Detection) :
  forall acc,
    parse_detections boxes acc
    = mkParsed
        (det_hand_boxes acc ++ map d_box (filter (has_label "hand") boxes))
        (det_scooper_boxes acc ++ map d_box (filter (has_label "scooper") boxes))
        (det_pizza_boxes acc ++ map d_box (filter (has_label "pizza") boxes))
        (det_person_boxes acc ++ map d_box (filter (has_label "person") boxes)).
Proof.
  induction boxes as [| d more IH]; intros acc; cbn [parse_detections filter map].
  - rewrite !app_nil_r. now destruct acc.
  - rewrite IH. set (lab := lower (d_label d)).
    change (has_label "hand" d) with (String.eqb lab "hand").
    change (has_label "scooper" d) with (String.eqb lab "scooper").
    change (has_label "pizza" d) with (String.eqb lab "pizza").
    change (has_label "person" d) with (String.eqb lab "person").
    clearbody lab.
    destruct (String.eqb_spec lab "hand") as [-> | N1];
      [cbn; now rewrite <- !app_assoc |].
    destruct (String.eqb_spec lab "scooper") as [-> | N2];
      [cbn; now rewrite <- !app_assoc |].
    destruct (String.eqb_spec lab "pizza") as [-> | N3];
      [cbn; now rewrite <- !app_assoc |].
    destruct (String.eqb_spec lab "person") as [-> | N4];
      [cbn; now rewrite <- !app_assoc |].
    reflexivity.
Qed.

Lemma filter_filter_implies {A : Type} (g h : A -> bool) (l : list A) :
  (forall x, g x = true -> h x = true) ->
  filter g (filter h l) = filter g l.
Proof.
  intros H. induction l as [| x l IH]; cbn; [reflexivity |].
  destruct (h x) eqn:Eh; cbn.
  - now rewrite IH.
  - destruct (g x) eqn:Eg; [| exact IH].
    rewrite (H x Eg) in Eh. discriminate.
Qed.

Lemma filter_relabel (l : string) (boxes : list Detection) :
  map d_box (filter (has_label l)
               (map (fun d => mkDetection (lower (d_label d)) (d_box d)) boxes))
  = map d_box (filter (has_label l) boxes).
Proof.
  induction boxes as [| d more IH]; cbn [map filter]; [reflexivity |].
  assert (E : has_label l (mkDetection (lower (d_label d)) (d_box d))
              = has_label l d)
    by (unfold has_label; cbn [d_label]; now rewrite lower_idem).
  rewrite E. destruct (has_label l d); cbn [map d_box]; now rewrite IH.
Qed.

End Services.

(** X22.  [read_and_stream] numbers the frames it publishes 0, 1, 2, ...
    without a gap, whichever publications fail: a frame whose publication
    fails is dropped and its number is given to the next frame published.
    The count logged at the end is the number of published frames. *)
Theorem published_frames_are_numbered_consecutively (published : list bool) :
  let n := List.length (filter (fun ok => ok) published) in
  read_and_stream published = (seq 0 n, n).
Proof.
  unfold read_and_stream. now rewrite read_and_stream_from_spec.
Qed.

(** X23.  The connection loop returns [True] exactly when one of its
    [max_retries] attempts succeeds, and it then stopped at the first
    attempt that succeeds, having slept once per failed attempt before it.
    When every attempt fails it returns [False] after [max_retries - 1]
    sleeps: it does not sleep after the last attempt.  It never sleeps more
    than [max_retries - 1] times. *)
Theorem connection_retry_is_bounded (try : nat -> bool) (max_retries : nat) :
  let r := fst (connect_with_retry try max_retries) in
  let sleeps := snd (connect_with_retry try max_retries) in
  (r = true <-> exists a, (a < max_retries)%nat /\ try a = true)
  /\ (r = true ->
      try sleeps = true /\ forall j, (j < sleeps)%nat -> try j = false)
  /\ (r = false -> sleeps = (max_retries - 1)%nat)
  /\ (sleeps <= max_retries - 1)%nat.
Proof.
  intros r sleeps.
  pose proof (retry_loop_spec try max_retries max_retries 0 eq_refl) as [Ht Hf].
  fold (connect_with_retry try max_retries) in Ht, Hf. fold r sleeps in Ht, Hf.
  cbn [Nat.add] in Ht, Hf.
  split; [split |].
  - intros Hr. destruct (Ht Hr) as (H1 & H2 & _). eauto.
  - intros (a & Ha & Hta). destruct r eqn:Er; [reflexivity |].
    destruct (Hf eq_refl) as [Hall _]. rewrite Hall in Hta by lia. discriminate.
  - split.
    + intros Hr. destruct (Ht Hr) as (H1 & _ & H3).
      split; [assumption |]. intros j Hj. apply H3. lia.
    + split; [intros Hr; now destruct (Hf Hr) |].
      destruct r eqn:Er.
      * destruct (Ht eq_refl) as (_ & H2 & _). lia.
      * destruct (Hf eq_refl) as [_ ->]. lia.
Qed.

Lemma connection_retry_is_bounded_witness :
  snd (connect_with_retry (fun a => Nat.eqb a 3) 15) = 3%nat
  /\ snd (connect_with_retry (fun _ => false) 10) = 9%nat.
Proof.
  split.
  - destruct (connection_retry_is_bounded (fun a => Nat.eqb a 3) 15)
      as (_ & H & _).
    destruct (H eq_refl) as [H1 _]. now apply Nat.eqb_eq in H1.
  - destruct (connection_retry_is_bounded (fun _ => false) 10) as (_ & _ & H & _).
    exact (H eq_refl).
Defined.

(** X24.  [load_rois] is decided by the first of its three paths that
    exists: a region list found there is returned (an empty one too), a file
    that cannot be read there makes the call fail, and the later paths are
    not consulted.  When none of the paths exists it returns the single
    fallback region "Cheese".  It fails only if some path holds a file it
    cannot read. *)
Theorem load_rois_takes_first_existing_path (fs : string -> PathState) :
  (forall pre path post,
      possible_paths = pre ++ path :: post ->
      (forall q, In q pre -> fs q = Missing) ->
      (forall rs, fs path = Config rs -> load_rois fs = Some rs)
      /\ (fs path = Unreadable -> load_rois fs = None))
  /\ ((forall q, In q possible_paths -> fs q = Missing) ->
      load_rois fs = Some default_rois)
  /\ (load_rois fs = None ->
      exists q, In q possible_paths /\ fs q = Unreadable).
Proof.
  unfold load_rois. split; [| split].
  - intros pre path post -> Hpre.
    rewrite (load_rois_from_first fs pre path post Hpre).
    split; [intros rs -> | intros ->]; reflexivity.
  - apply load_rois_from_missing.
  - apply load_rois_from_none.
Qed.

Lemma load_rois_takes_first_existing_path_witness :
  load_rois (fun path =>
               if String.eqb path "/app/config.json" then Unreadable
               else if String.eqb path "/app/config/config.json"
                    then Config [Scenario.cheese]
                    else Missing) = None
  /\ load_rois (fun _ => Missing) = Some default_rois.
Proof.
  split.
  - set (fs := fun path : string =>
                 if String.eqb path "/app/config.json" then Unreadable
                 else if String.eqb path "/app/config/config.json"
                      then Config [Scenario.cheese]
                      else Missing).
    destruct (load_rois_takes_first_existing_path fs) as (H & _).
    destruct (H ["/app/shared/config.json"%string] "/app/config.json"%string
                ["/app/config/config.json"%string] eq_refl) as [_ Hu].
    + intros q [<- | []]. reflexivity.
    + apply Hu. reflexivity.
  - destruct (load_rois_takes_first_existing_path (fun _ => Missing)) as (_ & H & _).
    apply H. reflexivity.
Defined.

(** X25.  [process_frame] sorts the detections by label, ignoring case and
    keeping their order, and the tracker is given the hand, scooper and
    pizza boxes only: person boxes and boxes with any other label change
    neither the tracker nor the violations, and neither does the case of
    the labels. *)
Theorem tracker_sees_three_labels
  (t : HandTracker) (boxes : list Detection) (frame_number : Z) :
  parse_detections boxes (mkParsed [] [] [] [])
  = mkParsed (map d_box (filter (has_label "hand") boxes))
             (map d_box (filter (has_label "scooper") boxes))
             (map d_box (filter (has_label "pizza") boxes))
             (map d_box (filter (has_label "person") boxes))
  /\ process_detections t (filter tracked_label boxes) frame_number
     = process_detections t boxes frame_number
  /\ process_detections t
       (map (fun d => mkDetection (lower (d_label d)) (d_box d)) boxes)
       frame_number
     = process_detections t boxes frame_number.
Proof.
  split; [now rewrite parse_detections_spec |].
  unfold process_detections. rewrite !parse_detections_spec.
  cbn [det_hand_boxes det_scooper_boxes det_pizza_boxes app].
  split.
  - rewrite !filter_filter_implies; [reflexivity | | |];
      intros d H; unfold tracked_label; rewrite H;
      rewrite ?orb_true_r; reflexivity.
  - now rewrite !filter_relabel.
Qed.

